(** * The orchestrator-workers scheduler of
      [workflow_orchestrator_workers_pattern.py], embedded and verified.

    The Python class [OrchestratorAgent] keeps a dict [self.tasks] from task
    id to [SubTask] object, and [execute_task] runs rounds over it: compute
    the ready tasks, mark them, run one worker call per ready task, store the
    results, and finally synthesize.  The embedding below follows the source
    function by function.

    - A Python dict is insertion ordered and is always keyed here by the
      task's own [id] ([self.tasks[task.id] = task]), so it is represented by
      the list of its values in insertion order; a key is looked up by the
      [id] field.
    - A reference to a task object held in [ready_tasks] is represented by
      the key of that object in [self.tasks]; a field assignment
      [task.status = s] updates the entry under that key.
    - [self.llm.call] is an external service with a state of its own (its
      memory): it is a parameter [llm_call] that threads a state and either
      returns text or raises.
    - The coroutines handed to [asyncio.gather] contain no [await]: the event
      loop runs each of them to completion, in list order, before the awaiting
      caller is resumed; the caller then receives the first exception in list
      order, if any. *)

From Stdlib Require Import String Ascii List Bool Arith Lia Relations.
Import ListNotations.
Open Scope string_scope.

Module Orchestrator.

(** ** Data model *)

Inductive TaskStatus : Type :=
| PENDING
| IN_PROGRESS
| COMPLETED
| FAILED.

Definition status_eqb (a b : TaskStatus) : bool :=
  match a, b with
  | PENDING, PENDING => true
  | IN_PROGRESS, IN_PROGRESS => true
  | COMPLETED, COMPLETED => true
  | FAILED, FAILED => true
  | _, _ => false
  end.

(** The dataclass [SubTask]. *)
Record SubTask : Type := mkSubTask {
  id : string;
  description : string;
  dependencies : list string;
  status : TaskStatus;
  result : option string
}.

(** One element of the planned subtasks list: the three keys the planning
    prompt asks for.  Building the [SubTask] from it fills [status] and
    [result] with the dataclass defaults.  A planning answer whose subtasks
    carry a [status] or a [result] key of their own, which the constructor
    call of line 56 would take over instead of the defaults, is not a list of
    [TaskSpec]: the
    runs on planned subtasks below are runs on subtasks with the defaults. *)
Record TaskSpec : Type := mkTaskSpec {
  spec_id : string;
  spec_description : string;
  spec_dependencies : list string
}.

Definition SubTask_of_spec (j : TaskSpec) : SubTask :=
  mkSubTask (spec_id j) (spec_description j) (spec_dependencies j) PENDING None.

Definition with_status (s : TaskStatus) (t : SubTask) : SubTask :=
  mkSubTask (id t) (description t) (dependencies t) s (result t).

Definition with_result (r : string) (t : SubTask) : SubTask :=
  mkSubTask (id t) (description t) (dependencies t) (status t) (Some r).

(** Exceptions that can leave [execute_task]. *)
Inductive PyException : Type :=
| KeyError (key : string)          (* [self.tasks[dep_id]] on an absent key *)
| ValueError (msg : string)
| Exception (msg : string)         (* [raise Exception(msg)] *)
| LLMError (msg : string).         (* raised by [llm.call]; [msg] is [str(e)] *)

(** What one [llm.call] does: return text, or raise with [str(e) = msg]. *)
Inductive Reply : Type :=
| Text (s : string)
| Raises (msg : string).

(** ** The dict [self.tasks] *)

Definition Tasks : Type := list SubTask.

(** [self.tasks.get(k)] *)
Fixpoint tasks_get (ts : Tasks) (k : string) : option SubTask :=
  match ts with
  | [] => None
  | t :: ts' => if String.eqb (id t) k then Some t else tasks_get ts' k
  end.

(** [self.tasks[task.id] = task]: an existing key keeps its position and
    gets the new value, a new key goes last. *)
Fixpoint tasks_set (ts : Tasks) (t : SubTask) : Tasks :=
  match ts with
  | [] => [t]
  | u :: ts' => if String.eqb (id u) (id t) then t :: ts' else u :: tasks_set ts' t
  end.

(** A field assignment on the object stored under key [k]. *)
Fixpoint tasks_update (ts : Tasks) (k : string) (f : SubTask -> SubTask) : Tasks :=
  match ts with
  | [] => []
  | t :: ts' => if String.eqb (id t) k then f t :: ts' else t :: tasks_update ts' k f
  end.

(** The dict [results] of [execute_task], string to string. *)
Definition Results : Type := list (string * string).

Fixpoint results_set (rs : Results) (k v : string) : Results :=
  match rs with
  | [] => [(k, v)]
  | (k', v') :: rs' =>
      if String.eqb k' k then (k, v) :: rs' else (k', v') :: results_set rs' k v
  end.

Fixpoint results_get (rs : Results) (k : string) : option string :=
  match rs with
  | [] => None
  | (k', v) :: rs' => if String.eqb k' k then Some v else results_get rs' k
  end.

(** ** String formatting *)

Definition nl : string := String (ascii_of_nat 10) EmptyString.
Definition dq : string := String (ascii_of_nat 34) EmptyString.
Definition ind (n : nat) : string := String.concat "" (repeat " " n).

(** The f-string of [plan_subtasks]. *)
Definition planning_prompt (main_task : string) : string :=
  nl ++ ind 8 ++ "Break down the following task into smaller subtasks:" ++
  nl ++ ind 8 ++ main_task ++
  nl ++ ind 8 ++
  nl ++ ind 8 ++ "Return the subtasks in JSON format with the following structure:" ++
  nl ++ ind 8 ++ "{" ++
  nl ++ ind 12 ++ dq ++ "subtasks" ++ dq ++ ": [" ++
  nl ++ ind 16 ++ "{" ++
  nl ++ ind 20 ++ dq ++ "id" ++ dq ++ ": " ++ dq ++ "unique_id" ++ dq ++ "," ++
  nl ++ ind 20 ++ dq ++ "description" ++ dq ++ ": " ++ dq ++ "subtask description" ++ dq ++ "," ++
  nl ++ ind 20 ++ dq ++ "dependencies" ++ dq ++ ": [" ++ dq ++ "dependent_task_ids" ++ dq ++ "]" ++
  nl ++ ind 16 ++ "}" ++
  nl ++ ind 12 ++ "]" ++
  nl ++ ind 8 ++ "}" ++
  nl ++ ind 8 ++
  nl ++ ind 8 ++ "Ensure tasks are properly ordered with dependencies." ++
  nl ++ ind 8.

(** The list [dependency_results] built by [_get_dependency_results]: one
    formatted line per dependency whose task exists and whose [result] is
    truthy (neither [None] nor the empty string). *)
Fixpoint dependency_results (ts : Tasks) (deps : list string) : list string :=
  match deps with
  | [] => []
  | dep_id :: deps' =>
      match tasks_get ts dep_id with
      | Some dep_task =>
          match result dep_task with
          | Some r =>
              if String.eqb r "" then dependency_results ts deps'
              else (dep_id ++ ": " ++ r) :: dependency_results ts deps'
          | None => dependency_results ts deps'
          end
      | None => dependency_results ts deps'
      end
  end.

Definition _get_dependency_results (ts : Tasks) (task : SubTask) : string :=
  String.concat nl (dependency_results ts (dependencies task)).

(** The f-string of [execute_subtask]. *)
Definition execution_prompt (ts : Tasks) (task : SubTask) : string :=
  nl ++ ind 8 ++ "Execute the following task:" ++
  nl ++ ind 8 ++ description task ++
  nl ++ ind 8 ++
  nl ++ ind 8 ++ "If this task depends on other tasks, here are their results:" ++
  nl ++ ind 8 ++ _get_dependency_results ts task ++
  nl ++ ind 8.

(** ** Readiness (the comprehension of lines 108-116) *)

(** [all(self.tasks[dep_id].status == COMPLETED for dep_id in deps)]: stops
    at the first dependency that is not completed, raises [KeyError] at an
    absent key reached before that. *)
Fixpoint all_completed (ts : Tasks) (deps : list string) : PyException + bool :=
  match deps with
  | [] => inr true
  | dep_id :: deps' =>
      match tasks_get ts dep_id with
      | None => inl (KeyError dep_id)
      | Some dep_task =>
          if status_eqb (status dep_task) COMPLETED
          then all_completed ts deps'
          else inr false
      end
  end.

(** The filter condition on one task; [and] evaluates the dependencies only
    for a PENDING task. *)
Definition is_ready (ts : Tasks) (task : SubTask) : PyException + bool :=
  if status_eqb (status task) PENDING
  then all_completed ts (dependencies task)
  else inr false.

(** The comprehension over the values [l] of the dict [ts], in order.  The
    selected task objects are returned; [id], [description] and
    [dependencies] of an object never change, and every later write to one of
    them goes to the dict entry under its [id]. *)
Fixpoint ready_among (ts : Tasks) (l : list SubTask) : PyException + list SubTask :=
  match l with
  | [] => inr []
  | task :: l' =>
      match is_ready ts task with
      | inl e => inl e
      | inr b =>
          match ready_among ts l' with
          | inl e => inl e
          | inr r => inr (if b then task :: r else r)
          end
      end
  end.

Definition ready_tasks (ts : Tasks) : PyException + list SubTask :=
  ready_among ts ts.

(** ** The run *)

(** Calls made to the language model, newest first in a log.  A worker
    call is logged with the task object it was made for. *)
Inductive Event : Type :=
| EvPlan (prompt : string) (reply : Reply)
| EvExecute (task : SubTask) (prompt : string) (reply : Reply)
| EvSynthesize (results : Results) (reply : Reply).

(** How [execute_task] ends.  [OutOfFuel] only bounds the recursion of the
    model of the [while] loop; [schedule_total] shows it is never the
    outcome of a run. *)
Inductive Outcome : Type :=
| Returned (s : string)
| Raised (e : PyException)
| OutOfFuel.

(** [asyncio.gather] on coroutines that have all run: the first exception in
    list order, else the list of results. *)
Fixpoint gathered (l : list (PyException + string)) : PyException + list string :=
  match l with
  | [] => inr []
  | inl e :: _ => inl e
  | inr r :: l' =>
      match gathered l' with
      | inl e => inl e
      | inr rs => inr (r :: rs)
      end
  end.

(** [zip] *)
Fixpoint zip {A B : Type} (l : list A) (m : list B) : list (A * B) :=
  match l, m with
  | a :: l', b :: m' => (a, b) :: zip l' m'
  | _, _ => []
  end.

Definition synthesis_prompt (dumped : string) : string :=
  nl ++ ind 8 ++ "Synthesize the results of all subtasks into a coherent final output:" ++
  nl ++ ind 8 ++
  nl ++ ind 8 ++ "Results:" ++
  nl ++ ind 8 ++ dumped ++
  nl ++ ind 8.

Section Scheduler.

(** The state of the language-model client and its [call]. *)
Variable LLM : Type.
Variable llm_call : LLM -> string -> LLM * Reply.
(** [json.dumps(results, indent=2)] *)
Variable json_dumps : Results -> string.
(** [json.loads] followed by the construction of the planned subtasks. *)
Variable parse_plan : string -> PyException + list TaskSpec.

(** An [OrchestratorAgent] together with what the verification observes:
    [events] logs the model calls and [history] every value the task dict
    has had since scheduling began, both newest first. *)
Record Agent : Type := mkAgent {
  tasks : Tasks;
  llm : LLM;
  events : list Event;
  history : list Tasks
}.

(** [OrchestratorAgent(llm)] *)
Definition new_agent (st : LLM) : Agent := mkAgent [] st [] [].

Definition commit (a : Agent) (ts : Tasks) : Agent :=
  mkAgent ts (llm a) (events a) (ts :: history a).

Definition call (a : Agent) (prompt : string) (ev : Reply -> Event) : Agent * Reply :=
  let '(st, reply) := llm_call (llm a) prompt in
  (mkAgent (tasks a) st (ev reply :: events a) (history a), reply).

(** [plan_subtasks] *)
Definition plan_subtasks (a : Agent) (main_task : string)
  : Agent * (PyException + list SubTask) :=
  let prompt := planning_prompt main_task in
  let '(a1, reply) := call a prompt (EvPlan prompt) in
  match reply with
  | Raises msg => (a1, inl (LLMError msg))
  | Text response =>
      match parse_plan response with
      | inl e => (a1, inl e)
      | inr plan => (a1, inr (map SubTask_of_spec plan))
      end
  end.

(** [execute_subtask]: the prompt is built first, then the model is called;
    on an exception the task is marked FAILED and a new exception naming the
    task is raised. *)
Definition execute_subtask (a : Agent) (task : SubTask)
  : Agent * (PyException + string) :=
  let prompt := execution_prompt (tasks a) task in
  let '(a1, reply) := call a prompt (EvExecute task prompt) in
  match reply with
  | Text r => (a1, inr r)
  | Raises msg =>
      (commit a1 (tasks_update (tasks a1) (id task) (with_status FAILED)),
       inl (Exception ("Failed to execute task " ++ id task ++ ": " ++ msg)))
  end.

(** [synthesize_results] *)
Definition synthesize_results (a : Agent) (results : Results) : Agent * Outcome :=
  let prompt := synthesis_prompt (json_dumps results) in
  let '(a1, reply) := call a prompt (EvSynthesize results) in
  match reply with
  | Text s => (a1, Returned s)
  | Raises msg => (a1, Raised (LLMError msg))
  end.

(** Lines 101-102: [for task in subtasks: self.tasks[task.id] = task] *)
Fixpoint register (ts : Tasks) (subtasks : list SubTask) : Tasks :=
  match subtasks with
  | [] => ts
  | task :: rest => register (tasks_set ts task) rest
  end.

(** Lines 133-135: every ready task is marked before any coroutine runs
    (creating the coroutine object does not start it). *)
Fixpoint mark_in_progress (a : Agent) (ready : list SubTask) : Agent :=
  match ready with
  | [] => a
  | task :: rest =>
      mark_in_progress
        (commit a (tasks_update (tasks a) (id task) (with_status IN_PROGRESS))) rest
  end.

(** Line 137, the coroutines: each runs to completion, in list order. *)
Fixpoint run_coroutines (a : Agent) (ready : list SubTask)
  : Agent * list (PyException + string) :=
  match ready with
  | [] => (a, [])
  | task :: rest =>
      let '(a1, o) := execute_subtask a task in
      let '(a2, os) := run_coroutines a1 rest in
      (a2, o :: os)
  end.

(** Lines 140-143; the two assignments to one task are one step. *)
Fixpoint store_results (a : Agent) (pairs : list (SubTask * string)) (results : Results)
  : Agent * Results :=
  match pairs with
  | [] => (a, results)
  | (task, r) :: rest =>
      store_results
        (commit a (tasks_update (tasks a) (id task)
                     (fun u => with_result r (with_status COMPLETED u))))
        rest (results_set results (id task) r)
  end.

(** One pass through the [while] loop of lines 106-143: either the loop goes
    round again with an updated agent and [results], or [execute_task] ends,
    by an exception or by leaving the loop and returning the synthesis of
    line 146. *)
Inductive Step : Type :=
| Continue (a : Agent) (results : Results)
| Stop (a : Agent) (o : Outcome).

Definition stop (r : Agent * Outcome) : Step := Stop (fst r) (snd r).

Definition iteration (a : Agent) (results : Results) : Step :=
  if forallb (fun t => status_eqb (status t) COMPLETED) (tasks a)
  then stop (synthesize_results a results)
  else
    match ready_tasks (tasks a) with
    | inl e => Stop a (Raised e)
    | inr [] =>
        if existsb (fun t => status_eqb (status t) FAILED) (tasks a)
        then Stop a (Raised (Exception "Task execution failed"))
        else if existsb (fun t => status_eqb (status t) PENDING) (tasks a)
        then Stop a (Raised (Exception "Dependency cycle detected"))
        else stop (synthesize_results a results)
    | inr ready =>
        let a1 := mark_in_progress a ready in
        let '(a2, os) := run_coroutines a1 ready in
        match gathered os with
        | inl e => Stop a2 (Raised e)
        | inr task_results =>
            let '(a3, results') :=
              store_results a2 (zip ready task_results) results in
            Continue a3 results'
        end
    end.

Fixpoint schedule (fuel : nat) (a : Agent) (results : Results) : Agent * Outcome :=
  match fuel with
  | 0 => (a, OutOfFuel)
  | S fuel' =>
      match iteration a results with
      | Continue a' results' => schedule fuel' a' results'
      | Stop a' o => (a', o)
      end
  end.

(** [execute_task] from line 101 on, given the planned [subtasks].  One
    iteration of the loop per task and one more to leave it are enough. *)
Definition execute_plan (a : Agent) (subtasks : list SubTask) : Agent * Outcome :=
  let ts := register (tasks a) subtasks in
  schedule (S (length ts)) (mkAgent ts (llm a) (events a) [ts]) [].

(** [execute_task] *)
Definition execute_task (a : Agent) (main_task : string) : Agent * Outcome :=
  match plan_subtasks a main_task with
  | (a1, inl e) => (a1, Raised e)
  | (a1, inr subtasks) => execute_plan a1 subtasks
  end.

End Scheduler.

Arguments tasks {LLM} _.
Arguments llm {LLM} _.
Arguments events {LLM} _.
Arguments history {LLM} _.
Arguments mkAgent {LLM} _ _ _ _.
Arguments new_agent {LLM} _.
Arguments commit {LLM} _ _.
Arguments call {LLM} _ _ _ _.
Arguments plan_subtasks {LLM} _ _ _ _.
Arguments execute_subtask {LLM} _ _ _.
Arguments synthesize_results {LLM} _ _ _ _.
Arguments mark_in_progress {LLM} _ _.
Arguments run_coroutines {LLM} _ _ _.
Arguments store_results {LLM} _ _ _.
Arguments Continue {LLM} _ _.
Arguments Stop {LLM} _ _.
Arguments iteration {LLM} _ _ _ _.
Arguments schedule {LLM} _ _ _ _ _.
Arguments execute_plan {LLM} _ _ _ _.
Arguments execute_task {LLM} _ _ _ _ _.

(** * The client of [augmented_llm.py]

    [self.llm] is an [AugmentedLLM]: a client of the model service, a list
    of tools and a memory of the exchanges made so far.  The service is a
    parameter [messages_create], which threads the state of the client and
    returns the text [response.content[0].text] or raises; Python's [repr]
    of a string and of the parameters dict of a tool are parameters too. *)

Module AugmentedLLM.

Section Client.

(** The type of [Tool.parameters], a [Dict[str, Any]], and its [str()]. *)
Variable Params : Type.
Variable repr_params : Params -> string.
(** [repr()] of a string. *)
Variable repr_str : string -> string.
(** [self.client] and its [messages.create(model, max_tokens, messages)]
    with the one user message [content]. *)
Variable Client : Type.
Variable messages_create : Client -> string -> nat -> string -> Client * Reply.

(** The dataclass [Tool]. *)
Record Tool : Type := mkTool {
  name : string;
  description : string;
  parameters : Params
}.

(** An item of [self.memory]: the dict with the keys [prompt] and
    [response], in that order. *)
Record Exchange : Type := mkExchange {
  prompt : string;
  response : string
}.

Record AugmentedLLM : Type := mkAugmentedLLM {
  client : Client;
  tools : list Tool;
  memory : list Exchange
}.

(** [__init__], given the client that [Anthropic(api_key=api_key)] builds. *)
Definition init (c : Client) : AugmentedLLM := mkAugmentedLLM c [] [].

(** [add_tool] *)
Definition add_tool (l : AugmentedLLM) (tool : Tool) : AugmentedLLM :=
  mkAugmentedLLM (client l) (tools l ++ [tool]) (memory l).

(** The string [desc] that the loop of [get_tool_descriptions] builds for
    one tool. *)
Definition desc (tool : Tool) : string :=
  ("Tool: " ++ name tool ++ nl ++ "Description: " ++ description tool ++ nl) ++
  ("Parameters: " ++ repr_params (parameters tool) ++ nl).

(** [get_tool_descriptions] *)
Definition get_tool_descriptions (l : AugmentedLLM) : string :=
  String.concat nl (map desc (tools l)).

(** The f-string [f"{item}"] of a memory item: the [repr] of the dict. *)
Definition repr_item (item : Exchange) : string :=
  "{'prompt': " ++ repr_str (prompt item) ++ ", 'response': " ++
  repr_str (response item) ++ "}".

(** The slice [m[-5:]]. *)
Definition last5 (m : list Exchange) : list Exchange := skipn (length m - 5) m.

(** The lines that the loop over [self.memory[-5:]] appends to [context]. *)
Fixpoint memory_lines (items : list Exchange) : string :=
  match items with
  | [] => ""
  | item :: rest => (repr_item item ++ nl) ++ memory_lines rest
  end.

(** The string [context] of [call] when [full_prompt] is built. *)
Definition context (l : AugmentedLLM) : string :=
  ("Available tools:" ++ nl ++ get_tool_descriptions l ++ nl ++ nl) ++
  match memory l with
  | [] => ""
  | _ :: _ => "Previous context:" ++ nl ++ memory_lines (last5 (memory l))
  end.

(** [call]: the exchange is stored only when the service has answered. *)
Definition call (l : AugmentedLLM) (prompt : string) : AugmentedLLM * Reply :=
  let full_prompt := context l ++ prompt in
  let '(c, reply) :=
    messages_create (client l) "claude-3-sonnet-20240229" 1000 full_prompt in
  match reply with
  | Text text =>
      (mkAugmentedLLM c (tools l) (memory l ++ [mkExchange prompt text]), Text text)
  | Raises msg => (mkAugmentedLLM c (tools l) (memory l), Raises msg)
  end.

End Client.

Arguments mkTool {Params} _ _ _.
Arguments name {Params} _.
Arguments description {Params} _.
Arguments parameters {Params} _.
Arguments mkAugmentedLLM {Params Client} _ _ _.
Arguments client {Params Client} _.
Arguments tools {Params Client} _.
Arguments memory {Params Client} _.
Arguments init {Params Client} _.
Arguments add_tool {Params Client} _ _.
Arguments desc {Params} _ _.
Arguments get_tool_descriptions {Params} _ {Client} _.
Arguments context {Params} _ _ {Client} _.
Arguments call {Params} _ _ {Client} _ _ _.

End AugmentedLLM.

(** * Vocabulary of the properties *)

(** ** Task dicts *)

(** The keys of the dict, in order. *)
Definition ids (ts : Tasks) : list string := map id ts.

(** Every id of [deps] maps to a COMPLETED task of [ts]. *)
Definition deps_completed (ts : Tasks) (deps : list string) : Prop :=
  forall d, In d deps ->
    exists dt, tasks_get ts d = Some dt /\ status dt = COMPLETED.

(** ** Closed forms of the loops over the task dict *)

Definition mem (k : string) (l : list string) : bool := existsb (String.eqb k) l.

(** Apply [f] to the tasks whose id satisfies [p]. *)
Definition upd_if (p : string -> bool) (f : SubTask -> SubTask) (t : SubTask) : SubTask :=
  if p (id t) then f t else t.

(** Ids of the tasks whose coroutine raised. *)
Fixpoint failed_ids (ready : list SubTask) (os : list (PyException + string)) : list string :=
  match ready, os with
  | t :: ready', inl _ :: os' => id t :: failed_ids ready' os'
  | _ :: ready', inr _ :: os' => failed_ids ready' os'
  | _, _ => []
  end.

(** The first result paired with key [k]. *)
Fixpoint assoc_result (k : string) (pairs : list (SubTask * string)) : option string :=
  match pairs with
  | [] => None
  | (t, r) :: rest => if String.eqb (id t) k then Some r else assoc_result k rest
  end.

(** What a round that stores [pairs] makes of task [t]. *)
Definition complete_with (pairs : list (SubTask * string)) (t : SubTask) : SubTask :=
  match assoc_result (id t) pairs with
  | Some r => with_result r (with_status COMPLETED t)
  | None => t
  end.

Definition pair_ids (pairs : list (SubTask * string)) : list string :=
  map (fun p => id (fst p)) pairs.

(** ** Legal moves of a task and lawful histories *)

(** How one step may change one task: not at all, or along one of the three
    edges; the result is written on the edge into COMPLETED and only there. *)
Definition legal_move (t t' : SubTask) : Prop :=
  id t' = id t /\ description t' = description t /\
  dependencies t' = dependencies t /\
  ((status t' = status t /\ result t' = result t) \/
   (status t = PENDING /\ status t' = IN_PROGRESS /\ result t' = result t) \/
   (status t = IN_PROGRESS /\ status t' = FAILED /\ result t' = result t) \/
   (status t = IN_PROGRESS /\ status t' = COMPLETED /\
    result t = None /\ exists r, result t' = Some r)).

Definition legal_step (ts ts' : Tasks) : Prop := Forall2 legal_move ts ts'.

(** A history, newest first, in which every step is legal. *)
Inductive lawful : list Tasks -> Prop :=
| lawful_nil : lawful []
| lawful_one ts : lawful [ts]
| lawful_cons ts' ts h :
    legal_step ts ts' -> lawful (ts :: h) -> lawful (ts' :: ts :: h).

(** ** The loop *)

(** What the coroutine of [execute_subtask] for [t] yields on [reply]. *)
Definition outcome_of (t : SubTask) (reply : Reply) : PyException + string :=
  match reply with
  | Text r => inr r
  | Raises msg => inl (Exception ("Failed to execute task " ++ id t ++ ": " ++ msg))
  end.

(** The negation of the loop condition, and the two tests after an empty
    ready list. *)
Definition all_done (ts : Tasks) : bool :=
  forallb (fun t => status_eqb (status t) COMPLETED) ts.

Definition any_status (s : TaskStatus) (ts : Tasks) : bool :=
  existsb (fun t => status_eqb (status t) s) ts.

(** The fields of a task that no statement assigns. *)
Definition static (t : SubTask) : string * string * list string :=
  (id t, description t, dependencies t).

(** Every task is as [SubTask_of_spec] builds it. *)
Definition fresh (ts : Tasks) : Prop :=
  forall t, In t ts -> status t = PENDING /\ result t = None.

(** At the head of the loop a task is untouched, or completed with its result
    stored in the task and in [results]. *)
Definition settled (results : Results) (t : SubTask) : Prop :=
  (status t = PENDING /\ result t = None) \/
  (status t = COMPLETED /\
   exists r, result t = Some r /\ results_get results (id t) = Some r).

(** A logged worker call that returned text. *)
Definition succeeded (e : Event) : Prop :=
  exists t p r, e = EvExecute t p (Text r).

Definition pendingb (t : SubTask) : bool := status_eqb (status t) PENDING.

(** The measure that every continuing round decreases. *)
Definition pending_count (ts : Tasks) : nat := length (filter pendingb ts).

(** ** The dependency graph *)

(** [a] depends on [b]: the task under key [a] lists [b], and [b] is a key
    of the dict (the dependency relation over existing ids). *)
Definition depends_on (ts : Tasks) (a b : string) : Prop :=
  exists t, tasks_get ts a = Some t /\ In b (dependencies t) /\ In b (ids ts).

Definition acyclic (ts : Tasks) : Prop :=
  forall k, ~ clos_trans string (depends_on ts) k k.

Definition has_cycle (ts : Tasks) : Prop :=
  exists k, clos_trans string (depends_on ts) k k.

(** No dependency id is absent from the dict. *)
Definition no_dangling (ts : Tasks) : Prop :=
  forall t d, In t ts -> In d (dependencies t) -> In d (ids ts).

(** A path [k -> x1 -> x2 -> ...] along [R]. *)
Fixpoint chain (R : string -> string -> Prop) (k : string) (l : list string) : Prop :=
  match l with
  | [] => True
  | d :: l' => R k d /\ chain R d l'
  end.

(** Every task that lies on a cycle of [ts0] is PENDING in [ts]. *)
Definition cycles_pending (ts0 ts : Tasks) : Prop :=
  forall k t, clos_trans string (depends_on ts0) k k ->
              tasks_get ts k = Some t -> status t = PENDING.

(** ** Logged calls, planned subtasks, dependency results *)

(** A logged call made for a worker, whatever it answered. *)
Definition worker_call (e : Event) : Prop :=
  exists t p reply, e = EvExecute t p reply.

(** The last element of the plan whose id is [k]. *)
Fixpoint last_spec (k : string) (plan : list TaskSpec) : option TaskSpec :=
  match plan with
  | [] => None
  | j :: rest =>
      match last_spec k rest with
      | Some j' => Some j'
      | None => if String.eqb (spec_id j) k then Some j else None
      end
  end.

(** The result stored for dependency [d]; empty when there is none. *)
Definition stored (ts : Tasks) (d : string) : string :=
  match tasks_get ts d with
  | Some dt => match result dt with Some r => r | None => "" end
  | None => ""
  end.

(** The line of dependency [d], and whether [d] has a non-empty result. *)
Definition entry (ts : Tasks) (d : string) : string := d ++ ": " ++ stored ts d.

Definition has_text (ts : Tasks) (d : string) : bool :=
  negb (String.eqb (stored ts d) "").

(** The view as the specification words it: one entry for every id of the
    dependencies list, mapped to the stored result. *)
Definition spec_view (ts : Tasks) (deps : list string) : list string :=
  map (entry ts) deps.

(** The text that a worker is to be given for a task with the description
    [d] when [lines] are the lines of its dependency results: the description
    under its heading, then the lines, one per line, under theirs. *)
Definition worker_prompt (d : string) (lines : list string) : string :=
  nl ++ ind 8 ++ "Execute the following task:" ++
  nl ++ ind 8 ++ d ++
  nl ++ ind 8 ++
  nl ++ ind 8 ++ "If this task depends on other tasks, here are their results:" ++
  nl ++ ind 8 ++ String.concat nl lines ++
  nl ++ ind 8.

(** ** Counting *)

Definition in_progress_count (ts : Tasks) : nat :=
  length (filter (fun t => status_eqb (status t) IN_PROGRESS) ts).

Definition pending_ids (ts : Tasks) : list string :=
  map id (filter pendingb ts).

(** The three planned fields of a subtask. *)
Definition spec_of (t : SubTask) : TaskSpec :=
  mkTaskSpec (id t) (description t) (dependencies t).

(** ** The log of a run *)

(** The ids of the tasks that the logged worker calls were made for, in the
    order of the log. *)
Definition called_ids (log : list Event) : list string :=
  flat_map (fun e => match e with EvExecute t _ _ => [id t] | _ => [] end) log.

(** The log holds a worker call for the id [d] that returned text. *)
Definition answered_in (log : list Event) (d : string) : Prop :=
  exists t p r, In (EvExecute t p (Text r)) log /\ id t = d.

(** What is asked of a worker call given the calls logged before it: a call
    that returned text for every dependency of its task. *)
Definition deps_answered (older : list Event) (e : Event) : Prop :=
  match e with
  | EvExecute t _ _ => forall d, In d (dependencies t) -> answered_in older d
  | _ => True
  end.

(** In a log, newest call first: every worker call has its dependencies
    answered by the calls before it. *)
Fixpoint deps_first (log : list Event) : Prop :=
  match log with
  | [] => True
  | e :: older => deps_answered older e /\ deps_first older
  end.

(** * Concrete runs *)

(** Three stand-ins for the language model: one that always answers, one
    that always answers the empty string, one that always raises.  The state
    counts the calls. *)
Definition ok_llm (st : nat) (prompt : string) : nat * Reply := (S st, Text "ok").
Definition silent_llm (st : nat) (prompt : string) : nat * Reply := (S st, Text "").
Definition failing_llm (st : nat) (prompt : string) : nat * Reply := (S st, Raises "boom").

(** A stand-in for [json.dumps]: one line per entry. *)
Definition plain_dumps (rs : Results) : string :=
  String.concat nl (map (fun kv => fst kv ++ ": " ++ snd kv) rs).

Definition spec (i : string) (deps : list string) : TaskSpec :=
  mkTaskSpec i ("do " ++ i) deps.

Definition run (llm_call : nat -> string -> nat * Reply) (plan : list TaskSpec)
  : Agent nat * Outcome :=
  execute_plan llm_call plain_dumps (new_agent 0) (map SubTask_of_spec plan).

Definition statuses (ts : Tasks) : list (string * TaskStatus * option string) :=
  map (fun t => (id t, status t, result t)) ts.

(** The scenarios of the specification. *)
Definition diamond : list TaskSpec := [spec "A" []; spec "B" []; spec "C" ["A"; "B"]].
Definition two_cycle : list TaskSpec := [spec "A" ["B"]; spec "B" ["A"]].
Definition chain2 : list TaskSpec := [spec "A" []; spec "B" ["A"]].
Definition ten : list TaskSpec :=
  map (fun i => spec i []) ["T0"; "T1"; "T2"; "T3"; "T4"; "T5"; "T6"; "T7"; "T8"; "T9"].
Definition ghost : list TaskSpec := [spec "A" ["ghost"]].
Definition late_ghost : list TaskSpec := [spec "A" []; spec "B" ["A"; "ghost"]].
Definition self_loop : list TaskSpec := [spec "A" []; spec "B" ["B"]].
Definition pair : list TaskSpec := [spec "A" []; spec "B" []].
Definition twice : list TaskSpec :=
  [mkTaskSpec "A" "first" []; mkTaskSpec "A" "second" []].

(** A task without dependencies beside a task that lists an absent id. *)
Definition beside_ghost : list TaskSpec := [spec "A" []; spec "B" ["ghost"]].

(** The largest number of tasks IN_PROGRESS in one recorded task dict. *)
Definition max_in_progress (h : list Tasks) : nat :=
  fold_right Nat.max 0 (map in_progress_count h).

(** The task dict of the second round of [chain2] under [silent_llm]. *)
Definition A_silent : SubTask := mkSubTask "A" "do A" [] COMPLETED (Some "").
Definition B_waiting : SubTask := mkSubTask "B" "do B" ["A"] PENDING None.

(** A stand-in for the language model that answers its first call and
    raises from the second call on. *)
Definition flaky_llm (st : nat) (prompt : string) : nat * Reply :=
  (S st, match st with 0 => Text "ok" | _ => Raises "boom" end).

(** A stand-in for the parser of the planning response: the plan is [plan]
    whatever the response. *)
Definition plan_of (plan : list TaskSpec) (response : string)
  : PyException + list TaskSpec := inr plan.

(** [repr] of a string that holds neither a quote nor a backslash. *)
Definition quoted (s : string) : string := "'" ++ s ++ "'".

(** The agent that the failed run of [chain2] leaves: A is FAILED, B is
    PENDING. *)
Definition after_failure : Agent nat := fst (run failing_llm chain2).

(** A stand-in for the model service: it counts the requests and answers
    every one of them. *)
Definition echo_service (c : nat) (model : string) (max_tokens : nat) (content : string)
  : nat * Reply := (S c, Text "ok").

(** * Properties *)

Section RunProperties.

Variable LLM : Type.
Variable llm_call : LLM -> string -> LLM * Reply.
Variable json_dumps : Results -> string.

Let Agent := Agent LLM.

(** ** Properties that depend on the language model *)

(** The recorded history is lawful and its newest entry is the current
    task dict. *)
Definition well_hist (a : Agent) : Prop :=
  lawful (history a) /\ hd_error (history a) = Some (tasks a).

(** Every outcome of the batch is what [llm_call] answered, in some state of
    the client, to the prompt of that task. *)
Definition answered (ts : Tasks) (t : SubTask) (o : PyException + string) : Prop :=
  exists st st' reply,
    llm_call st (execution_prompt ts t) = (st', reply) /\ o = outcome_of t reply.

(** The ways an iteration ends [execute_task]. *)
Inductive stop_case (a : Agent) (results : Results) (af : Agent) (out : Outcome) : Prop :=
| stop_done :
    all_done (tasks a) = true ->
    synthesize_results llm_call json_dumps a results = (af, out) ->
    stop_case a results af out
| stop_key_error e :
    all_done (tasks a) = false -> ready_tasks (tasks a) = inl e ->
    af = a -> out = Raised e ->
    stop_case a results af out
| stop_failed_seen :
    all_done (tasks a) = false -> ready_tasks (tasks a) = inr [] ->
    any_status FAILED (tasks a) = true ->
    af = a -> out = Raised (Exception "Task execution failed") ->
    stop_case a results af out
| stop_cycle :
    all_done (tasks a) = false -> ready_tasks (tasks a) = inr [] ->
    any_status FAILED (tasks a) = false -> any_status PENDING (tasks a) = true ->
    af = a -> out = Raised (Exception "Dependency cycle detected") ->
    stop_case a results af out
| stop_idle :
    all_done (tasks a) = false -> ready_tasks (tasks a) = inr [] ->
    any_status FAILED (tasks a) = false -> any_status PENDING (tasks a) = false ->
    synthesize_results llm_call json_dumps a results = (af, out) ->
    stop_case a results af out
| stop_batch ready replies e :
    all_done (tasks a) = false -> ready_tasks (tasks a) = inr ready -> ready <> [] ->
    length replies = length ready ->
    gathered (map (fun p => outcome_of (fst p) (snd p)) (zip ready replies)) = inl e ->
    out = Raised e ->
    tasks af =
      map (fun t => upd_if (fun k => mem k (failed_ids ready
                       (map (fun p => outcome_of (fst p) (snd p)) (zip ready replies))))
                      (with_status FAILED)
                      (upd_if (fun k => mem k (ids ready)) (with_status IN_PROGRESS) t))
          (tasks a) ->
    events af =
      (rev (map (fun p => EvExecute (fst p) (execution_prompt (tasks a) (fst p)) (snd p))
                (zip ready replies)) ++ events a)%list ->
    incl (history a) (history af) -> well_hist af ->
    Forall2 (answered (tasks a)) ready
            (map (fun p => outcome_of (fst p) (snd p)) (zip ready replies)) ->
    stop_case a results af out.

(** [e] is a worker call for a task [t] of the registered dict [ts0], made
    in a round that began in the recorded dict [snap], where [t] was ready;
    its prompt is the one built from [snap]. *)
Definition dispatched (ts0 : Tasks) (h : list Tasks) (e : Event) : Prop :=
  exists snap t reply,
    In snap h /\ In t snap /\ In t ts0 /\ is_ready snap t = inr true /\
    e = EvExecute t (execution_prompt snap t) reply /\
    (forall u, In u snap -> status u = COMPLETED -> exists r, result u = Some r) /\
    exists st st', llm_call st (execution_prompt snap t) = (st', reply).

(** The invariant at the head of the loop, for a run that registered [ts0]
    on an agent whose log was [evs0]. *)
Record Base (ts0 : Tasks) (evs0 : list Event) (a : Agent) (results : Results) : Prop := {
  base_nodup : NoDup (ids (tasks a));
  base_settled : forall t, In t (tasks a) -> settled results t;
  base_results : forall k, In k (map fst results) ->
      exists t, tasks_get (tasks a) k = Some t /\ status t = COMPLETED;
  base_closed : forall t, In t (tasks a) -> status t = COMPLETED ->
      deps_completed (tasks a) (dependencies t);
  base_hist : well_hist a;
  base_static : map static (tasks a) = map static ts0;
  base_events : exists new,
      events a = (new ++ evs0)%list /\
      (forall e, In e new -> dispatched ts0 (history a) e /\ succeeded e) /\
      (forall t r, In t (tasks a) -> result t = Some r ->
         exists t0 p, In (EvExecute t0 p (Text r)) new /\ id t0 = id t)
}.

(** The executor succeeds on every task: whatever the state of the client,
    the call on a worker prompt returns text. *)
Definition executor_succeeds : Prop :=
  forall st ts t, exists st' r, llm_call st (execution_prompt ts t) = (st', Text r).

(** What the log of worker calls and the task dict have to do with each
    other at the head of the loop: no id was called twice, every called id
    is COMPLETED, and the calls came after those of their dependencies. *)
Definition Logged (evs0 : list Event) (a : Agent) : Prop :=
  exists new,
    events a = (new ++ evs0)%list /\
    NoDup (called_ids new) /\
    (forall k, In k (called_ids new) ->
       exists u, tasks_get (tasks a) k = Some u /\ status u = COMPLETED) /\
    deps_first new.

(** The prompt of a logged call, and what the model answered. *)
Definition event_prompt (e : Event) : string :=
  match e with
  | EvPlan p _ => p
  | EvExecute _ p _ => p
  | EvSynthesize results _ => synthesis_prompt (json_dumps results)
  end.

Definition event_reply (e : Event) : Reply :=
  match e with
  | EvPlan _ r => r
  | EvExecute _ _ r => r
  | EvSynthesize _ r => r
  end.

(** The client goes from state [st] to state [st'] by making the calls of
    [log], oldest first, one after the other, and answers as logged. *)
Fixpoint replays (st : LLM) (log : list Event) (st' : LLM) : Prop :=
  match log with
  | [] => st' = st
  | e :: log' =>
      exists st1, llm_call st (event_prompt e) = (st1, event_reply e) /\
                  replays st1 log' st'
  end.

(** From [a] to [af] the model was called as [new] says (newest first), and
    not otherwise. *)
Definition traced (a af : Agent) (new : list Event) : Prop :=
  events af = (new ++ events a)%list /\ replays (llm a) (rev new) (llm af).

(** The calls of one pass through the loop: worker calls, or the one
    synthesis call on the way out. *)
Definition pass_log (new : list Event) : Prop :=
  (forall e, In e new -> worker_call e) \/ exists results reply, new = [EvSynthesize results reply].

(** The calls of the loop: worker calls, then at most the synthesis call. *)
Definition loop_log (new : list Event) : Prop :=
  exists workers,
    (new = workers \/ exists results reply, new = EvSynthesize results reply :: workers) /\
    forall e, In e workers -> worker_call e.

(** What every agent satisfies that [execute_task] has left, whatever its
    run: the dict is keyed by the ids, the history is lawful, and a PENDING
    task stores no result. *)
Definition Sound (a : Agent) : Prop :=
  NoDup (ids (tasks a)) /\ well_hist a /\
  forall u, In u (tasks a) -> status u = PENDING -> result u = None.

(** The exchanges that the calls of [log] (oldest first) leave in the
    memory of an [AugmentedLLM]: one per call that returned. *)
Definition exchanges (log : list Event) : list AugmentedLLM.Exchange :=
  flat_map (fun e => match event_reply e with
                     | Text s => [AugmentedLLM.mkExchange (event_prompt e) s]
                     | Raises _ => []
                     end) log.

(** ** The dict operations *)

Lemma status_eqb_eq (a b : TaskStatus) : status_eqb a b = true <-> a = b.
Proof. destruct a, b; simpl; split; intro H; try reflexivity; discriminate H. Qed.

Lemma status_eqb_refl (a : TaskStatus) : status_eqb a a = true.
Proof. now apply status_eqb_eq. Qed.

Lemma tasks_get_In (ts : Tasks) (k : string) (t : SubTask) :
  tasks_get ts k = Some t -> In t ts /\ id t = k.
Proof.
  induction ts as [|u ts IH]; simpl; [discriminate|].
  destruct (String.eqb_spec (id u) k) as [E|N].
  - intros [= <-]. auto.
  - intros H. destruct (IH H). auto.
Qed.

Lemma tasks_get_None (ts : Tasks) (k : string) :
  tasks_get ts k = None <-> ~ In k (ids ts).
Proof.
  induction ts as [|u ts IH]; simpl.
  - tauto.
  - destruct (String.eqb_spec (id u) k) as [E|N].
    + split; [discriminate|]. intros H. exfalso. auto.
    + rewrite IH. tauto.
Qed.

Lemma tasks_get_Some_ids (ts : Tasks) (k : string) (t : SubTask) :
  tasks_get ts k = Some t -> In k (ids ts).
Proof.
  intros H. destruct (tasks_get_In _ _ _ H) as [Hin <-]. now apply in_map.
Qed.

Lemma In_tasks_get (ts : Tasks) (t : SubTask) :
  NoDup (ids ts) -> In t ts -> tasks_get ts (id t) = Some t.
Proof.
  induction ts as [|u ts IH]; simpl; [tauto|].
  intros ND [<-|Hin].
  - now rewrite String.eqb_refl.
  - inversion ND as [|? ? Hnotin ND']; subst.
    destruct (String.eqb_spec (id u) (id t)) as [E|N].
    + exfalso. apply Hnotin. rewrite E. now apply in_map.
    + now apply IH.
Qed.

Lemma ids_update (ts : Tasks) (k : string) (f : SubTask -> SubTask) :
  (forall t, id (f t) = id t) -> ids (tasks_update ts k f) = ids ts.
Proof.
  intros Hf. induction ts as [|u ts IH]; simpl; [reflexivity|].
  destruct (String.eqb (id u) k); simpl; [now rewrite Hf | now rewrite IH].
Qed.

Lemma tasks_get_update (ts : Tasks) (k k' : string) (f : SubTask -> SubTask) :
  (forall t, id (f t) = id t) ->
  tasks_get (tasks_update ts k f) k' =
  if String.eqb k k' then option_map f (tasks_get ts k) else tasks_get ts k'.
Proof.
  intros Hf. induction ts as [|u ts IH]; simpl.
  - now destruct (String.eqb k k').
  - destruct (String.eqb_spec (id u) k) as [E|N]; simpl.
    + rewrite Hf. destruct (String.eqb_spec k k') as [E'|N'].
      * subst. now rewrite String.eqb_refl.
      * subst. destruct (String.eqb_spec (id u) k'); [contradiction|reflexivity].
    + rewrite IH. destruct (String.eqb_spec k k') as [E'|N'].
      * subst. destruct (String.eqb_spec (id u) k'); [contradiction|reflexivity].
      * reflexivity.
Qed.

Lemma id_with_status (s : TaskStatus) (t : SubTask) : id (with_status s t) = id t.
Proof. reflexivity. Qed.

Lemma id_completed (r : string) (t : SubTask) :
  id (with_result r (with_status COMPLETED t)) = id t.
Proof. reflexivity. Qed.

Lemma ids_tasks_set (ts : Tasks) (t : SubTask) :
  ids (tasks_set ts t) = if in_dec string_dec (id t) (ids ts) then ids ts else (ids ts ++ [id t])%list.
Proof.
  induction ts as [|u ts IH]; simpl; [reflexivity|].
  destruct (String.eqb_spec (id u) (id t)) as [E|N]; simpl.
  - destruct (string_dec (id u) (id t)); [|contradiction].
    now rewrite E.
  - rewrite IH. destruct (string_dec (id u) (id t)); [contradiction|].
    destruct (in_dec string_dec (id t) (ids ts)); reflexivity.
Qed.

Lemma NoDup_tasks_set (ts : Tasks) (t : SubTask) :
  NoDup (ids ts) -> NoDup (ids (tasks_set ts t)).
Proof.
  intros ND. rewrite ids_tasks_set.
  destruct (in_dec string_dec (id t) (ids ts)) as [i|n]; [assumption|].
  apply NoDup_app; [assumption | constructor; [simpl; tauto | constructor] |].
  intros x Hx [<-|[]]. contradiction.
Qed.

Lemma tasks_get_set (ts : Tasks) (t : SubTask) (k : string) :
  tasks_get (tasks_set ts t) k =
  if String.eqb (id t) k then Some t else tasks_get ts k.
Proof.
  induction ts as [|u ts IH]; simpl.
  - reflexivity.
  - destruct (String.eqb_spec (id u) (id t)) as [E|N]; simpl.
    + rewrite E. now destruct (String.eqb (id t) k).
    + rewrite IH. destruct (String.eqb_spec (id u) k) as [E'|N'];
        destruct (String.eqb_spec (id t) k) as [E2|N2]; try reflexivity.
      congruence.
Qed.

Lemma NoDup_register (subtasks : list SubTask) (ts : Tasks) :
  NoDup (ids ts) -> NoDup (ids (register ts subtasks)).
Proof.
  revert ts. induction subtasks as [|t rest IH]; simpl; intros ts ND; [assumption|].
  apply IH. now apply NoDup_tasks_set.
Qed.

(** ** The readiness rule *)

Lemma all_completed_true (ts : Tasks) (deps : list string) :
  all_completed ts deps = inr true <-> deps_completed ts deps.
Proof.
  unfold deps_completed. induction deps as [|d deps IH]; simpl.
  - split; [intros _ d []|reflexivity].
  - destruct (tasks_get ts d) as [dt|] eqn:G.
    + destruct (status_eqb (status dt) COMPLETED) eqn:S.
      * apply status_eqb_eq in S. rewrite IH. split.
        -- intros H x [<-|Hx]; [eauto|auto].
        -- intros H x Hx. auto.
      * split; [discriminate|]. intros H.
        destruct (H d (or_introl eq_refl)) as (dt' & G' & S').
        rewrite G in G'. injection G' as <-.
        apply status_eqb_eq in S'. congruence.
    + split; [discriminate|]. intros H.
      destruct (H d (or_introl eq_refl)) as (dt' & G' & _). congruence.
Qed.

Lemma is_ready_true (ts : Tasks) (task : SubTask) :
  is_ready ts task = inr true <->
  status task = PENDING /\ deps_completed ts (dependencies task).
Proof.
  unfold is_ready. destruct (status_eqb (status task) PENDING) eqn:S.
  - apply status_eqb_eq in S. rewrite all_completed_true. tauto.
  - split; [discriminate|]. intros [H _]. apply status_eqb_eq in H. congruence.
Qed.

Lemma ready_among_In (ts : Tasks) (l ready : list SubTask) (task : SubTask) :
  ready_among ts l = inr ready ->
  (In task ready <-> In task l /\ is_ready ts task = inr true).
Proof.
  revert ready. induction l as [|u l IH]; simpl; intros ready H.
  - injection H as <-. simpl. tauto.
  - destruct (is_ready ts u) as [e|b] eqn:R; [discriminate|].
    destruct (ready_among ts l) as [e|r] eqn:A; [discriminate|].
    injection H as <-. specialize (IH r eq_refl).
    destruct b; simpl; rewrite IH; split.
    + intros [<-|[H1 H2]]; auto.
    + intros [[<-|H1] H2]; auto.
    + intros [H1 H2]; auto.
    + intros [[<-|H1] H2]; [congruence|auto].
Qed.

(** ** Closed forms of the loops over the task dict *)

Lemma mem_In (k : string) (l : list string) : mem k l = true <-> In k l.
Proof.
  unfold mem. rewrite existsb_exists. split.
  - intros (x & Hx & E). apply String.eqb_eq in E. now subst.
  - intros H. exists k. split; [assumption|apply String.eqb_refl].
Qed.

Lemma mem_false (k : string) (l : list string) : mem k l = false <-> ~ In k l.
Proof.
  rewrite <- mem_In. destruct (mem k l); split; congruence.
Qed.

Lemma ids_map (g : SubTask -> SubTask) (ts : Tasks) :
  (forall t, id (g t) = id t) -> ids (map g ts) = ids ts.
Proof.
  intros Hg. unfold ids. rewrite map_map. apply map_ext. exact Hg.
Qed.

Lemma id_upd_if p f t : (forall t, id (f t) = id t) -> id (upd_if p f t) = id t.
Proof. intros Hf. unfold upd_if. destruct (p (id t)); auto. Qed.

Lemma tasks_get_map (g : SubTask -> SubTask) (ts : Tasks) (k : string) :
  (forall t, id (g t) = id t) ->
  tasks_get (map g ts) k = option_map g (tasks_get ts k).
Proof.
  intros Hg. induction ts as [|u ts IH]; simpl; [reflexivity|].
  rewrite Hg. destruct (String.eqb (id u) k); [reflexivity|assumption].
Qed.

Lemma map_self (g : SubTask -> SubTask) (ts : Tasks) :
  (forall t, g t = t) -> map g ts = ts.
Proof.
  intros Hg. induction ts as [|u ts IH]; simpl; [reflexivity|].
  now rewrite Hg, IH.
Qed.

Lemma tasks_update_map (ts : Tasks) (k : string) (f : SubTask -> SubTask) :
  NoDup (ids ts) ->
  tasks_update ts k f = map (upd_if (String.eqb k) f) ts.
Proof.
  induction ts as [|u ts IH]; simpl; intros ND; [reflexivity|].
  inversion ND as [|? ? Hnotin ND']; subst. unfold upd_if at 1.
  rewrite (String.eqb_sym k (id u)).
  destruct (String.eqb_spec (id u) k) as [E|N].
  - f_equal. subst k. clear IH ND ND'.
    induction ts as [|v ts IH]; simpl; [reflexivity|].
    simpl in Hnotin. unfold upd_if at 1.
    destruct (String.eqb_spec (id u) (id v)) as [E|N]; [exfalso; auto|].
    f_equal. apply IH. tauto.
  - f_equal. now apply IH.
Qed.

(** [call] leaves the task dict and its history alone. *)
Lemma call_spec (a a1 : Agent) (prompt : string) (ev : Reply -> Event) (reply : Reply) :
  call llm_call a prompt ev = (a1, reply) ->
  tasks a1 = tasks a /\ history a1 = history a /\ events a1 = ev reply :: events a.
Proof.
  unfold call. destruct (llm_call (llm a) prompt) as [st r].
  intros [= <- <-]. simpl. auto.
Qed.

(** The marking loop. *)
Lemma tasks_mark_in_progress (ready : list SubTask) (a : Agent) :
  NoDup (ids (tasks a)) ->
  tasks (mark_in_progress a ready) =
  map (upd_if (fun k => mem k (ids ready)) (with_status IN_PROGRESS)) (tasks a).
Proof.
  revert a. induction ready as [|t ready IH]; simpl; intros a ND.
  - symmetry. now apply map_self.
  - rewrite IH; simpl.
    + rewrite tasks_update_map by assumption. rewrite map_map.
      apply map_ext. intros u. unfold upd_if. simpl.
      rewrite (String.eqb_sym (id u) (id t)).
      destruct (String.eqb (id t) (id u)); simpl.
      * now destruct (mem (id u) (ids ready)).
      * reflexivity.
    + rewrite ids_update; [assumption|reflexivity].
Qed.

Lemma events_mark_in_progress (ready : list SubTask) (a : Agent) :
  events (mark_in_progress a ready) = events a /\
  llm (mark_in_progress a ready) = llm a.
Proof.
  revert a. induction ready as [|t ready IH]; simpl; intros a; [auto|].
  destruct (IH (commit a (tasks_update (tasks a) (id t) (with_status IN_PROGRESS)))).
  auto.
Qed.

Lemma failed_ids_incl (ready : list SubTask) (os : list (PyException + string)) :
  incl (failed_ids ready os) (ids ready).
Proof.
  revert os. induction ready as [|t ready IH]; intros [|[e|r] os]; simpl;
    intros x Hx; try contradiction.
  - destruct Hx as [<-|Hx]; [now left|right; now apply (IH os)].
  - right. now apply (IH os).
Qed.

Lemma gathered_ok_no_failed (ready : list SubTask) (os : list (PyException + string))
      (rs : list string) :
  gathered os = inr rs -> failed_ids ready os = [] /\ length rs = length os.
Proof.
  revert ready rs. induction os as [|[e|r] os IH]; simpl; intros ready rs H.
  - injection H as <-. now destruct ready.
  - discriminate.
  - destruct (gathered os) as [e|rs'] eqn:G; [discriminate|].
    injection H as <-. destruct ready as [|t ready]; simpl.
    + split; [reflexivity|]. f_equal. now apply (IH []).
    + destruct (IH ready rs' eq_refl). split; [assumption|]. simpl. now f_equal.
Qed.

(** The coroutines. *)
Lemma run_coroutines_tasks (ready : list SubTask) (a a2 : Agent)
      (os : list (PyException + string)) :
  NoDup (ids (tasks a)) ->
  run_coroutines llm_call a ready = (a2, os) ->
  length os = length ready /\
  tasks a2 = map (upd_if (fun k => mem k (failed_ids ready os)) (with_status FAILED)) (tasks a).
Proof.
  revert a a2 os. induction ready as [|t ready IH]; simpl; intros a a2 os ND H.
  - injection H as <- <-. split; [reflexivity|].
    symmetry. now apply map_self.
  - unfold execute_subtask in H.
    destruct (call llm_call a _ _) as [a1 reply] eqn:C.
    apply call_spec in C. destruct C as (Ct & Ch & Ce).
    destruct reply as [r|msg].
    + destruct (run_coroutines llm_call a1 ready) as [a2' os'] eqn:R.
      injection H as <- <-.
      apply IH in R; [|now rewrite Ct]. destruct R as [L T].
      simpl. split; [now f_equal|]. now rewrite T, Ct.
    + destruct (run_coroutines llm_call _ ready) as [a2' os'] eqn:R.
      injection H as <- <-.
      apply IH in R; simpl.
      * simpl in R. destruct R as [L T]. split; [now f_equal|].
        rewrite T, Ct, tasks_update_map by assumption. rewrite map_map.
        apply map_ext. intros u. unfold upd_if. simpl.
        rewrite (String.eqb_sym (id u) (id t)).
        destruct (String.eqb (id t) (id u)); simpl.
        -- now destruct (mem (id u) (failed_ids ready os')).
        -- reflexivity.
      * rewrite Ct, ids_update; [assumption|reflexivity].
Qed.

Lemma assoc_result_None (k : string) (pairs : list (SubTask * string)) :
  assoc_result k pairs = None <-> ~ In k (pair_ids pairs).
Proof.
  induction pairs as [|[t r] rest IH]; simpl; [tauto|].
  destruct (String.eqb_spec (id t) k) as [E|N].
  - split; [discriminate|]. intros H. exfalso. auto.
  - rewrite IH. tauto.
Qed.

Lemma pair_ids_zip (ready : list SubTask) (rs : list string) :
  length rs = length ready -> pair_ids (zip ready rs) = ids ready.
Proof.
  revert rs. induction ready as [|t ready IH]; intros [|r rs]; simpl;
    try discriminate; try reflexivity.
  intros [= L]. f_equal. now apply IH.
Qed.

(** The storing loop. *)
Lemma store_results_tasks (pairs : list (SubTask * string)) (a a3 : Agent)
      (results results' : Results) :
  NoDup (ids (tasks a)) -> NoDup (pair_ids pairs) ->
  store_results a pairs results = (a3, results') ->
  tasks a3 = map (complete_with pairs) (tasks a) /\
  events a3 = events a /\ llm a3 = llm a.
Proof.
  revert a results. induction pairs as [|[t r] rest IH]; simpl; intros a results ND NP H.
  - injection H as <- <-. split; [|auto]. symmetry. now apply map_self.
  - inversion NP as [|? ? Hnotin NP']; subst.
    apply IH in H; simpl; [|rewrite ids_update; [assumption|reflexivity]|assumption].
    simpl in H. destruct H as (T & E & L). split; [|auto].
    rewrite T, tasks_update_map by assumption. rewrite map_map.
    apply map_ext. intros u. unfold upd_if, complete_with. simpl.
    destruct (String.eqb_spec (id t) (id u)) as [E'|N']; simpl; [|reflexivity].
    rewrite <- E'. apply assoc_result_None in Hnotin. now rewrite Hnotin.
Qed.

Lemma results_get_set (rs : Results) (k v k' : string) :
  results_get (results_set rs k v) k' =
  if String.eqb k k' then Some v else results_get rs k'.
Proof.
  induction rs as [|[k0 v0] rs IH]; simpl.
  - reflexivity.
  - destruct (String.eqb_spec k0 k) as [E|N]; simpl.
    + subst. now destruct (String.eqb k k').
    + rewrite IH. destruct (String.eqb_spec k0 k') as [E'|N'];
        destruct (String.eqb_spec k k') as [E2|N2]; try reflexivity.
      congruence.
Qed.

Lemma results_get_None (rs : Results) (k : string) :
  results_get rs k = None <-> ~ In k (map fst rs).
Proof.
  induction rs as [|[k0 v0] rs IH]; simpl; [tauto|].
  destruct (String.eqb_spec k0 k) as [E|N].
  - split; [discriminate|]. intros H. exfalso. auto.
  - rewrite IH. tauto.
Qed.

Lemma store_results_results (pairs : list (SubTask * string)) (a a3 : Agent)
      (results results' : Results) :
  NoDup (pair_ids pairs) ->
  store_results a pairs results = (a3, results') ->
  forall k, results_get results' k =
            match assoc_result k pairs with
            | Some r => Some r
            | None => results_get results k
            end.
Proof.
  revert a results. induction pairs as [|[t r] rest IH]; simpl; intros a results NP H k.
  - now injection H as <- <-.
  - inversion NP as [|? ? Hnotin NP']; subst.
    rewrite (IH _ _ NP' H k), results_get_set.
    destruct (String.eqb_spec (id t) k) as [E|N]; [|reflexivity].
    subst k. apply assoc_result_None in Hnotin. now rewrite Hnotin.
Qed.

(** ** Legal moves of a task and lawful histories (C9) *)

Lemma legal_move_refl (t : SubTask) : legal_move t t.
Proof. unfold legal_move. tauto. Qed.

Lemma legal_step_map (g : SubTask -> SubTask) (ts : Tasks) :
  (forall t, In t ts -> legal_move t (g t)) -> legal_step ts (map g ts).
Proof.
  unfold legal_step. induction ts as [|u ts IH]; simpl; intros H; constructor.
  - apply H. now left.
  - apply IH. intros t Ht. apply H. now right.
Qed.

Lemma well_hist_commit (a : Agent) (ts' : Tasks) :
  well_hist a -> legal_step (tasks a) ts' -> well_hist (commit a ts').
Proof.
  intros [L H] S. unfold well_hist, commit. simpl. split; [|reflexivity].
  destruct (history a) as [|ts h]; [discriminate|].
  injection H as ->. now constructor.
Qed.

(** One field assignment on the task under key [k]. *)
Lemma well_hist_update (a : Agent) (k : string) (f : SubTask -> SubTask) :
  NoDup (ids (tasks a)) -> well_hist a ->
  (forall u, In u (tasks a) -> id u = k -> legal_move u (f u)) ->
  well_hist (commit a (tasks_update (tasks a) k f)).
Proof.
  intros ND W H. apply well_hist_commit; [assumption|].
  rewrite tasks_update_map by assumption. apply legal_step_map.
  intros t Ht. unfold upd_if. destruct (String.eqb_spec k (id t)) as [E|N].
  - now apply H.
  - apply legal_move_refl.
Qed.

Lemma In_ids (ts : Tasks) (t : SubTask) : In t ts -> In (id t) (ids ts).
Proof. apply in_map. Qed.

Lemma well_hist_mark (ready : list SubTask) (a : Agent) :
  NoDup (ids (tasks a)) -> NoDup (ids ready) ->
  (forall u, In u (tasks a) -> In (id u) (ids ready) -> status u = PENDING) ->
  well_hist a -> well_hist (mark_in_progress a ready).
Proof.
  revert a. induction ready as [|t ready IH]; simpl; intros a ND NR P W; [assumption|].
  inversion NR as [|? ? Hnotin NR']; subst.
  apply IH; simpl.
  - rewrite ids_update; [assumption|reflexivity].
  - assumption.
  - rewrite tasks_update_map by assumption.
    intros u Hu Hin. apply in_map_iff in Hu. destruct Hu as (u0 & <- & Hu0).
    unfold upd_if in *. destruct (String.eqb_spec (id t) (id u0)) as [E|N].
    + simpl in Hin. rewrite <- E in Hin. contradiction.
    + apply P; auto.
  - apply well_hist_update; [assumption|assumption|].
    intros u Hu E. unfold legal_move. simpl. repeat split.
    right. left. split; [|auto]. apply P; auto.
Qed.

Lemma well_hist_call (a a1 : Agent) (prompt : string) (ev : Reply -> Event) (reply : Reply) :
  call llm_call a prompt ev = (a1, reply) -> well_hist a -> well_hist a1.
Proof.
  intros C W. apply call_spec in C. destruct C as (Ct & Ch & _).
  unfold well_hist. now rewrite Ct, Ch.
Qed.

Lemma well_hist_coroutines (ready : list SubTask) (a a2 : Agent)
      (os : list (PyException + string)) :
  NoDup (ids (tasks a)) -> NoDup (ids ready) ->
  (forall u, In u (tasks a) -> In (id u) (ids ready) -> status u = IN_PROGRESS) ->
  well_hist a -> run_coroutines llm_call a ready = (a2, os) -> well_hist a2.
Proof.
  revert a a2 os. induction ready as [|t ready IH]; simpl; intros a a2 os ND NR P W H.
  - now injection H as <- <-.
  - inversion NR as [|? ? Hnotin NR']; subst.
    unfold execute_subtask in H.
    destruct (call llm_call a _ _) as [a1 reply] eqn:C.
    pose proof (well_hist_call _ _ _ _ _ C W) as W1.
    apply call_spec in C. destruct C as (Ct & Ch & Ce).
    destruct reply as [r|msg].
    + destruct (run_coroutines llm_call a1 ready) as [a2' os'] eqn:R.
      injection H as <- <-.
      apply (IH a1 a2' os'); try assumption; rewrite Ct; auto.
    + destruct (run_coroutines llm_call _ ready) as [a2' os'] eqn:R.
      injection H as <- <-.
      apply (IH _ a2' os') in R; try assumption; simpl.
      * rewrite Ct, ids_update; [assumption|reflexivity].
      * rewrite Ct, tasks_update_map by assumption.
        intros u Hu Hin. apply in_map_iff in Hu. destruct Hu as (u0 & <- & Hu0).
        unfold upd_if in *. destruct (String.eqb_spec (id t) (id u0)) as [E|N].
        -- simpl in Hin. rewrite <- E in Hin. contradiction.
        -- apply P; auto.
      * apply well_hist_update; [now rewrite Ct|assumption|].
        rewrite Ct. intros u Hu E. unfold legal_move. simpl. repeat split.
        right. right. left. split; [|auto]. apply P; auto.
Qed.

Lemma well_hist_store (pairs : list (SubTask * string)) (a a3 : Agent)
      (results results' : Results) :
  NoDup (ids (tasks a)) -> NoDup (pair_ids pairs) ->
  (forall u, In u (tasks a) -> In (id u) (pair_ids pairs) ->
             status u = IN_PROGRESS /\ result u = None) ->
  well_hist a -> store_results a pairs results = (a3, results') -> well_hist a3.
Proof.
  revert a results. induction pairs as [|[t r] rest IH]; simpl; intros a results ND NP P W H.
  - now injection H as <- <-.
  - inversion NP as [|? ? Hnotin NP']; subst.
    apply IH in H; try assumption; simpl.
    + rewrite ids_update; [assumption|reflexivity].
    + rewrite tasks_update_map by assumption.
      intros u Hu Hin. apply in_map_iff in Hu. destruct Hu as (u0 & <- & Hu0).
      unfold upd_if in *. destruct (String.eqb_spec (id t) (id u0)) as [E|N].
      * simpl in Hin. rewrite <- E in Hin. contradiction.
      * apply P; auto.
    + apply well_hist_update; [assumption|assumption|].
      intros u Hu E. unfold legal_move. simpl. repeat split.
      right. right. right. destruct (P u Hu (or_introl (eq_sym E))) as [S R].
      repeat split; eauto.
Qed.

(** ** What a batch of coroutines logs and returns *)

Lemma dependency_results_map (g : SubTask -> SubTask) (ts : Tasks) (deps : list string) :
  (forall t, id (g t) = id t) -> (forall t, result (g t) = result t) ->
  dependency_results (map g ts) deps = dependency_results ts deps.
Proof.
  intros Hi Hr. induction deps as [|d deps IH]; simpl; [reflexivity|].
  rewrite tasks_get_map by assumption.
  destruct (tasks_get ts d) as [dt|]; simpl; [|assumption].
  rewrite Hr, IH. reflexivity.
Qed.

Lemma execution_prompt_map (g : SubTask -> SubTask) (ts : Tasks) (task : SubTask) :
  (forall t, id (g t) = id t) -> (forall t, result (g t) = result t) ->
  execution_prompt (map g ts) task = execution_prompt ts task.
Proof.
  intros Hi Hr. unfold execution_prompt, _get_dependency_results.
  now rewrite dependency_results_map.
Qed.

Lemma id_upd_status p s t : id (upd_if p (with_status s) t) = id t.
Proof. unfold upd_if. now destruct (p (id t)). Qed.

Lemma result_upd_status p s t : result (upd_if p (with_status s) t) = result t.
Proof. unfold upd_if. now destruct (p (id t)). Qed.

Lemma run_coroutines_events (ready : list SubTask) (a a2 : Agent)
      (os : list (PyException + string)) (ts : Tasks) :
  NoDup (ids (tasks a)) ->
  (forall task, execution_prompt (tasks a) task = execution_prompt ts task) ->
  run_coroutines llm_call a ready = (a2, os) ->
  exists replies,
    length replies = length ready /\
    os = map (fun p => outcome_of (fst p) (snd p)) (zip ready replies) /\
    events a2 =
      (rev (map (fun p => EvExecute (fst p) (execution_prompt ts (fst p)) (snd p))
                (zip ready replies)) ++ events a)%list.
Proof.
  revert a a2 os. induction ready as [|t ready IH]; simpl; intros a a2 os ND EP H.
  - injection H as <- <-. exists []. auto.
  - unfold execute_subtask in H.
    destruct (call llm_call a _ _) as [a1 reply] eqn:C.
    apply call_spec in C. destruct C as (Ct & Ch & Ce).
    assert (forall a1', tasks a1' = tasks a1 \/
                        tasks a1' = tasks_update (tasks a1) (id t) (with_status FAILED) ->
                        events a1' = events a1 ->
                        forall a2' os', run_coroutines llm_call a1' ready = (a2', os') ->
              exists replies,
                length replies = length ready /\
                os' = map (fun p => outcome_of (fst p) (snd p)) (zip ready replies) /\
                events a2' =
                  (rev (map (fun p => EvExecute (fst p) (execution_prompt ts (fst p)) (snd p))
                            (zip ready replies)) ++ events a1)%list) as Step.
    { intros a1' T E a2' os' R. rewrite <- E. apply IH with (a := a1'); [| |assumption].
      - destruct T as [-> | ->]; rewrite Ct; [assumption|].
        rewrite ids_update; [assumption|reflexivity].
      - intros task. destruct T as [-> | ->]; rewrite Ct; [apply EP|].
        rewrite tasks_update_map by assumption. rewrite <- EP.
        apply execution_prompt_map; intros u; unfold upd_if;
          now destruct (String.eqb (id t) (id u)). }
    destruct reply as [r|msg].
    + destruct (run_coroutines llm_call a1 ready) as [a2' os'] eqn:R.
      injection H as <- <-.
      destruct (Step a1 (or_introl eq_refl) eq_refl _ _ R) as (replies & L & O & E).
      exists (Text r :: replies). simpl. split; [now f_equal|]. split; [now f_equal|].
      rewrite E, Ce, EP, <- app_assoc. reflexivity.
    + destruct (run_coroutines llm_call _ ready) as [a2' os'] eqn:R.
      injection H as <- <-.
      destruct (Step (commit a1 (tasks_update (tasks a1) (id t) (with_status FAILED)))
                     (or_intror eq_refl) eq_refl _ _ R) as (replies & L & O & E).
      exists (Raises msg :: replies). simpl. split; [now f_equal|]. split; [now f_equal|].
      rewrite E, Ce, EP, <- app_assoc. reflexivity.
Qed.

Lemma run_coroutines_answered (ready : list SubTask) (a a2 : Agent)
      (os : list (PyException + string)) (ts : Tasks) :
  NoDup (ids (tasks a)) ->
  (forall task, execution_prompt (tasks a) task = execution_prompt ts task) ->
  run_coroutines llm_call a ready = (a2, os) ->
  Forall2 (answered ts) ready os.
Proof.
  revert a a2 os. induction ready as [|t ready IH]; simpl; intros a a2 os ND EP H.
  - injection H as <- <-. constructor.
  - unfold execute_subtask, call in H.
    destruct (llm_call (llm a) (execution_prompt (tasks a) t)) as [st reply] eqn:C.
    destruct reply as [r|msg].
    + destruct (run_coroutines llm_call _ ready) as [a2' os'] eqn:R.
      injection H as <- <-. constructor.
      * exists (llm a), st, (Text r). now rewrite <- EP.
      * apply IH in R; assumption.
    + destruct (run_coroutines llm_call _ ready) as [a2' os'] eqn:R.
      injection H as <- <-. constructor.
      * exists (llm a), st, (Raises msg). now rewrite <- EP.
      * apply IH in R; [assumption| |]; simpl.
        -- rewrite ids_update; [assumption|reflexivity].
        -- intros task. rewrite tasks_update_map by assumption. rewrite <- EP.
           apply execution_prompt_map; intros u; unfold upd_if;
             now destruct (String.eqb (id t) (id u)).
Qed.

(** ** The history only grows *)

Lemma history_mark (ready : list SubTask) (a : Agent) :
  incl (history a) (history (mark_in_progress a ready)).
Proof.
  revert a. induction ready as [|t ready IH]; simpl; intros a; [apply incl_refl|].
  eapply incl_tran; [|apply IH]. simpl. apply incl_tl, incl_refl.
Qed.

Lemma history_coroutines (ready : list SubTask) (a a2 : Agent)
      (os : list (PyException + string)) :
  run_coroutines llm_call a ready = (a2, os) -> incl (history a) (history a2).
Proof.
  revert a a2 os. induction ready as [|t ready IH]; simpl; intros a a2 os H.
  - injection H as <- <-. apply incl_refl.
  - unfold execute_subtask in H.
    destruct (call llm_call a _ _) as [a1 reply] eqn:C.
    apply call_spec in C. destruct C as (Ct & Ch & Ce).
    destruct reply as [r|msg].
    + destruct (run_coroutines llm_call a1 ready) as [a2' os'] eqn:R.
      injection H as <- <-. apply IH in R. now rewrite <- Ch.
    + destruct (run_coroutines llm_call _ ready) as [a2' os'] eqn:R.
      injection H as <- <-. apply IH in R. simpl in R. rewrite <- Ch.
      eapply incl_tran; [|exact R]. apply incl_tl, incl_refl.
Qed.

Lemma history_store (pairs : list (SubTask * string)) (a a3 : Agent)
      (results results' : Results) :
  store_results a pairs results = (a3, results') -> incl (history a) (history a3).
Proof.
  revert a results. induction pairs as [|[t r] rest IH]; simpl; intros a results H.
  - injection H as <- <-. apply incl_refl.
  - apply IH in H. simpl in H. eapply incl_tran; [|exact H]. apply incl_tl, incl_refl.
Qed.

(** ** The ready list *)

Lemma ready_among_ids (ts : Tasks) (l ready : list SubTask) :
  ready_among ts l = inr ready -> NoDup (ids l) -> NoDup (ids ready).
Proof.
  revert ready. induction l as [|u l IH]; simpl; intros ready H ND.
  - injection H as <-. constructor.
  - destruct (is_ready ts u) as [e|b] eqn:R; [discriminate|].
    destruct (ready_among ts l) as [e|r] eqn:A; [discriminate|].
    injection H as <-. inversion ND as [|? ? Hnotin ND']; subst.
    specialize (IH r eq_refl ND').
    destruct b; [|assumption]. simpl. constructor; [|assumption].
    intros Hin. apply Hnotin. apply in_map_iff in Hin.
    destruct Hin as (x & E & Hx). apply (ready_among_In _ _ _ x A) in Hx.
    rewrite <- E. apply In_ids. tauto.
Qed.

Lemma ready_tasks_spec (ts : Tasks) (ready : list SubTask) :
  NoDup (ids ts) -> ready_tasks ts = inr ready ->
  NoDup (ids ready) /\
  forall t, In t ready <->
            In t ts /\ status t = PENDING /\ deps_completed ts (dependencies t).
Proof.
  intros ND H. split; [now apply (ready_among_ids ts ts)|].
  intros t. rewrite (ready_among_In _ _ _ t H), is_ready_true. tauto.
Qed.

Lemma In_ids_ready (ts : Tasks) (ready : list SubTask) (u : SubTask) :
  NoDup (ids ts) -> ready_tasks ts = inr ready ->
  In u ts -> In (id u) (ids ready) -> In u ready.
Proof.
  intros ND H Hu Hin. apply in_map_iff in Hin. destruct Hin as (t & E & Ht).
  pose proof Ht as Ht'. apply (ready_tasks_spec _ _ ND H) in Ht'.
  destruct Ht' as (Hts & _).
  assert (u = t) as ->; [|assumption].
  apply In_tasks_get in Hu; [|assumption]. apply In_tasks_get in Hts; [|assumption].
  rewrite E in Hts. congruence.
Qed.

Lemma gathered_replies (ready : list SubTask) (replies : list Reply) (rs : list string) :
  length replies = length ready ->
  gathered (map (fun p => outcome_of (fst p) (snd p)) (zip ready replies)) = inr rs ->
  replies = map Text rs.
Proof.
  revert replies rs. induction ready as [|t ready IH]; intros [|rep replies] rs L;
    simpl in *; try discriminate.
  - now intros [= <-].
  - destruct rep as [r|msg]; simpl; [|discriminate].
    destruct (gathered _) as [e|rs'] eqn:G; [discriminate|].
    intros [= <-]. simpl. f_equal. apply IH; [lia|assumption].
Qed.

Lemma map_zip_Text (B : Type) (f : SubTask -> Reply -> B) (ready : list SubTask)
      (rs : list string) :
  map (fun p => f (fst p) (snd p)) (zip ready (map Text rs)) =
  map (fun p => f (fst p) (Text (snd p))) (zip ready rs).
Proof.
  revert rs. induction ready as [|t ready IH]; intros [|r rs]; simpl; try reflexivity.
  now rewrite IH.
Qed.

Lemma complete_marked (pairs : list (SubTask * string)) (ready : list SubTask)
      (t : SubTask) :
  pair_ids pairs = ids ready ->
  complete_with pairs (upd_if (fun k => mem k (ids ready)) (with_status IN_PROGRESS) t)
  = complete_with pairs t.
Proof.
  intros E. unfold upd_if. destruct (mem (id t) (ids ready)) eqn:M; [|reflexivity].
  unfold complete_with. simpl.
  destruct (assoc_result (id t) pairs) eqn:A; [reflexivity|].
  apply assoc_result_None in A. apply mem_In in M. rewrite E in A. contradiction.
Qed.

(** ** One iteration of the loop *)

(** The batch of a round, up to the end of [asyncio.gather]. *)
Lemma batch_spec (a a2 : Agent) (ready : list SubTask) (os : list (PyException + string)) :
  NoDup (ids (tasks a)) -> well_hist a ->
  ready_tasks (tasks a) = inr ready ->
  run_coroutines llm_call (mark_in_progress a ready) ready = (a2, os) ->
  exists replies,
    length replies = length ready /\
    os = map (fun p => outcome_of (fst p) (snd p)) (zip ready replies) /\
    tasks a2 =
      map (fun t => upd_if (fun k => mem k (failed_ids ready os)) (with_status FAILED)
                      (upd_if (fun k => mem k (ids ready)) (with_status IN_PROGRESS) t))
          (tasks a) /\
    events a2 =
      (rev (map (fun p => EvExecute (fst p) (execution_prompt (tasks a) (fst p)) (snd p))
                (zip ready replies)) ++ events a)%list /\
    incl (history a) (history a2) /\ well_hist a2 /\
    Forall2 (answered (tasks a)) ready os.
Proof.
  intros ND W R C.
  destruct (ready_tasks_spec _ _ ND R) as [NR RS].
  pose proof (tasks_mark_in_progress ready a ND) as T1.
  assert (NoDup (ids (tasks (mark_in_progress a ready)))) as ND1.
  { rewrite T1, ids_map; [assumption|]. intros t. apply id_upd_status. }
  destruct (run_coroutines_tasks _ _ _ _ ND1 C) as [L T2].
  assert (forall task, execution_prompt (tasks (mark_in_progress a ready)) task =
                       execution_prompt (tasks a) task) as EP.
  { intros task. rewrite T1. apply execution_prompt_map; intros t.
    - apply id_upd_status.
    - apply result_upd_status. }
  destruct (run_coroutines_events _ _ _ _ (tasks a) ND1 EP C)
    as (replies & Lr & O & E).
  exists replies. split; [assumption|]. split; [assumption|]. split.
  { rewrite T2, T1, map_map. reflexivity. }
  split.
  { rewrite E. f_equal. apply (events_mark_in_progress ready a). }
  split.
  { eapply incl_tran; [apply (history_mark ready a)|].
    now apply history_coroutines in C. }
  split; [|now apply (run_coroutines_answered _ _ _ _ (tasks a) ND1 EP C)].
  apply (well_hist_coroutines ready (mark_in_progress a ready) a2 os); try assumption.
  - rewrite T1. intros u Hu Hin. apply in_map_iff in Hu.
    destruct Hu as (u0 & <- & Hu0). unfold upd_if in *.
    destruct (mem (id u0) (ids ready)) eqn:M; [reflexivity|].
    apply mem_false in M. contradiction.
  - apply well_hist_mark; try assumption.
    intros u Hu Hin. apply (RS u). now apply (In_ids_ready (tasks a)).
Qed.

Lemma iteration_Continue (a a3 : Agent) (results results' : Results) :
  NoDup (ids (tasks a)) -> well_hist a ->
  (forall u, In u (tasks a) -> status u = PENDING -> result u = None) ->
  iteration llm_call json_dumps a results = Continue a3 results' ->
  exists ready rs,
    all_done (tasks a) = false /\
    ready_tasks (tasks a) = inr ready /\ ready <> [] /\ length rs = length ready /\
    tasks a3 = map (complete_with (zip ready rs)) (tasks a) /\
    (forall k, results_get results' k =
               match assoc_result k (zip ready rs) with
               | Some r => Some r
               | None => results_get results k
               end) /\
    events a3 =
      (rev (map (fun p => EvExecute (fst p) (execution_prompt (tasks a) (fst p))
                                    (Text (snd p)))
                (zip ready rs)) ++ events a)%list /\
    incl (history a) (history a3) /\ well_hist a3 /\
    (forall p, In p (zip ready rs) ->
       exists st st',
         llm_call st (execution_prompt (tasks a) (fst p)) = (st', Text (snd p))).
Proof.
  intros ND W PN H. unfold iteration in H. fold (all_done (tasks a)) in H.
  destruct (all_done (tasks a)) eqn:D; [discriminate|].
  destruct (ready_tasks (tasks a)) as [e|ready] eqn:R; [discriminate|].
  destruct ready as [|t0 ready'].
  { destruct (existsb _ (tasks a)); [discriminate|].
    destruct (existsb _ (tasks a)); discriminate. }
  remember (t0 :: ready') as ready eqn:Er.
  destruct (run_coroutines llm_call (mark_in_progress a ready) ready) as [a2 os] eqn:C.
  destruct (gathered os) as [e|rs] eqn:G; [discriminate|].
  destruct (store_results a2 (zip ready rs) results) as [a3' results''] eqn:S.
  injection H as <- <-.
  destruct (batch_spec _ _ _ _ ND W R C) as (replies & Lr & O & T2 & E & Hi & W2 & An).
  destruct (ready_tasks_spec _ _ ND R) as [NR RS].
  destruct (gathered_ok_no_failed ready _ _ G) as [F Lrs].
  assert (length rs = length ready) as Lrs'.
  { rewrite Lrs, O, length_map. clear -Lr. revert replies Lr.
    induction ready as [|t ready IH]; intros [|rep replies]; simpl; try discriminate;
      try reflexivity.
    intros [= L]. f_equal. now apply IH. }
  rewrite F in T2.
  assert (tasks a2 = map (upd_if (fun k => mem k (ids ready)) (with_status IN_PROGRESS))
                         (tasks a)) as T2'.
  { rewrite T2. apply map_ext. intros t. reflexivity. }
  assert (NoDup (ids (tasks a2))) as ND2.
  { rewrite T2', ids_map; [assumption|]. intros t. apply id_upd_status. }
  assert (NoDup (pair_ids (zip ready rs))) as NP by now rewrite pair_ids_zip.
  destruct (store_results_tasks _ _ _ _ _ ND2 NP S) as (T3 & E3 & _).
  exists ready, rs. split; [reflexivity|]. split; [reflexivity|].
  split; [rewrite Er; discriminate|]. split; [assumption|]. split.
  { rewrite T3, T2', map_map. apply map_ext. intros t.
    apply complete_marked. now apply pair_ids_zip. }
  split; [now apply (store_results_results _ _ _ _ _ NP S)|]. split.
  { rewrite E3, E. f_equal. f_equal. rewrite O in G.
    apply gathered_replies in G; [|assumption]. rewrite G.
    apply (map_zip_Text Event (fun t rep => EvExecute t (execution_prompt (tasks a) t) rep)). }
  split.
  { eapply incl_tran; [exact Hi|]. now apply history_store in S. }
  split.
  { apply (well_hist_store _ _ _ _ _ ND2 NP) with (3 := S); [|assumption].
    rewrite pair_ids_zip by assumption. rewrite T2'.
    intros u Hu Hin. apply in_map_iff in Hu. destruct Hu as (u0 & <- & Hu0).
    rewrite id_upd_status in Hin. unfold upd_if.
    pose proof Hin as M. apply mem_In in M. rewrite M. simpl.
    split; [reflexivity|]. apply PN; [assumption|].
    apply (RS u0). now apply (In_ids_ready (tasks a)). }
  rewrite O in G. apply gathered_replies in G; [|assumption].
  rewrite O, G in An. clear -An Lrs'.
  revert rs Lrs' An. induction ready as [|t ready IH]; intros [|r rs] L An p Hp;
    simpl in *; try contradiction.
  inversion An as [|? ? ? ? A An']; subst.
  destruct Hp as [<-|Hp]; [|apply (IH rs); auto].
  destruct A as (st & st' & reply & C & O). simpl.
  destruct reply; [|discriminate]. injection O as ->. eauto.
Qed.

Lemma iteration_Stop (a af : Agent) (results : Results) (out : Outcome) :
  NoDup (ids (tasks a)) -> well_hist a ->
  iteration llm_call json_dumps a results = Stop af out ->
  stop_case a results af out.
Proof.
  intros ND W H. unfold iteration in H.
  fold (all_done (tasks a)) (any_status FAILED (tasks a))
       (any_status PENDING (tasks a)) in H.
  destruct (all_done (tasks a)) eqn:D.
  { apply stop_done; [assumption|].
    destruct (synthesize_results llm_call json_dumps a results).
    unfold stop in H. simpl in H. now injection H as <- <-. }
  destruct (ready_tasks (tasks a)) as [e|ready] eqn:R.
  { injection H as <- <-. now apply stop_key_error with e. }
  destruct ready as [|t0 ready'].
  { destruct (any_status FAILED (tasks a)) eqn:F.
    { injection H as <- <-. now apply stop_failed_seen. }
    destruct (any_status PENDING (tasks a)) eqn:P.
    { injection H as <- <-. now apply stop_cycle. }
    apply stop_idle; try assumption.
    destruct (synthesize_results llm_call json_dumps a results).
    unfold stop in H. simpl in H. now injection H as <- <-. }
  remember (t0 :: ready') as ready eqn:Er.
  destruct (run_coroutines llm_call (mark_in_progress a ready) ready) as [a2 os] eqn:C.
  destruct (gathered os) as [e|rs] eqn:G.
  2:{ destruct (store_results a2 (zip ready rs) results); discriminate. }
  injection H as <- <-.
  destruct (batch_spec _ _ _ _ ND W R C) as (replies & Lr & O & T2 & E & Hi & W2 & An).
  subst os.
  apply stop_batch with ready replies e; try assumption; try reflexivity.
  rewrite Er. discriminate.
Qed.

Lemma synthesize_spec (a af : Agent) (results : Results) (out : Outcome) :
  synthesize_results llm_call json_dumps a results = (af, out) ->
  tasks af = tasks a /\ history af = history a /\
  exists reply,
    events af = EvSynthesize results reply :: events a /\
    out = match reply with
          | Text s => Returned s
          | Raises msg => Raised (LLMError msg)
          end.
Proof.
  unfold synthesize_results.
  destruct (call llm_call a _ _) as [a1 reply] eqn:C.
  apply call_spec in C. destruct C as (Ct & Ch & Ce).
  destruct reply; intros [= <- <-]; repeat split; try assumption; eexists; eauto.
Qed.

(** The loop rule: a property kept by every continuing iteration holds of the
    agent that the last iteration starts from. *)
Lemma schedule_rule (P : Agent -> Results -> Prop) :
  (forall a results a' results',
      P a results -> iteration llm_call json_dumps a results = Continue a' results' ->
      P a' results') ->
  forall fuel a results af out,
    P a results -> schedule llm_call json_dumps fuel a results = (af, out) ->
    out = OutOfFuel \/
    exists a' results',
      P a' results' /\ iteration llm_call json_dumps a' results' = Stop af out.
Proof.
  intros Keep. induction fuel as [|fuel IH]; simpl; intros a results af out HP H.
  - injection H as <- <-. now left.
  - destruct (iteration llm_call json_dumps a results) as [a' results'|a' o] eqn:I.
    + apply (IH a' results'); [|assumption]. now apply (Keep a results).
    + injection H as <- <-. right. exists a, results. auto.
Qed.

(** ** The invariant at the head of the loop *)

Lemma static_In (ts ts0 : Tasks) (t : SubTask) :
  map static ts = map static ts0 -> fresh ts0 ->
  In t ts -> status t = PENDING -> result t = None -> In t ts0.
Proof.
  intros E F Hin S R.
  apply (in_map static) in Hin. rewrite E in Hin.
  apply in_map_iff in Hin. destruct Hin as (t0 & E0 & H0).
  destruct (F t0 H0) as [S0 R0].
  assert (t0 = t) as <-; [|assumption].
  destruct t0, t. unfold static in E0. simpl in *. congruence.
Qed.

Lemma static_complete_with (pairs : list (SubTask * string)) (t : SubTask) :
  static (complete_with pairs t) = static t.
Proof. unfold complete_with. now destruct (assoc_result (id t) pairs). Qed.

Lemma id_complete_with (pairs : list (SubTask * string)) (t : SubTask) :
  id (complete_with pairs t) = id t.
Proof. unfold complete_with. now destruct (assoc_result (id t) pairs). Qed.

Lemma assoc_result_ready (ts : Tasks) (ready : list SubTask) (rs : list string)
      (t : SubTask) :
  NoDup (ids ts) -> ready_tasks ts = inr ready -> length rs = length ready ->
  In t ts ->
  match assoc_result (id t) (zip ready rs) with
  | Some _ => In t ready
  | None => ~ In t ready
  end.
Proof.
  intros ND R L Hin.
  destruct (assoc_result (id t) (zip ready rs)) eqn:A.
  - apply (In_ids_ready ts); try assumption.
    rewrite <- (pair_ids_zip ready rs L).
    destruct (in_dec string_dec (id t) (pair_ids (zip ready rs))) as [i|n]; [assumption|].
    apply assoc_result_None in n. congruence.
  - apply assoc_result_None in A. rewrite pair_ids_zip in A by assumption.
    intros H. apply A. now apply In_ids.
Qed.

(** Completed tasks stay completed through a round. *)
Lemma deps_completed_round (pairs : list (SubTask * string)) (ts : Tasks)
      (deps : list string) :
  deps_completed ts deps -> deps_completed (map (complete_with pairs) ts) deps.
Proof.
  intros H d Hd. destruct (H d Hd) as (dt & G & S).
  exists (complete_with pairs dt). split.
  - rewrite tasks_get_map; [now rewrite G|]. apply id_complete_with.
  - unfold complete_with. now destruct (assoc_result (id dt) pairs).
Qed.

Lemma In_zip_fst (A B : Type) (l : list A) (m : list B) (p : A * B) :
  In p (zip l m) -> In (fst p) l.
Proof.
  revert m. induction l as [|x l IH]; intros [|y m]; simpl; try tauto.
  intros [<-|H]; [now left|right; eauto].
Qed.

Lemma base_keep (ts0 : Tasks) (evs0 : list Event) (a a' : Agent)
      (results results' : Results) :
  fresh ts0 ->
  Base ts0 evs0 a results ->
  iteration llm_call json_dumps a results = Continue a' results' ->
  Base ts0 evs0 a' results'.
Proof.
  intros F [ND St Rk Cl W Sx (new & Ev & Dn & Sd)] H.
  assert (forall u, In u (tasks a) -> status u = PENDING -> result u = None) as PN.
  { intros u Hu S. destruct (St u Hu) as [[_ R]|[S' _]]; [assumption|congruence]. }
  destruct (iteration_Continue _ _ _ _ ND W PN H)
    as (ready & rs & D & R & NE & L & T & RG & E & Hi & W' & An).
  destruct (ready_tasks_spec _ _ ND R) as [NR RS].
  destruct W as [_ Hhd].
  constructor.
  - rewrite T, ids_map; [assumption|]. apply id_complete_with.
  - rewrite T. intros t' Ht'. apply in_map_iff in Ht'. destruct Ht' as (t & <- & Ht).
    pose proof (assoc_result_ready _ _ _ _ ND R L Ht) as AR.
    unfold settled. rewrite id_complete_with, RG. unfold complete_with.
    destruct (assoc_result (id t) (zip ready rs)) as [r|]; simpl.
    + right. split; [reflexivity|]. exists r. auto.
    + apply St. assumption.
  - intros k Hk. rewrite T, tasks_get_map by apply id_complete_with.
    destruct (results_get results' k) eqn:G.
    2:{ apply results_get_None in G. contradiction. }
    rewrite RG in G.
    destruct (assoc_result k (zip ready rs)) as [r|] eqn:A.
    + assert (In k (ids ready)) as Hin.
      { rewrite <- (pair_ids_zip ready rs L).
        destruct (in_dec string_dec k (pair_ids (zip ready rs))) as [i|n]; [assumption|].
        apply assoc_result_None in n. congruence. }
      apply in_map_iff in Hin. destruct Hin as (t & <- & Ht).
      apply RS in Ht. destruct Ht as (Ht & _).
      rewrite (In_tasks_get _ _ ND Ht). simpl. eexists. split; [reflexivity|].
      unfold complete_with. now rewrite A.
    + assert (In k (map fst results)) as Hin.
      { destruct (in_dec string_dec k (map fst results)) as [i|n]; [assumption|].
        apply results_get_None in n. congruence. }
      destruct (Rk k Hin) as (t & Gt & S). rewrite Gt. simpl.
      eexists. split; [reflexivity|].
      unfold complete_with. now destruct (assoc_result (id t) (zip ready rs)).
  - rewrite T. intros t' Ht' S'. apply in_map_iff in Ht'. destruct Ht' as (t & <- & Ht).
    apply deps_completed_round.
    replace (dependencies (complete_with (zip ready rs) t)) with (dependencies t)
      by (unfold complete_with; now destruct (assoc_result (id t) (zip ready rs))).
    pose proof (assoc_result_ready _ _ _ _ ND R L Ht) as AR.
    unfold complete_with in S'.
    destruct (assoc_result (id t) (zip ready rs)) as [r|].
    + apply RS in AR. tauto.
    + now apply Cl.
  - assumption.
  - rewrite T, map_map, <- Sx. apply map_ext. apply static_complete_with.
  - exists (rev (map (fun p => EvExecute (fst p) (execution_prompt (tasks a) (fst p))
                                          (Text (snd p)))
                     (zip ready rs)) ++ new)%list.
    split; [rewrite E, Ev; now rewrite app_assoc|]. split.
    { intros e He. apply in_app_or in He. destruct He as [He|He].
      + apply in_rev, in_map_iff in He. destruct He as ([t r] & <- & Hp). simpl.
        pose proof (An _ Hp) as Ans. simpl in Ans.
        apply In_zip_fst in Hp. simpl in Hp. pose proof Hp as Hr.
        apply RS in Hr. destruct Hr as (Ht & S & DC).
        split; [|now exists t, (execution_prompt (tasks a) t), r].
        exists (tasks a), t, (Text r). repeat split.
        * apply Hi. destruct (history a); [discriminate|]. injection Hhd as ->. now left.
        * assumption.
        * apply (static_In (tasks a)); auto.
        * apply is_ready_true. auto.
        * intros u Hu Su. destruct (St u Hu) as [[Sp _]|(_ & r0 & Ru & _)];
            [congruence|eauto].
        * assumption.
      + destruct (Dn e He) as [(snap & t & reply & Hs & Ht & H0 & Hr & -> & Rs & Ans) Su].
        split; [|assumption]. exists snap, t, reply. repeat split; auto. }
    rewrite T. intros t' r Ht' Rt'. apply in_map_iff in Ht'.
    destruct Ht' as (t & <- & Ht). rewrite id_complete_with.
    unfold complete_with in Rt'.
    destruct (assoc_result (id t) (zip ready rs)) as [r'|] eqn:A.
    + simpl in Rt'. injection Rt' as <-.
      assert (exists t0, In (t0, r') (zip ready rs) /\ id t0 = id t) as (t0 & Hp & Ei).
      { clear -A. induction (zip ready rs) as [|[u v] l IH]; simpl in *; [discriminate|].
        destruct (String.eqb_spec (id u) (id t)) as [Eu|Nu].
        - injection A as <-. exists u. auto.
        - destruct (IH A) as (t0 & H0 & E0). exists t0. auto. }
      exists t0, (execution_prompt (tasks a) t0). split; [|assumption].
      apply in_or_app. left. apply in_rev. rewrite rev_involutive.
      apply in_map_iff. exists (t0, r'). auto.
    + destruct (Sd t r Ht Rt') as (t0 & p & Hin & Ei).
      exists t0, p. split; [|assumption]. apply in_or_app. now right.
Qed.

Lemma base_init (ts0 : Tasks) (evs0 : list Event) (st : LLM) :
  NoDup (ids ts0) -> fresh ts0 ->
  Base ts0 evs0 (mkAgent ts0 st evs0 [ts0]) [].
Proof.
  intros ND F. constructor; simpl.
  - assumption.
  - intros t Ht. left. now apply F.
  - intros k [].
  - intros t Ht S. destruct (F t Ht). congruence.
  - split; [constructor|reflexivity].
  - reflexivity.
  - exists []. split; [reflexivity|]. split; [intros e []|].
    intros t r Ht Rt. destruct (F t Ht). congruence.
Qed.

(** ** Termination of the loop *)

Lemma pending_count_le_length (ts : Tasks) : pending_count ts <= length ts.
Proof. apply filter_length_le. Qed.

Lemma pending_count_map_le (g : SubTask -> SubTask) (ts : Tasks) :
  (forall t, In t ts -> pendingb (g t) = true -> pendingb t = true) ->
  pending_count (map g ts) <= pending_count ts.
Proof.
  unfold pending_count. induction ts as [|u ts IH]; simpl; intros H; [lia|].
  assert (length (filter pendingb (map g ts)) <= length (filter pendingb ts)) as IH'
      by (apply IH; auto).
  destruct (pendingb (g u)) eqn:G.
  - rewrite (H u (or_introl eq_refl) G). simpl. lia.
  - destruct (pendingb u); simpl; lia.
Qed.

Lemma pending_count_map_lt (g : SubTask -> SubTask) (ts : Tasks) (t : SubTask) :
  (forall t, In t ts -> pendingb (g t) = true -> pendingb t = true) ->
  In t ts -> pendingb t = true -> pendingb (g t) = false ->
  pending_count (map g ts) < pending_count ts.
Proof.
  induction ts as [|u ts IH]; simpl; intros H Hin P G; [contradiction|].
  assert (pending_count (map g ts) <= pending_count ts) as LE
      by (apply pending_count_map_le; auto).
  unfold pending_count in *. simpl. destruct Hin as [->|Hin].
  - rewrite G, P. simpl. lia.
  - assert (length (filter pendingb (map g ts)) < length (filter pendingb ts)) as LT
        by (apply IH; auto).
    destruct (pendingb (g u)) eqn:Gu.
    + rewrite (H u (or_introl eq_refl) Gu). simpl. lia.
    + destruct (pendingb u); simpl; lia.
Qed.

(** Every round that continues completes at least one pending task. *)
Lemma iteration_decreases (ts0 : Tasks) (evs0 : list Event) (a a' : Agent)
      (results results' : Results) :
  Base ts0 evs0 a results ->
  iteration llm_call json_dumps a results = Continue a' results' ->
  pending_count (tasks a') < pending_count (tasks a).
Proof.
  intros [ND St Rk Cl W Sx Ev] H.
  assert (forall u, In u (tasks a) -> status u = PENDING -> result u = None) as PN.
  { intros u Hu S. destruct (St u Hu) as [[_ R]|[S' _]]; [assumption|congruence]. }
  destruct (iteration_Continue _ _ _ _ ND W PN H)
    as (ready & rs & D & R & NE & L & T & _).
  destruct (ready_tasks_spec _ _ ND R) as [NR RS].
  destruct ready as [|t0 ready']; [congruence|].
  assert (In t0 (t0 :: ready')) as H0 by now left.
  pose proof H0 as H1. apply RS in H1. destruct H1 as (Ht0 & S0 & _).
  rewrite T. apply pending_count_map_lt with t0; try assumption.
  - intros t Ht. unfold complete_with, pendingb.
    now destruct (assoc_result (id t) (zip (t0 :: ready') rs)).
  - unfold pendingb. rewrite S0. reflexivity.
  - pose proof (assoc_result_ready _ _ _ _ ND R L Ht0) as AR.
    unfold complete_with, pendingb.
    destruct (assoc_result (id t0) (zip (t0 :: ready') rs)); [reflexivity|contradiction].
Qed.

Lemma schedule_total (ts0 : Tasks) (evs0 : list Event) (fuel : nat) (a : Agent)
      (results : Results) :
  fresh ts0 -> Base ts0 evs0 a results ->
  pending_count (tasks a) < fuel ->
  snd (schedule llm_call json_dumps fuel a results) <> OutOfFuel.
Proof.
  intros F. revert a results. induction fuel as [|fuel IH]; intros a results B Lt; [lia|].
  simpl. destruct (iteration llm_call json_dumps a results) as [a' results'|a' o] eqn:I.
  - apply IH.
    + now apply (base_keep ts0 evs0 a a' results results').
    + pose proof (iteration_decreases _ _ _ _ _ _ B I). lia.
  - simpl. apply iteration_Stop in I; [|apply B|apply B].
    destruct I as [D S|e|?|?|? ? ? ? S|]; subst; try discriminate.
    + apply synthesize_spec in S. destruct S as (_ & _ & reply & _ & ->).
      destruct reply; discriminate.
    + apply synthesize_spec in S. destruct S as (_ & _ & reply & _ & ->).
      destruct reply; discriminate.
Qed.

(** ** Registration *)

Lemma register_In (subtasks : list SubTask) (ts : Tasks) (t : SubTask) :
  In t (register ts subtasks) -> In t ts \/ In t subtasks.
Proof.
  revert ts. induction subtasks as [|u rest IH]; simpl; intros ts H; [now left|].
  apply IH in H. destruct H as [H|H]; [|now right; right].
  assert (In t ts \/ t = u) as [H'|H']; [|now left|right; left; now symmetry].
  clear IH. induction ts as [|v ts IH]; simpl in *.
  - destruct H as [<-|[]]. now right.
  - destruct (String.eqb (id v) (id u)); simpl in H.
    + destruct H as [<-|H]; [now right|left; now right].
    + destruct H as [<-|H]; [left; now left|].
      destruct (IH H); [left; now right|now right].
Qed.

Lemma fresh_register (plan : list TaskSpec) :
  fresh (register [] (map SubTask_of_spec plan)).
Proof.
  intros t Ht. apply register_In in Ht. destruct Ht as [[]|Ht].
  apply in_map_iff in Ht. destruct Ht as (j & <- & _). simpl. auto.
Qed.

(** The run of a planned task list on an agent whose task dict is empty, as
    [__init__] leaves it: it ends, and it ends by an iteration that starts
    from an agent satisfying the invariant, and any further property [Q] of
    the task dict that the continuing iterations keep. *)
Lemma execute_plan_final_with (Q : Tasks -> Prop) (a af : Agent)
      (plan : list TaskSpec) (out : Outcome) :
  (forall x r x' r',
      Base (register [] (map SubTask_of_spec plan)) (events a) x r -> Q (tasks x) ->
      iteration llm_call json_dumps x r = Continue x' r' -> Q (tasks x')) ->
  Q (register [] (map SubTask_of_spec plan)) ->
  tasks a = [] ->
  execute_plan llm_call json_dumps a (map SubTask_of_spec plan) = (af, out) ->
  out <> OutOfFuel /\
  exists a' results',
    Base (register [] (map SubTask_of_spec plan)) (events a) a' results' /\
    Q (tasks a') /\ stop_case a' results' af out.
Proof.
  intros Keep Q0 E H. unfold execute_plan in H. rewrite E in H.
  set (ts0 := register [] (map SubTask_of_spec plan)) in *.
  assert (fresh ts0) as F by apply fresh_register.
  assert (NoDup (ids ts0)) as ND by (apply NoDup_register; constructor).
  pose proof (base_init ts0 (events a) (llm a) ND F) as B.
  assert (out <> OutOfFuel) as NF.
  { pose proof (schedule_total ts0 (events a) (S (length ts0)) _ [] F B) as T.
    rewrite H in T. apply T. simpl.
    pose proof (pending_count_le_length ts0). lia. }
  split; [assumption|].
  destruct (schedule_rule (fun x r => Base ts0 (events a) x r /\ Q (tasks x)))
    with (2 := conj B Q0) (3 := H) as [->|(a' & results' & [B' Q'] & I)].
  - intros x r x' r' [Bx Qx] I. split.
    + now apply (base_keep ts0 (events a) x x' r r').
    + now apply (Keep x r x' r').
  - congruence.
  - exists a', results'. split; [assumption|]. split; [assumption|].
    apply iteration_Stop; [apply B'|apply B'|assumption].
Qed.

Lemma execute_plan_final (a af : Agent) (plan : list TaskSpec) (out : Outcome) :
  tasks a = [] ->
  execute_plan llm_call json_dumps a (map SubTask_of_spec plan) = (af, out) ->
  out <> OutOfFuel /\
  exists a' results',
    Base (register [] (map SubTask_of_spec plan)) (events a) a' results' /\
    stop_case a' results' af out.
Proof.
  intros E H.
  destruct (execute_plan_final_with (fun _ => True) a af plan out) as (NF & a' & r & B & _ & SC);
    auto.
  split; [assumption|]. now exists a', r.
Qed.

(** ** C9: every step of the scheduler is a legal move *)

Lemma stop_case_tasks_same (a af : Agent) (results : Results) (out : Outcome) :
  stop_case a results af out ->
  (forall e, out <> Raised (Exception e)) \/ out = Raised (Exception "Task execution failed")
  \/ out = Raised (Exception "Dependency cycle detected") ->
  tasks af = tasks a /\ history af = history a.
Proof.
  intros [D S|e D R -> ->|D R F -> ->|D R F P -> ->|D R F P S|ready replies e D R NE L G -> T E Hi W An] H;
    try (split; reflexivity);
    try (apply synthesize_spec in S; tauto).
  exfalso.
  assert (exists m, e = Exception ("Failed to execute task " ++ m)) as (m & ->).
  { clear -G L. revert replies L G.
    induction ready as [|t ready IH]; intros [|rep replies] L G; simpl in *;
      try discriminate.
    destruct rep as [r|msg]; simpl in G.
    - destruct (gathered _) as [e'|rs] eqn:G'; [|discriminate].
      injection G as <-. apply (IH replies); [lia|assumption].
    - injection G as <-. eexists. reflexivity. }
  destruct H as [H|[H|H]].
  - now apply (H ("Failed to execute task " ++ m)).
  - discriminate H.
  - discriminate H.
Qed.

Lemma stop_case_well_hist (a af : Agent) (results : Results) (out : Outcome) :
  stop_case a results af out -> well_hist a -> well_hist af.
Proof.
  intros [D S|e D R -> ->|D R F -> ->|D R F P -> ->|D R F P S|ready replies e D R NE L G -> T E Hi W An] W0;
    try assumption;
    apply synthesize_spec in S; destruct S as (T & Hh & _);
    unfold well_hist; now rewrite T, Hh.
Qed.

Lemma lawful_pairs (h : list Tasks) :
  lawful h ->
  forall h1 s' s h2, h = (h1 ++ s' :: s :: h2)%list -> legal_step s s'.
Proof.
  induction 1 as [|ts|ts' ts h S L IH]; intros h1 s' s h2 E.
  - destruct h1; discriminate.
  - destruct h1 as [|x [|y h1]]; discriminate.
  - destruct h1 as [|x h1]; simpl in E.
    + now injection E as <- <- <-.
    + injection E as <- E. now apply (IH h1 s' s h2).
Qed.

(** A task that is COMPLETED or FAILED admits no legal move but staying as
    it is. *)
Lemma legal_move_terminal (t t' : SubTask) :
  legal_move t t' -> status t = COMPLETED \/ status t = FAILED -> t' = t.
Proof.
  intros (I & D & P & M) H. destruct t, t'. simpl in *. subst.
  destruct M as [[-> ->]|[(S & _)|[(S & _)|(S & _)]]];
    try reflexivity; destruct H; congruence.
Qed.

(** C9.  In a run from an agent with an empty task dict, take any two
    consecutive values [s] (older) and [s'] (newer) of the task dict.  They
    hold the same tasks in the same order, and each task either is unchanged
    or has moved along PENDING -> IN_PROGRESS, IN_PROGRESS -> COMPLETED or
    IN_PROGRESS -> FAILED; its result changes only on the move into
    COMPLETED, where it goes from none to the stored result; and a task that
    is COMPLETED or FAILED in [s] is the very same record in [s']. *)
Theorem C9_status_transitions (a af : Agent) (plan : list TaskSpec) (out : Outcome)
        (h1 h2 : list Tasks) (s s' : Tasks) :
  tasks a = [] ->
  execute_plan llm_call json_dumps a (map SubTask_of_spec plan) = (af, out) ->
  history af = (h1 ++ s' :: s :: h2)%list ->
  Forall2 legal_move s s' /\
  Forall2 (fun t t' => status t = COMPLETED \/ status t = FAILED -> t' = t) s s'.
Proof.
  intros E H Hh.
  destruct (execute_plan_final _ _ _ _ E H) as (_ & a' & results' & B & SC).
  pose proof (stop_case_well_hist _ _ _ _ SC (base_hist _ _ _ _ B)) as [L _].
  pose proof (lawful_pairs _ L _ _ _ _ Hh) as S.
  split; [exact S|].
  apply Forall2_impl with (2 := S). intros t t'. apply legal_move_terminal.
Qed.

(** ** The dependency graph *)

Lemma static_ids (ts ts0 : Tasks) :
  map static ts = map static ts0 -> ids ts = ids ts0.
Proof.
  revert ts0. induction ts as [|u ts IH]; intros [|u0 ts0]; simpl; try discriminate.
  - reflexivity.
  - intros [= Ei _ _ E]. rewrite Ei. f_equal. now apply IH.
Qed.

Lemma static_get (ts ts0 : Tasks) (k : string) (t : SubTask) :
  map static ts = map static ts0 -> tasks_get ts k = Some t ->
  exists t0, tasks_get ts0 k = Some t0 /\ static t0 = static t.
Proof.
  revert ts0. induction ts as [|u ts IH]; intros [|u0 ts0]; simpl; try discriminate.
  intros [= Ei Ed Ep E].
  rewrite <- Ei. destruct (String.eqb (id u) k).
  - intros [= <-]. exists u0. split; [reflexivity|]. unfold static. congruence.
  - now apply IH.
Qed.

Lemma static_depends_on (ts ts0 : Tasks) (a b : string) :
  map static ts = map static ts0 -> depends_on ts a b -> depends_on ts0 a b.
Proof.
  intros E (t & G & Hb & Hi).
  destruct (static_get _ _ _ _ E G) as (t0 & G0 & S). exists t0.
  split; [assumption|]. unfold static in S. injection S as _ _ D.
  rewrite D, <- (static_ids _ _ E). auto.
Qed.

Lemma static_reach (ts ts0 : Tasks) (x y : string) :
  map static ts = map static ts0 ->
  clos_trans string (depends_on ts) x y -> clos_trans string (depends_on ts0) x y.
Proof.
  intros E C. induction C as [x y H|x y z _ IH1 _ IH2].
  - apply t_step. now apply (static_depends_on ts).
  - now apply t_trans with y.
Qed.

Lemma static_acyclic (ts ts0 : Tasks) :
  map static ts = map static ts0 -> acyclic ts0 -> acyclic ts.
Proof.
  intros E A k C. apply (A k). now apply (static_reach ts).
Qed.

Lemma static_no_dangling (ts ts0 : Tasks) :
  map static ts = map static ts0 -> no_dangling ts0 -> no_dangling ts.
Proof.
  intros E N t d Ht Hd. rewrite (static_ids _ _ E).
  apply (in_map static) in Ht. rewrite E in Ht. apply in_map_iff in Ht.
  destruct Ht as (t0 & S & H0). apply (N t0); [assumption|].
  unfold static in S. injection S as _ _ D. now rewrite D.
Qed.

Lemma chain_reach (R : string -> string -> Prop) (l : list string) (k x : string) :
  chain R k l -> In x l -> clos_trans string R k x.
Proof.
  revert k. induction l as [|d l IH]; simpl; intros k C Hx; [contradiction|].
  destruct C as [S C]. destruct Hx as [<-|Hx].
  - now apply t_step.
  - apply t_trans with d; [now apply t_step|now apply IH].
Qed.

Lemma chain_NoDup (R : string -> string -> Prop) (l : list string) (k : string) :
  (forall x, ~ clos_trans string R x x) -> chain R k l -> NoDup (k :: l).
Proof.
  intros A. revert k. induction l as [|d l IH]; intros k C.
  - constructor; [intros []|constructor].
  - constructor.
    + intros Hin. apply (A k). now apply chain_reach with (d :: l).
    + apply IH. apply C.
Qed.

(** No dependency is dangling exactly when the readiness computation cannot
    raise. *)
Lemma all_completed_no_KeyError (ts : Tasks) (deps : list string) :
  (forall d, In d deps -> In d (ids ts)) ->
  exists b, all_completed ts deps = inr b.
Proof.
  induction deps as [|d deps IH]; simpl; intros H; [now exists true|].
  destruct (tasks_get ts d) as [dt|] eqn:G.
  - destruct (status_eqb (status dt) COMPLETED); [|now exists false].
    apply IH. auto.
  - apply tasks_get_None in G. exfalso. apply G. auto.
Qed.

Lemma ready_among_no_KeyError (ts : Tasks) (l : list SubTask) :
  (forall t d, In t l -> In d (dependencies t) -> In d (ids ts)) ->
  exists ready, ready_among ts l = inr ready.
Proof.
  induction l as [|u l IH]; simpl; intros H; [now exists []|].
  destruct IH as (r & ->); [intros t d Ht; apply H; now right|].
  unfold is_ready. destruct (status_eqb (status u) PENDING).
  - destruct (all_completed_no_KeyError ts (dependencies u)) as (b & ->).
    + intros d. apply H. now left.
    + eexists. reflexivity.
  - eexists. reflexivity.
Qed.

Lemma all_completed_error (ts : Tasks) (deps : list string) (e : PyException) :
  all_completed ts deps = inl e ->
  exists k, e = KeyError k /\ In k deps /\ tasks_get ts k = None.
Proof.
  induction deps as [|d deps IH]; simpl; [discriminate|].
  destruct (tasks_get ts d) as [dt|] eqn:G.
  - destruct (status_eqb (status dt) COMPLETED); [|discriminate].
    intros H. destruct (IH H) as (k & -> & Hk & Gk). exists k. auto.
  - intros [= <-]. exists d. auto.
Qed.

Lemma ready_among_error (ts : Tasks) (l : list SubTask) (e : PyException) :
  ready_among ts l = inl e ->
  exists t k, In t l /\ status t = PENDING /\ In k (dependencies t) /\
              tasks_get ts k = None /\ e = KeyError k.
Proof.
  induction l as [|u l IH]; simpl; [discriminate|].
  destruct (is_ready ts u) as [e'|b] eqn:R.
  - intros [= <-]. unfold is_ready in R.
    destruct (status_eqb (status u) PENDING) eqn:S; [|discriminate].
    apply status_eqb_eq in S.
    destruct (all_completed_error _ _ _ R) as (k & -> & Hk & Gk).
    exists u, k. auto.
  - destruct (ready_among ts l) as [e'|r] eqn:A; [|discriminate].
    intros [= <-]. destruct (IH eq_refl) as (t & k & Ht & R').
    exists t, k. split; [now right|exact R'].
Qed.


(** A PENDING task that is not ready has a dependency that is an existing,
    not completed task. *)
Lemma not_completed_dep (ts : Tasks) (deps : list string) :
  (forall d, In d deps -> In d (ids ts)) ->
  all_completed ts deps <> inr true ->
  exists d dt, In d deps /\ tasks_get ts d = Some dt /\ status dt <> COMPLETED.
Proof.
  induction deps as [|d deps IH]; simpl; intros H N; [congruence|].
  destruct (tasks_get ts d) as [dt|] eqn:G.
  - destruct (status_eqb (status dt) COMPLETED) eqn:S.
    + destruct IH as (d' & dt' & Hd & G' & S'); [auto|assumption|].
      exists d', dt'. auto.
    + exists d, dt. repeat split; auto. intros C. rewrite C in S. discriminate.
  - apply tasks_get_None in G. exfalso. apply G. auto.
Qed.

Lemma all_done_false (ts : Tasks) :
  all_done ts = false -> exists t, In t ts /\ status t <> COMPLETED.
Proof.
  induction ts as [|u ts IH]; simpl; [discriminate|].
  destruct (status_eqb (status u) COMPLETED) eqn:S; simpl.
  - intros H. destruct (IH H) as (t & Ht & N). exists t. auto.
  - intros _. exists u. split; [now left|]. intros C. rewrite C in S. discriminate.
Qed.

Lemma all_done_true (ts : Tasks) :
  all_done ts = true -> forall t, In t ts -> status t = COMPLETED.
Proof.
  unfold all_done. rewrite forallb_forall. intros H t Ht.
  now apply status_eqb_eq, H.
Qed.

Lemma any_status_false (s : TaskStatus) (ts : Tasks) :
  any_status s ts = false -> forall t, In t ts -> status t <> s.
Proof.
  unfold any_status. intros H t Ht E.
  assert (existsb (fun t => status_eqb (status t) s) ts = true) as H'.
  { apply existsb_exists. exists t. split; [assumption|]. now apply status_eqb_eq. }
  congruence.
Qed.

(** In an acyclic dict without dangling ids whose tasks are all PENDING or
    COMPLETED, some PENDING task is ready as long as one is PENDING. *)
Lemma progress (ts : Tasks) (t : SubTask) :
  NoDup (ids ts) -> no_dangling ts -> acyclic ts ->
  (forall u, In u ts -> status u = PENDING \/ status u = COMPLETED) ->
  In t ts -> status t = PENDING ->
  ready_tasks ts <> inr [].
Proof.
  intros ND NDg A St Ht S R.
  assert (forall k u, tasks_get ts k = Some u -> status u = PENDING ->
            exists d du, depends_on ts k d /\ tasks_get ts d = Some du /\
                         status du = PENDING) as Next.
  { intros k u G Su. destruct (tasks_get_In _ _ _ G) as [Hu Ek].
    assert (all_completed ts (dependencies u) <> inr true) as N.
    { intros C. assert (In u []) as [].
      apply (ready_among_In _ _ _ u R). split; [assumption|].
      unfold is_ready. rewrite Su. exact C. }
    destruct (not_completed_dep ts (dependencies u)) as (d & du & Hd & Gd & Sd);
      [intros d; now apply NDg|assumption|].
    exists d, du. split; [|split; [assumption|]].
    - exists u. split; [assumption|]. split; [assumption|]. now apply NDg with u.
    - destruct (tasks_get_In _ _ _ Gd) as [Hdu _].
      destruct (St du Hdu); [assumption|contradiction]. }
  assert (forall n k u, tasks_get ts k = Some u -> status u = PENDING ->
            exists l, length l = n /\ chain (depends_on ts) k l /\
                      incl l (ids ts)) as Chains.
  { induction n as [|n IH]; intros k u G Su.
    - exists []. repeat split. intros x [].
    - destruct (Next k u G Su) as (d & du & D & Gd & Sd).
      destruct (IH d du Gd Sd) as (l & L & C & I).
      exists (d :: l). simpl. repeat split; auto.
      intros x [<-|Hx]; [|now apply I]. now apply tasks_get_Some_ids with du. }
  destruct (Chains (length ts) (id t) t (In_tasks_get _ _ ND Ht) S) as (l & L & C & I).
  pose proof (chain_NoDup _ _ _ A C) as NDl.
  assert (incl (id t :: l) (ids ts)) as I'.
  { intros x [<-|Hx]; [now apply In_ids|now apply I]. }
  pose proof (NoDup_incl_length NDl I') as Len.
  simpl in Len. unfold ids in Len. rewrite length_map in Len. lia.
Qed.

(** ** C2: a DAG of tasks with a succeeding executor *)

Lemma answered_gathered (ts : Tasks) (ready : list SubTask)
      (os : list (PyException + string)) :
  executor_succeeds -> Forall2 (answered ts) ready os ->
  exists rs, gathered os = inr rs.
Proof.
  intros Ok F. induction F as [|t o ready os A F IH]; simpl; [now exists []|].
  destruct A as (st & st' & reply & C & ->).
  destruct (Ok st ts t) as (st'' & r & C'). rewrite C in C'. injection C' as _ ->.
  simpl. destruct IH as (rs & ->). eexists. reflexivity.
Qed.

Lemma execution_prompt_static (ts : Tasks) (t t' : SubTask) :
  static t = static t' -> execution_prompt ts t = execution_prompt ts t'.
Proof.
  unfold static. intros [= _ D P].
  unfold execution_prompt, _get_dependency_results. now rewrite D, P.
Qed.

Lemma settled_cases (results : Results) (t : SubTask) :
  settled results t -> status t = PENDING \/ status t = COMPLETED.
Proof. intros [[S _]|[S _]]; auto. Qed.

(** What the stop cases leave when the dict is an acyclic graph without
    dangling ids and the executor succeeds: only the normal exit. *)
Lemma stop_case_dag (ts0 : Tasks) (evs0 : list Event) (a af : Agent)
      (results : Results) (out : Outcome) :
  no_dangling ts0 -> acyclic ts0 -> executor_succeeds ->
  Base ts0 evs0 a results -> stop_case a results af out ->
  all_done (tasks a) = true /\
  synthesize_results llm_call json_dumps a results = (af, out).
Proof.
  intros NDg A Ok B SC.
  pose proof (static_no_dangling _ _ (base_static _ _ _ _ B) NDg) as NDg'.
  pose proof (static_acyclic _ _ (base_static _ _ _ _ B) A) as A'.
  pose proof (base_nodup _ _ _ _ B) as ND.
  assert (forall u, In u (tasks a) -> status u = PENDING \/ status u = COMPLETED) as St.
  { intros u Hu. apply (settled_cases results). now apply (base_settled _ _ _ _ B). }
  destruct SC as [D S|e D R -> ->|D R F -> ->|D R F P -> ->|D R F P S
                 |ready replies e D R NE L G -> T E Hi W An].
  - auto.
  - exfalso. destruct (ready_among_no_KeyError (tasks a) (tasks a)) as (r & Hr);
      [exact NDg'|]. unfold ready_tasks in R. congruence.
  - exfalso. apply existsb_exists in F. destruct F as (t & Ht & S).
    apply status_eqb_eq in S. destruct (St t Ht); congruence.
  - exfalso. apply existsb_exists in P. destruct P as (t & Ht & S).
    apply status_eqb_eq in S. now apply (progress (tasks a) t).
  - exfalso. destruct (all_done_false _ D) as (t & Ht & N).
    destruct (St t Ht) as [Sp|Sc]; [|contradiction].
    now apply (any_status_false _ _ P t Ht).
  - exfalso. destruct (answered_gathered _ _ _ Ok An) as (rs & G'). congruence.
Qed.

(** C2, amended.  Let the planned tasks reference no absent id and let their
    dependency relation be acyclic, and let the executor succeed on every
    task.  Then a run from an agent with an empty task dict ends; every task
    ends COMPLETED with a stored result, which is the text the executor
    returned for that task's prompt; and the aggregator is called exactly
    once, after all worker calls, with a mapping whose keys are exactly the
    task ids and whose values are the stored results.  The run returns what
    the aggregator returns (or raises what it raises). *)
Theorem C2_dag_run_completes (a af : Agent) (plan : list TaskSpec) (out : Outcome) :
  tasks a = [] ->
  no_dangling (register [] (map SubTask_of_spec plan)) ->
  acyclic (register [] (map SubTask_of_spec plan)) ->
  executor_succeeds ->
  execute_plan llm_call json_dumps a (map SubTask_of_spec plan) = (af, out) ->
  ids (tasks af) = ids (register [] (map SubTask_of_spec plan)) /\
  (forall t, In t (tasks af) ->
     status t = COMPLETED /\
     exists r, result t = Some r /\
       exists st st' snap, In snap (history af) /\
         llm_call st (execution_prompt snap t) = (st', Text r)) /\
  exists results reply dispatches,
    events af = (EvSynthesize results reply :: dispatches ++ events a)%list /\
    (forall e, In e dispatches -> succeeded e) /\
    (forall k, In k (map fst results) <->
               In k (ids (register [] (map SubTask_of_spec plan)))) /\
    (forall t, In t (tasks af) -> results_get results (id t) = result t) /\
    out = match reply with
          | Text s => Returned s
          | Raises msg => Raised (LLMError msg)
          end.
Proof.
  intros E NDg A Ok H.
  destruct (execute_plan_final _ _ _ _ E H) as (_ & a' & results & B & SC).
  destruct (stop_case_dag _ _ _ _ _ _ NDg A Ok B SC) as [D S].
  apply synthesize_spec in S. destruct S as (T & Hh & reply & Ev & ->).
  pose proof (all_done_true _ D) as AD.
  destruct B as [ND St Rk Cl W Sx (new & En & Dn & Sd)].
  rewrite T, Hh. split; [now apply static_ids|]. split.
  { intros t Ht. split; [now apply AD|].
    destruct (St t Ht) as [[S _]|(_ & r & Rt & _)]; [rewrite (AD t Ht) in S; discriminate|].
    exists r. split; [assumption|].
    destruct (Sd t r Ht Rt) as (t0 & p & Hin & Ei).
    destruct (Dn _ Hin) as [(snap & t1 & reply' & Hs & Ht1 & H0 & Hr & Ee & _ & st & st' & C) _].
    injection Ee as <- -> <-.
    exists st, st', snap. split; [assumption|].
    rewrite <- C. f_equal. apply execution_prompt_static.
    assert (In (static t) (map static (tasks a'))) as Hst by now apply in_map.
    rewrite Sx in Hst. apply in_map_iff in Hst. destruct Hst as (t2 & S2 & H2).
    assert (t2 = t0) as <-; [|now symmetry].
    assert (NoDup (ids (register [] (map SubTask_of_spec plan)))) as ND0
        by (rewrite <- (static_ids _ _ Sx); assumption).
    apply (In_tasks_get _ _ ND0) in H0. apply (In_tasks_get _ _ ND0) in H2.
    assert (id t2 = id t0) as Eid by (unfold static in S2; congruence).
    rewrite Eid in H2. congruence. }
  exists results, reply, new. split; [now rewrite Ev, En|]. split.
  { intros e He. now apply Dn. }
  split.
  { intros k. rewrite <- (static_ids _ _ Sx). split.
    - intros Hk. destruct (Rk k Hk) as (t & G & _). now apply tasks_get_Some_ids with t.
    - intros Hk. apply in_map_iff in Hk. destruct Hk as (t & <- & Ht).
      destruct (St t Ht) as [[S _]|(_ & r & _ & G)];
        [rewrite (AD t Ht) in S; discriminate|].
      destruct (in_dec string_dec (id t) (map fst results)) as [i|n]; [assumption|].
      apply results_get_None in n. congruence. }
  split; [|reflexivity].
  intros t Ht. destruct (St t Ht) as [[S _]|(_ & r & Rt & G)];
    [rewrite (AD t Ht) in S; discriminate|]. congruence.
Qed.

(** ** C3: a cycle in the dependency relation *)

Lemma cycle_successor (R : string -> string -> Prop) (k : string) :
  clos_trans string R k k -> exists d, R k d /\ clos_trans string R d d.
Proof.
  intros C. apply clos_trans_t1n in C.
  inversion C as [y H|y z H C']; subst.
  - exists k. split; [assumption|]. now apply t_step.
  - exists y. split; [assumption|].
    apply t_trans with k; [now apply clos_t1n_trans|now apply t_step].
Qed.

Lemma cycles_pending_not_ready (ts0 ts : Tasks) (k : string) (t : SubTask) :
  map static ts = map static ts0 -> cycles_pending ts0 ts ->
  clos_trans string (depends_on ts0) k k -> tasks_get ts k = Some t ->
  ~ deps_completed ts (dependencies t).
Proof.
  intros Sx Q C G DC.
  destruct (cycle_successor _ _ C) as (d & (t0 & G0 & Hd & Hi) & Cd).
  destruct (static_get _ _ _ _ (eq_sym Sx) G0) as (t' & G' & S').
  rewrite G in G'. injection G' as <-.
  assert (dependencies t = dependencies t0) as Ed by (unfold static in S'; congruence).
  rewrite <- Ed in Hd. destruct (DC d Hd) as (dt & Gd & Sd).
  rewrite (Q d dt Cd Gd) in Sd. discriminate.
Qed.

Lemma cycles_pending_keep (ts0 : Tasks) (evs0 : list Event) (a a' : Agent)
      (results results' : Results) :
  Base ts0 evs0 a results -> cycles_pending ts0 (tasks a) ->
  iteration llm_call json_dumps a results = Continue a' results' ->
  cycles_pending ts0 (tasks a').
Proof.
  intros [ND St Rk Cl W Sx Ev] Q H.
  assert (forall u, In u (tasks a) -> status u = PENDING -> result u = None) as PN.
  { intros u Hu S. destruct (St u Hu) as [[_ R]|[S' _]]; [assumption|congruence]. }
  destruct (iteration_Continue _ _ _ _ ND W PN H)
    as (ready & rs & D & R & NE & L & T & _).
  destruct (ready_tasks_spec _ _ ND R) as [NR RS].
  intros k t' C G'. rewrite T, tasks_get_map in G' by apply id_complete_with.
  destruct (tasks_get (tasks a) k) as [t|] eqn:G; [|discriminate].
  simpl in G'. injection G' as <-.
  destruct (tasks_get_In _ _ _ G) as [Ht _].
  pose proof (assoc_result_ready _ _ _ _ ND R L Ht) as AR.
  unfold complete_with.
  destruct (assoc_result (id t) (zip ready rs)).
  - exfalso. apply RS in AR. destruct AR as (_ & _ & DC).
    now apply (cycles_pending_not_ready ts0 (tasks a) k t).
  - now apply (Q k t).
Qed.

(** When some task is PENDING at the head of the last iteration, the run
    ends by raising, and all that it has logged are worker calls. *)
Lemma stop_case_pending (ts0 : Tasks) (evs0 : list Event) (a af : Agent)
      (results : Results) (out : Outcome) (t : SubTask) :
  Base ts0 evs0 a results -> stop_case a results af out ->
  In t (tasks a) -> status t = PENDING ->
  (exists e, out = Raised e) /\
  exists new, events af = (new ++ evs0)%list /\ forall e, In e new -> worker_call e.
Proof.
  intros B SC Ht St. destruct (base_events _ _ _ _ B) as (new & En & Dn & _).
  assert (forall e, In e new -> worker_call e) as Wn.
  { intros e He. destruct (Dn e He) as [_ (t' & p & r & ->)]. now exists t', p, (Text r). }
  destruct SC as [D S|e D R -> ->|D R F -> ->|D R F P -> ->|D R F P S
                 |ready replies e D R NE L G -> T Ev Hi W An].
  - exfalso. rewrite (all_done_true _ D t Ht) in St. discriminate.
  - split; [eauto|now exists new].
  - split; [eauto|now exists new].
  - split; [eauto|now exists new].
  - exfalso. now apply (any_status_false _ _ P t Ht).
  - split; [eauto|]. eexists. split; [rewrite Ev, En; apply app_assoc|].
    intros e' He. apply in_app_or in He. destruct He as [He|He]; [|now apply Wn].
    apply in_rev, in_map_iff in He. destruct He as ([t' rep] & <- & _).
    now exists t', (execution_prompt (tasks a) t'), rep.
Qed.

(** C3, amended.  Let the dependency relation of the planned tasks contain a
    cycle (a self-dependency is one).  Then a run from an agent with an empty
    task dict ends after finitely many rounds, and it ends by raising: it
    never returns, and all it has called are workers, never the aggregator.
    When moreover no dependency id is absent and the executor succeeds on
    every task it is given, the exception is the one of the cycle check. *)
Theorem C3_cycle_run_raises (a af : Agent) (plan : list TaskSpec) (out : Outcome) :
  tasks a = [] ->
  has_cycle (register [] (map SubTask_of_spec plan)) ->
  execute_plan llm_call json_dumps a (map SubTask_of_spec plan) = (af, out) ->
  (exists e, out = Raised e) /\
  (exists new, events af = (new ++ events a)%list /\
               forall e, In e new -> worker_call e) /\
  (no_dangling (register [] (map SubTask_of_spec plan)) -> executor_succeeds ->
   out = Raised (Exception "Dependency cycle detected")).
Proof.
  intros E (k & C) H.
  set (ts0 := register [] (map SubTask_of_spec plan)) in *.
  destruct (execute_plan_final_with (cycles_pending ts0) a af plan out)
    as (NF & a' & results & B & Q & SC); try assumption.
  { intros x r x' r'. apply cycles_pending_keep. }
  { intros k' t' _ G. apply tasks_get_In in G. destruct G as [G _].
    now apply (fresh_register plan). }
  pose proof (base_static _ _ _ _ B) as Sx.
  assert (exists t, In t (tasks a') /\ status t = PENDING) as (t & Ht & St).
  { destruct (cycle_successor _ _ C) as (d & (t0 & G0 & _) & _).
    destruct (static_get _ _ _ _ (eq_sym Sx) G0) as (t & G & _).
    exists t. split; [now apply (tasks_get_In _ _ _ G)|]. now apply (Q k). }
  destruct (stop_case_pending _ _ _ _ _ _ t B SC Ht St) as [R Ev].
  split; [assumption|]. split; [assumption|].
  intros NDg Ok.
  assert (forall u, In u (tasks a') -> status u = PENDING \/ status u = COMPLETED) as Stl.
  { intros u Hu. apply (settled_cases results). now apply (base_settled _ _ _ _ B). }
  pose proof (static_no_dangling _ _ Sx NDg) as NDg'.
  destruct SC as [D S|e D R' -> ->|D R' F -> ->|D R' F P -> ->|D R' F P S
                 |ready replies e D R' NE L G -> T Ev' Hi W An].
  - exfalso. rewrite (all_done_true _ D t Ht) in St. discriminate.
  - exfalso. destruct (ready_among_no_KeyError (tasks a') (tasks a')) as (r & Hr);
      [exact NDg'|]. unfold ready_tasks in R'. congruence.
  - exfalso. apply existsb_exists in F. destruct F as (u & Hu & S).
    apply status_eqb_eq in S. destruct (Stl u Hu); congruence.
  - reflexivity.
  - exfalso. now apply (any_status_false _ _ P t Ht).
  - exfalso. destruct (answered_gathered _ _ _ Ok An) as (rs & G'). congruence.
Qed.

(** ** C4: a failing executor *)

Lemma gathered_first_failure (l : list (SubTask * Reply)) (e : PyException) :
  gathered (map (fun p => outcome_of (fst p) (snd p)) l) = inl e ->
  exists pre Y m post,
    l = (pre ++ (Y, Raises m) :: post)%list /\
    (forall p, In p pre -> exists r, snd p = Text r) /\
    e = Exception ("Failed to execute task " ++ id Y ++ ": " ++ m).
Proof.
  induction l as [|[t rep] l IH]; simpl; [discriminate|].
  destruct rep as [r|m]; simpl.
  - destruct (gathered _) as [e'|rs] eqn:G; [|discriminate].
    intros [= <-]. destruct (IH eq_refl) as (pre & Y & m & post & -> & Hp & ->).
    exists ((t, Text r) :: pre), Y, m, post. split; [reflexivity|]. split; [|reflexivity].
    intros p [<-|Hin]; [now exists r|now apply Hp].
  - intros [= <-]. exists [], t, m, l. split; [reflexivity|]. split; [|reflexivity].
    intros p [].
Qed.

Lemma failed_ids_zip (ready : list SubTask) (replies : list Reply) (X : SubTask)
      (msg : string) :
  In (X, Raises msg) (zip ready replies) ->
  In (id X) (failed_ids ready (map (fun p => outcome_of (fst p) (snd p))
                                   (zip ready replies))).
Proof.
  revert replies. induction ready as [|t ready IH]; intros [|rep replies]; simpl;
    try contradiction.
  intros [[= -> ->]|H].
  - simpl. now left.
  - destruct rep; simpl; [|right]; now apply IH.
Qed.

(** In a state of the loop head, a task that depends on a PENDING task is
    PENDING too and is not ready. *)
Lemma blocked_by_pending (ts0 : Tasks) (evs0 : list Event) (a : Agent)
      (results : Results) (k d : string) (t dt : SubTask) :
  Base ts0 evs0 a results ->
  depends_on ts0 k d -> tasks_get (tasks a) d = Some dt -> status dt = PENDING ->
  tasks_get (tasks a) k = Some t ->
  status t = PENDING /\ ~ deps_completed (tasks a) (dependencies t).
Proof.
  intros B (t0 & G0 & Hd & _) Gd Sd G.
  destruct (static_get _ _ _ _ (eq_sym (base_static _ _ _ _ B)) G0) as (t' & G' & S').
  rewrite G in G'. injection G' as <-.
  assert (dependencies t = dependencies t0) as Ed by (unfold static in S'; congruence).
  assert (~ deps_completed (tasks a) (dependencies t)) as N.
  { intros DC. rewrite Ed in DC. destruct (DC d Hd) as (dt' & Gd' & Sd').
    rewrite Gd in Gd'. injection Gd' as <-. congruence. }
  split; [|assumption].
  destruct (tasks_get_In _ _ _ G) as [Ht _].
  destruct (settled_cases results t (base_settled _ _ _ _ B t Ht)) as [S|S]; [assumption|].
  exfalso. apply N. now apply (base_closed _ _ _ _ B).
Qed.

Lemma dependents_pending (ts0 : Tasks) (evs0 : list Event) (a : Agent)
      (results : Results) (k x : string) (xt : SubTask) :
  Base ts0 evs0 a results ->
  clos_trans string (depends_on ts0) k x ->
  tasks_get (tasks a) x = Some xt -> status xt = PENDING ->
  forall t, tasks_get (tasks a) k = Some t ->
            status t = PENDING /\ ~ deps_completed (tasks a) (dependencies t).
Proof.
  intros B C. apply clos_trans_t1n in C.
  induction C as [k x H|k d x H C IH]; intros Gx Sx t G.
  - now apply (blocked_by_pending ts0 evs0 a results k x t xt).
  - assert (exists dt, tasks_get (tasks a) d = Some dt) as (dt & Gd).
    { destruct H as (_ & _ & _ & Hi).
      rewrite <- (static_ids _ _ (base_static _ _ _ _ B)) in Hi.
      destruct (tasks_get (tasks a) d) eqn:Gd; [eauto|].
      apply tasks_get_None in Gd. contradiction. }
    destruct (IH Gx Sx dt Gd) as [Sd _].
    now apply (blocked_by_pending ts0 evs0 a results k d t dt).
Qed.

(** C4, amended.  Let the executor fail on task [X] in a run from an agent
    with an empty task dict: among the calls [new] that the run has logged
    there is a worker call for [X] that raised.  Then the run ends by
    raising the exception that names the task of the first worker call that
    failed ([X] itself when no call before it failed); [X] is FAILED and
    stores no result; every task that depends on [X], directly or through
    other tasks, is still PENDING; and all the calls of the run are worker
    calls, none to the aggregator. *)
Theorem C4_failure_is_fatal (a af : Agent) (plan : list TaskSpec) (out : Outcome)
        (new : list Event) (X : SubTask) (p msg : string) :
  tasks a = [] ->
  execute_plan llm_call json_dumps a (map SubTask_of_spec plan) = (af, out) ->
  events af = (new ++ events a)%list ->
  In (EvExecute X p (Raises msg)) new ->
  (exists later Y q m earlier,
      new = (later ++ EvExecute Y q (Raises m) :: earlier)%list /\
      (forall e, In e earlier -> succeeded e) /\
      out = Raised (Exception ("Failed to execute task " ++ id Y ++ ": " ++ m))) /\
  (exists t, tasks_get (tasks af) (id X) = Some t /\
             status t = FAILED /\ result t = None) /\
  (forall k t, clos_trans string (depends_on (register [] (map SubTask_of_spec plan)))
                          k (id X) ->
               tasks_get (tasks af) k = Some t -> status t = PENDING) /\
  (forall e, In e new -> worker_call e).
Proof.
  intros E H Ev HX.
  set (ts0 := register [] (map SubTask_of_spec plan)) in *.
  destruct (execute_plan_final _ _ _ _ E H) as (_ & a' & results & B & SC).
  destruct (base_events _ _ _ _ B) as (old & En & Dn & _).
  assert (forall e, In e old -> succeeded e) as So by (intros e He; now apply Dn).
  assert (~ In (EvExecute X p (Raises msg)) old) as NX.
  { intros Hin. destruct (So _ Hin) as (t & q & r & [=]). }
  destruct SC as [D S|e D R -> ->|D R F -> ->|D R F P -> ->|D R F P S
                 |ready replies e D R NE L G -> T Ev' Hi W An].
  1,5: exfalso; apply synthesize_spec in S; destruct S as (_ & _ & rp & Es & _);
       rewrite Es, En in Ev;
       change (EvSynthesize results rp :: old ++ events a)%list
         with ((EvSynthesize results rp :: old) ++ events a)%list in Ev;
       apply app_inv_tail in Ev; subst new;
       destruct HX as [HX|HX]; [discriminate|contradiction].
  1-3: exfalso; rewrite En in Ev; apply app_inv_tail in Ev; subst new; contradiction.
  rewrite Ev', En, app_assoc in Ev. apply app_inv_tail in Ev. subst new.
  pose proof (base_nodup _ _ _ _ B) as ND.
  destruct (ready_tasks_spec _ _ ND R) as [NR RS].
  apply in_app_or in HX. destruct HX as [HX|HX]; [|contradiction].
  apply in_rev, in_map_iff in HX. destruct HX as ([X' rep] & [= -> <- ->] & HX).
  simpl in *.
  pose proof (In_zip_fst _ _ _ _ _ HX) as HXr. simpl in HXr.
  pose proof HXr as HXt. apply RS in HXt. destruct HXt as (HXt & SX & _).
  split; [|split; [|split]].
  - destruct (gathered_first_failure _ _ G) as (pre & Y & m & post & Z & Hp & ->).
    exists (rev (map (fun p => EvExecute (fst p) (execution_prompt (tasks a') (fst p)) (snd p))
                     post)),
           Y, (execution_prompt (tasks a') Y), m,
           (rev (map (fun p => EvExecute (fst p) (execution_prompt (tasks a') (fst p)) (snd p))
                     pre) ++ old)%list.
    split; [|split; [|reflexivity]].
    + rewrite Z, map_app, rev_app_distr. simpl. rewrite <- !app_assoc. reflexivity.
    + intros e He. apply in_app_or in He. destruct He as [He|He]; [|now apply So].
      apply in_rev, in_map_iff in He. destruct He as ([t rep] & <- & Hin).
      destruct (Hp _ Hin) as (r & Er). simpl in Er. subst rep.
      now exists t, (execution_prompt (tasks a') t), r.
  - rewrite T, tasks_get_map, (In_tasks_get _ _ ND HXt).
    2:{ intros t. now rewrite !id_upd_status. }
    simpl. eexists. split; [reflexivity|].
    rewrite result_upd_status, result_upd_status.
    destruct (base_settled _ _ _ _ B X HXt) as [[_ RX]|[SX' _]]; [|congruence].
    split; [|assumption].
    unfold upd_if at 1. rewrite id_upd_status.
    pose proof (failed_ids_zip _ _ _ _ HX) as F. apply mem_In in F. now rewrite F.
  - intros k t C Gk. rewrite T, tasks_get_map in Gk.
    2:{ intros u. now rewrite !id_upd_status. }
    destruct (tasks_get (tasks a') k) as [t'|] eqn:Gk'; [|discriminate].
    simpl in Gk. injection Gk as <-.
    destruct (dependents_pending ts0 _ _ _ k (id X) X B C (In_tasks_get _ _ ND HXt) SX t' Gk')
      as [St N].
    destruct (tasks_get_In _ _ _ Gk') as [Ht' Ek].
    assert (~ In (id t') (ids ready)) as NI.
    { intros Hin. apply N. apply (RS t'). now apply (In_ids_ready (tasks a')). }
    assert (mem (id t') (ids ready) = false) as M by now apply mem_false.
    assert (mem (id t') (failed_ids ready
               (map (fun p => outcome_of (fst p) (snd p)) (zip ready replies))) = false) as M'.
    { apply mem_false. intros Hin. apply NI. now apply (failed_ids_incl _ _ _ Hin). }
    unfold upd_if at 1. rewrite id_upd_status, M'. unfold upd_if. now rewrite M.
  - intros ev He. apply in_app_or in He. destruct He as [He|He].
    + apply in_rev, in_map_iff in He. destruct He as ([t rep] & <- & _).
      now exists t, (execution_prompt (tasks a') t), rep.
    + destruct (So ev He) as (t & q & r & ->). now exists t, q, (Text r).
Qed.

(** ** Every worker call of a run was dispatched from a recorded round *)

Lemma append_inj_r (s a b : string) : (s ++ a = s ++ b)%string -> a = b.
Proof.
  induction s as [|c s IH]; simpl; [auto|]. intros [= H]. auto.
Qed.

Lemma outcome_of_inj (t : SubTask) (r1 r2 : Reply) :
  outcome_of t r1 = outcome_of t r2 -> r1 = r2.
Proof.
  destruct r1, r2; simpl; intros H; try discriminate.
  - now injection H as ->.
  - injection H as H. apply append_inj_r in H. simpl in H. now injection H as ->.
Qed.

Lemma dispatched_incl (ts0 : Tasks) (h h' : list Tasks) (e : Event) :
  incl h h' -> dispatched ts0 h e -> dispatched ts0 h' e.
Proof.
  intros I (snap & t & reply & Hs & R). exists snap, t, reply. split; [now apply I|exact R].
Qed.

Lemma Forall2_zip_In (P : SubTask -> PyException + string -> Prop)
      (ready : list SubTask) (replies : list Reply) (t : SubTask) (rep : Reply) :
  Forall2 P ready (map (fun p => outcome_of (fst p) (snd p)) (zip ready replies)) ->
  In (t, rep) (zip ready replies) -> P t (outcome_of t rep).
Proof.
  revert replies. induction ready as [|u ready IH]; intros [|r replies]; simpl;
    try contradiction.
  intros F. inversion F as [|? ? ? ? Pu F']; subst.
  intros [[= -> ->]|H]; [assumption|now apply (IH replies)].
Qed.

Lemma run_dispatched (a af : Agent) (plan : list TaskSpec) (out : Outcome)
      (new : list Event) (e : Event) :
  tasks a = [] ->
  execute_plan llm_call json_dumps a (map SubTask_of_spec plan) = (af, out) ->
  events af = (new ++ events a)%list ->
  In e new -> worker_call e ->
  dispatched (register [] (map SubTask_of_spec plan)) (history af) e.
Proof.
  intros E H Ev He We.
  set (ts0 := register [] (map SubTask_of_spec plan)) in *.
  destruct (execute_plan_final _ _ _ _ E H) as (_ & a' & results & B & SC).
  destruct (base_events _ _ _ _ B) as (old & En & Dn & _).
  destruct SC as [D S|e' D R -> ->|D R F -> ->|D R F P -> ->|D R F P S
                 |ready replies e' D R NE L G -> T Ev' Hi W An].
  1,5: apply synthesize_spec in S; destruct S as (_ & Hh & rp & Es & _);
       rewrite Es, En in Ev;
       change (EvSynthesize results rp :: old ++ events a)%list
         with ((EvSynthesize results rp :: old) ++ events a)%list in Ev;
       apply app_inv_tail in Ev; subst new; rewrite Hh;
       destruct He as [<-|He]; [destruct We as (t & q & r & [=])|now apply Dn].
  1-3: rewrite En in Ev; apply app_inv_tail in Ev; subst new; now apply Dn.
  rewrite Ev', En, app_assoc in Ev. apply app_inv_tail in Ev. subst new.
  apply in_app_or in He. destruct He as [He|He].
  2:{ apply (dispatched_incl ts0 (history a')); [assumption|now apply Dn]. }
  apply in_rev, in_map_iff in He. destruct He as ([t rep] & <- & Hp). simpl.
  pose proof (base_nodup _ _ _ _ B) as ND.
  destruct (ready_tasks_spec _ _ ND R) as [NR RS].
  pose proof (In_zip_fst _ _ _ _ _ Hp) as Hr. simpl in Hr.
  apply RS in Hr. destruct Hr as (Ht & St & DC).
  exists (tasks a'), t, rep. repeat split.
  - apply Hi. destruct (base_hist _ _ _ _ B) as [_ Hd].
    destruct (history a'); [discriminate|]. injection Hd as ->. now left.
  - assumption.
  - apply (static_In (tasks a')); try assumption.
    + apply (base_static _ _ _ _ B).
    + apply fresh_register.
    + destruct (base_settled _ _ _ _ B t Ht) as [[_ Rt]|[Sc _]]; [assumption|congruence].
  - apply is_ready_true. auto.
  - intros u Hu Su. destruct (base_settled _ _ _ _ B u Hu) as [[Sp _]|(_ & r0 & Ru & _)];
      [congruence|eauto].
  - destruct (Forall2_zip_In _ _ _ _ _ An Hp) as (st & st' & reply & C & O).
    apply outcome_of_inj in O. subst reply. eauto.
Qed.

(** ** C10: two planned subtasks with one id *)

Lemma tasks_get_register (plan : list TaskSpec) (ts : Tasks) (k : string) :
  tasks_get (register ts (map SubTask_of_spec plan)) k =
  match last_spec k plan with
  | Some j => Some (SubTask_of_spec j)
  | None => tasks_get ts k
  end.
Proof.
  revert ts. induction plan as [|j rest IH]; simpl; intros ts; [reflexivity|].
  rewrite IH. destruct (last_spec k rest); [reflexivity|].
  rewrite tasks_get_set. simpl. now destruct (String.eqb (spec_id j) k).
Qed.

(** A state of the loop head from which nothing is ready and nothing is
    pending is one where everything is done. *)
Lemma base_no_idle (ts0 : Tasks) (evs0 : list Event) (a : Agent) (results : Results) :
  Base ts0 evs0 a results -> all_done (tasks a) = false ->
  any_status PENDING (tasks a) = true /\ any_status FAILED (tasks a) = false.
Proof.
  intros B D. split.
  - destruct (all_done_false _ D) as (t & Ht & N).
    apply existsb_exists. exists t. split; [assumption|].
    apply status_eqb_eq.
    destruct (settled_cases results t (base_settled _ _ _ _ B t Ht)); [assumption|contradiction].
  - destruct (any_status FAILED (tasks a)) eqn:F; [|reflexivity].
    apply existsb_exists in F. destruct F as (t & Ht & S). apply status_eqb_eq in S.
    destruct (settled_cases results t (base_settled _ _ _ _ B t Ht)); congruence.
Qed.

Lemma SubTask_of_spec_inj (j1 j2 : TaskSpec) :
  SubTask_of_spec j1 = SubTask_of_spec j2 -> j1 = j2.
Proof. destruct j1, j2. unfold SubTask_of_spec. simpl. now intros [= -> -> ->]. Qed.

(** The fields of the tasks that no statement assigns are, at the end of a
    run, those of the registered dict. *)
Lemma run_static (a af : Agent) (plan : list TaskSpec) (out : Outcome) :
  tasks a = [] ->
  execute_plan llm_call json_dumps a (map SubTask_of_spec plan) = (af, out) ->
  map static (tasks af) = map static (register [] (map SubTask_of_spec plan)).
Proof.
  intros E H.
  destruct (execute_plan_final _ _ _ _ E H) as (_ & a' & results & B & SC).
  rewrite <- (base_static _ _ _ _ B).
  destruct SC as [D S|e' D R -> ->|D R F -> ->|D R F P -> ->|D R F P S
                 |ready replies e' D R NE L G' -> T Ev' Hi W An];
    try reflexivity;
    try (apply synthesize_spec in S; destruct S as (-> & _); reflexivity).
  rewrite T, map_map. apply map_ext. intros u.
  unfold static. rewrite !id_upd_status. unfold upd_if.
  repeat match goal with |- context [if ?c then _ else _] => destruct c end;
    reflexivity.
Qed.

(** A result stored in the dict at the end of a run is the text that a
    logged worker call for the id returned. *)
Lemma run_results_logged (a af : Agent) (plan : list TaskSpec) (out : Outcome)
      (new : list Event) (t : SubTask) (r : string) :
  tasks a = [] ->
  execute_plan llm_call json_dumps a (map SubTask_of_spec plan) = (af, out) ->
  events af = (new ++ events a)%list ->
  In t (tasks af) -> result t = Some r ->
  exists t0 p, In (EvExecute t0 p (Text r)) new /\ id t0 = id t.
Proof.
  intros E H Ev Ht Rt.
  destruct (execute_plan_final _ _ _ _ E H) as (_ & a' & results & B & SC).
  destruct (base_events _ _ _ _ B) as (old & Eo & _ & Sd).
  destruct SC as [D S|e' D R -> ->|D R F -> ->|D R F P -> ->|D R F P S
                 |ready replies e' D R NE L G' -> T Ev' Hi W An].
  1,5: apply synthesize_spec in S; destruct S as (Et & _ & rp & Es & _);
       rewrite Es, Eo in Ev;
       change (EvSynthesize results rp :: old ++ events a)%list
         with ((EvSynthesize results rp :: old) ++ events a)%list in Ev;
       apply app_inv_tail in Ev; subst new; rewrite Et in Ht;
       destruct (Sd t r Ht Rt) as (t0 & p & H0 & E0); exists t0, p;
       split; [now right|assumption].
  1-3: rewrite Eo in Ev; apply app_inv_tail in Ev; subst new; now apply Sd.
  rewrite Ev', Eo, app_assoc in Ev. apply app_inv_tail in Ev. subst new.
  rewrite T in Ht. apply in_map_iff in Ht. destruct Ht as (u & <- & Hu).
  rewrite !result_upd_status, id_upd_status, id_upd_status in *.
  destruct (Sd u r Hu Rt) as (t0 & p & H0 & E0). exists t0, p.
  split; [|assumption]. apply in_or_app. now right.
Qed.

(** C10.  When the plan holds several subtasks with one id (in particular
    two), the task dict built from it maps that id to the last of them, and
    so does the dict of the run to its end: it has one task for every planned
    id and no other, with the description and the dependencies of the last
    subtask planned with that id.  Every worker call of the run is made for a
    task object that is the last planned subtask of its id, in a round in
    which the dependencies of that last subtask are COMPLETED, on the prompt
    built for it; an earlier subtask with the same id is never dispatched.
    Every result stored under an id is the text that a worker call for the
    last subtask of that id returned; and when the run returns, such a call
    was made for every planned id, and its text is the result in the dict
    and in the mapping given to the aggregator. *)
Theorem C10_last_write_wins (a af : Agent) (plan : list TaskSpec) (out : Outcome)
        (new : list Event) :
  tasks a = [] ->
  execute_plan llm_call json_dumps a (map SubTask_of_spec plan) = (af, out) ->
  events af = (new ++ events a)%list ->
  (forall k, tasks_get (register [] (map SubTask_of_spec plan)) k =
             option_map SubTask_of_spec (last_spec k plan)) /\
  (forall t p reply, In (EvExecute t p reply) new ->
     exists j, last_spec (id t) plan = Some j /\ t = SubTask_of_spec j) /\
  (forall k t, tasks_get (tasks af) k = Some t ->
     exists j, last_spec k plan = Some j /\
               description t = spec_description j /\
               dependencies t = spec_dependencies j) /\
  NoDup (ids (tasks af)) /\
  (forall k j, last_spec k plan = Some j ->
     exists t, tasks_get (tasks af) k = Some t /\
               description t = spec_description j /\
               dependencies t = spec_dependencies j) /\
  (forall k, last_spec k plan = None -> tasks_get (tasks af) k = None) /\
  (forall t p reply, In (EvExecute t p reply) new ->
     exists j snap,
       last_spec (id t) plan = Some j /\ In snap (history af) /\
       deps_completed snap (spec_dependencies j) /\
       p = execution_prompt snap (SubTask_of_spec j)) /\
  (forall j1 j2 p reply,
     In j1 plan -> last_spec (spec_id j1) plan = Some j2 -> j1 <> j2 ->
     ~ In (EvExecute (SubTask_of_spec j1) p reply) new) /\
  (forall k t r, tasks_get (tasks af) k = Some t -> result t = Some r ->
     exists j p, last_spec k plan = Some j /\
                 In (EvExecute (SubTask_of_spec j) p (Text r)) new) /\
  (forall s, out = Returned s ->
     exists results reply workers,
       new = EvSynthesize results reply :: workers /\
       forall k j, last_spec k plan = Some j ->
         exists p r t,
           In (EvExecute (SubTask_of_spec j) p (Text r)) workers /\
           results_get results k = Some r /\
           tasks_get (tasks af) k = Some t /\ status t = COMPLETED /\
           result t = Some r).
Proof.
  intros E H Ev.
  assert (forall k, tasks_get (register [] (map SubTask_of_spec plan)) k =
                    option_map SubTask_of_spec (last_spec k plan)) as Reg.
  { intros k. rewrite tasks_get_register. now destruct (last_spec k plan). }
  assert (NoDup (ids (register [] (map SubTask_of_spec plan)))) as ND0
      by (apply NoDup_register; constructor).
  pose proof (run_static _ _ _ _ E H) as Sx.
  assert (forall t p reply, In (EvExecute t p reply) new ->
            exists j snap,
              last_spec (id t) plan = Some j /\ t = SubTask_of_spec j /\
              In snap (history af) /\ deps_completed snap (spec_dependencies j) /\
              p = execution_prompt snap (SubTask_of_spec j)) as Disp.
  { intros t p reply Hin.
    destruct (run_dispatched a af plan out new _ E H Ev Hin)
      as (snap & t' & reply' & Hs & _ & H0 & Hr & [= <- -> _] & _);
      [now exists t, p, reply|].
    apply (In_tasks_get _ _ ND0) in H0. rewrite Reg in H0.
    destruct (last_spec (id t) plan) as [j|]; [|discriminate].
    injection H0 as H0. exists j, snap. split; [reflexivity|]. split; [now symmetry|].
    split; [assumption|]. apply is_ready_true in Hr. destruct Hr as [_ DC].
    rewrite <- H0. simpl. split; [|reflexivity].
    rewrite <- H0 in DC. exact DC. }
  assert (forall k j, last_spec k plan = Some j ->
            exists t, tasks_get (tasks af) k = Some t /\
                      description t = spec_description j /\
                      dependencies t = spec_dependencies j) as Kept.
  { intros k j L. pose proof (Reg k) as G0. rewrite L in G0. simpl in G0.
    destruct (static_get _ _ _ _ (eq_sym Sx) G0) as (t & G & S0).
    exists t. split; [assumption|]. unfold static in S0. simpl in S0.
    split; congruence. }
  split; [exact Reg|]. split; [|split; [|split; [|split; [|split; [|split; [|split; [|split]]]]]]].
  - intros t p reply Hin. destruct (Disp t p reply Hin) as (j & _ & L & Et & _).
    now exists j.
  - intros k t G.
    destruct (static_get _ _ _ _ Sx G) as (t0 & G0 & S0).
    rewrite Reg in G0. destruct (last_spec k plan) as [j|]; [|discriminate].
    injection G0 as <-. exists j. split; [reflexivity|].
    unfold static in S0. simpl in S0. split; congruence.
  - rewrite (static_ids _ _ Sx). exact ND0.
  - exact Kept.
  - intros k L. apply tasks_get_None. rewrite (static_ids _ _ Sx).
    apply tasks_get_None. rewrite Reg, L. reflexivity.
  - intros t p reply Hin. destruct (Disp t p reply Hin) as (j & snap & L & _ & R).
    now exists j, snap.
  - intros j1 j2 p reply Hj L Ne Hin.
    destruct (Disp _ _ _ Hin) as (j & _ & L' & Ej & _). simpl in L'.
    apply SubTask_of_spec_inj in Ej. congruence.
  - intros k t r G Rt. destruct (tasks_get_In _ _ _ G) as [Ht Ek].
    destruct (run_results_logged _ _ _ _ _ _ _ E H Ev Ht Rt) as (t0 & p & Hin & E0).
    destruct (Disp _ _ _ Hin) as (j & _ & L & Ej & _).
    exists j, p. split; [congruence|]. now rewrite <- Ej.
  - intros s ->.
    destruct (execute_plan_final _ _ _ _ E H) as (_ & a' & results & B & SC).
    destruct (base_events _ _ _ _ B) as (old & Eo & _ & Sd).
    assert (all_done (tasks a') = true /\
            synthesize_results llm_call json_dumps a' results = (af, Returned s)) as [D S].
    { destruct SC as [D S|e' D R _ [=]|D R F _ [=]|D R F P _ [=]|D R F P S
                     |ready replies e' D R NE L G' [=] T Ev' Hi W An]; [auto|].
      destruct (base_no_idle _ _ _ _ B D). congruence. }
    apply synthesize_spec in S. destruct S as (Et & _ & rp & Es & _).
    rewrite Es, Eo in Ev.
    change (EvSynthesize results rp :: old ++ events a)%list
      with ((EvSynthesize results rp :: old) ++ events a)%list in Ev.
    apply app_inv_tail in Ev. subst new.
    exists results, rp, old. split; [reflexivity|]. intros k j L.
    destruct (Kept k j L) as (t & G & _).
    destruct (tasks_get_In _ _ _ G) as [Ht Ek]. rewrite Et in Ht.
    pose proof (all_done_true _ D t Ht) as Sc.
    destruct (base_settled _ _ _ _ B t Ht) as [[Sp _]|(_ & r & Rt & Rg)]; [congruence|].
    destruct (Sd t r Ht Rt) as (t0 & p & Hin & E0).
    destruct (Disp t0 p (Text r)) as (j' & _ & L' & Ej & _); [now right|].
    exists p, r, t. split; [|split; [congruence|auto]].
    assert (j' = j) as <- by congruence. now rewrite <- Ej.
Qed.

(** ** C6: the dependency results handed to a worker *)

Lemma dependency_results_cons (ts : Tasks) (d : string) (deps : list string) :
  dependency_results ts (d :: deps) =
  ((if has_text ts d then [entry ts d] else []) ++ dependency_results ts deps)%list.
Proof.
  simpl. unfold has_text, entry, stored.
  destruct (tasks_get ts d) as [dt|]; simpl; [|reflexivity].
  destruct (result dt) as [r|]; simpl; [|reflexivity].
  now destruct (String.eqb r "").
Qed.

Lemma dependency_results_filter (ts : Tasks) (deps : list string) :
  dependency_results ts deps = map (entry ts) (filter (has_text ts) deps).
Proof.
  induction deps as [|d deps IH]; [reflexivity|].
  rewrite dependency_results_cons, IH. simpl.
  now destruct (has_text ts d).
Qed.

Lemma string_app_assoc (s1 s2 s3 : string) : ((s1 ++ s2) ++ s3 = s1 ++ (s2 ++ s3))%string.
Proof. induction s1 as [|c s1 IH]; simpl; [reflexivity|now rewrite IH]. Qed.

Lemma string_app_nil_r (s : string) : (s ++ "")%string = s.
Proof. induction s as [|c s IH]; simpl; [reflexivity|now rewrite IH]. Qed.

Lemma concat_In (sep x : string) (l : list string) :
  In x l -> exists pre post, String.concat sep l = (pre ++ x ++ post)%string.
Proof.
  induction l as [|y l IH]; [contradiction|]. intros [->|H].
  - destruct l as [|z l].
    + exists "", "". simpl. now rewrite string_app_nil_r.
    + exists "", (sep ++ String.concat sep (z :: l))%string. reflexivity.
  - destruct l as [|z l]; [contradiction|].
    destruct (IH H) as (pre & post & E).
    exists (y ++ sep ++ pre)%string, post.
    change (String.concat sep (y :: z :: l))
      with (y ++ sep ++ String.concat sep (z :: l))%string.
    rewrite E. now rewrite !string_app_assoc.
Qed.

Lemma worker_prompt_lines (d : string) (lines : list string) :
  exists head tail, worker_prompt d lines = (head ++ String.concat nl lines ++ tail)%string.
Proof.
  exists (nl ++ ind 8 ++ "Execute the following task:" ++
          nl ++ ind 8 ++ d ++
          nl ++ ind 8 ++
          nl ++ ind 8 ++ "If this task depends on other tasks, here are their results:" ++
          nl ++ ind 8)%string, (nl ++ ind 8)%string.
  unfold worker_prompt. now rewrite !string_app_assoc.
Qed.

Lemma execution_prompt_worker (ts : Tasks) (t : SubTask) :
  execution_prompt ts t =
  worker_prompt (description t) (map (entry ts) (filter (has_text ts) (dependencies t))).
Proof.
  unfold execution_prompt, worker_prompt, _get_dependency_results.
  now rewrite dependency_results_filter.
Qed.

(** C6, amended.  Every worker call of a run is a call of the model on a
    prompt built in the round in which the task was ready, from the task dict
    [snap] of that round.  There every dependency of the task is COMPLETED
    and has a stored result.  The prompt is the text that shows the
    description of the task and, in the order of the dependencies list, one
    line [id: result] for each listed id whose stored result is not the empty
    string; each such line is part of the prompt, and the dependencies whose
    stored result is empty have no line.  When no stored result is empty,
    that is one line for every listed id. *)
Theorem C6_dependency_results_view (a af : Agent) (plan : list TaskSpec) (out : Outcome)
        (new : list Event) (t : SubTask) (p : string) (reply : Reply) :
  tasks a = [] ->
  execute_plan llm_call json_dumps a (map SubTask_of_spec plan) = (af, out) ->
  events af = (new ++ events a)%list ->
  In (EvExecute t p reply) new ->
  exists snap,
    In snap (history af) /\ p = execution_prompt snap t /\
    (exists st st', llm_call st p = (st', reply)) /\
    p = worker_prompt (description t)
          (map (entry snap) (filter (has_text snap) (dependencies t))) /\
    (forall d, In d (dependencies t) ->
       exists dt r, tasks_get snap d = Some dt /\ status dt = COMPLETED /\
                    result dt = Some r /\
                    entry snap d = (d ++ ": " ++ r)%string /\
                    has_text snap d = negb (String.eqb r "") /\
                    (r <> "" ->
                     exists pre post, p = (pre ++ (d ++ ": " ++ r) ++ post)%string)) /\
    dependency_results snap (dependencies t) =
      map (entry snap) (filter (has_text snap) (dependencies t)) /\
    ((forall d, In d (dependencies t) -> stored snap d <> "") ->
     dependency_results snap (dependencies t) = spec_view snap (dependencies t) /\
     p = worker_prompt (description t) (spec_view snap (dependencies t))).
Proof.
  intros E H Ev Hin.
  destruct (run_dispatched a af plan out new _ E H Ev Hin)
    as (snap & t' & reply' & Hs & Ht & H0 & Hr & [= <- -> <-] & Rs & Cl);
    [now exists t, p, reply|].
  exists snap. split; [assumption|]. split; [reflexivity|].
  split; [exact Cl|]. split; [apply execution_prompt_worker|].
  assert ((forall d, In d (dependencies t) -> stored snap d <> "") ->
          filter (has_text snap) (dependencies t) = dependencies t) as All.
  { intros NE. clear -NE. induction (dependencies t) as [|d deps IH]; simpl; [reflexivity|].
    unfold has_text at 1.
    destruct (String.eqb_spec (stored snap d) "") as [Ee|Ne]; simpl.
    - exfalso. apply (NE d); auto. now left.
    - f_equal. apply IH. intros x Hx. apply NE. now right. }
  split; [|split; [apply dependency_results_filter|]].
  - apply is_ready_true in Hr. destruct Hr as [_ DC].
    intros d Hd. destruct (DC d Hd) as (dt & G & S).
    destruct (Rs dt) as (r & R); [now apply (tasks_get_In _ _ _ G)|assumption|].
    exists dt, r. split; [assumption|]. split; [assumption|]. split; [assumption|].
    assert (stored snap d = r) as Sr by (unfold stored; now rewrite G, R).
    split; [unfold entry; now rewrite Sr|].
    split; [unfold has_text; now rewrite Sr|].
    intros Nr. rewrite execution_prompt_worker.
    destruct (worker_prompt_lines (description t)
                (map (entry snap) (filter (has_text snap) (dependencies t))))
      as (head & tail & ->).
    assert (In (d ++ ": " ++ r)%string
               (map (entry snap) (filter (has_text snap) (dependencies t)))) as Hl.
    { apply in_map_iff. exists d. split; [unfold entry; now rewrite Sr|].
      apply filter_In. split; [assumption|]. unfold has_text. rewrite Sr.
      now destruct (String.eqb_spec r ""). }
    destruct (concat_In nl _ _ Hl) as (pre & post & ->).
    exists (head ++ pre)%string, (post ++ tail)%string.
    now rewrite !string_app_assoc.
  - intros NE. split.
    + rewrite dependency_results_filter. unfold spec_view. now rewrite (All NE).
    + rewrite execution_prompt_worker. unfold spec_view. now rewrite (All NE).
Qed.

(** ** C7: how many tasks are IN_PROGRESS at once *)

Lemma ready_among_incl (ts : Tasks) (l ready : list SubTask) :
  ready_among ts l = inr ready -> incl ready l.
Proof.
  intros H t Ht. now apply (ready_among_In _ _ _ t H) in Ht.
Qed.

Lemma ready_among_count (ts : Tasks) (l ready : list SubTask) :
  NoDup (ids l) -> ready_among ts l = inr ready ->
  length (filter (fun t => mem (id t) (ids ready)) l) = length ready.
Proof.
  revert ready. induction l as [|u l IH]; simpl; intros ready ND H.
  - now injection H as <-.
  - destruct (is_ready ts u) as [e|b] eqn:R; [discriminate|].
    destruct (ready_among ts l) as [e|r] eqn:A; [discriminate|].
    injection H as <-. inversion ND as [|? ? Hnotin ND']; subst.
    specialize (IH r ND' eq_refl).
    assert (mem (id u) (ids r) = false) as Mu.
    { apply mem_false. intros Hin. apply Hnotin.
      apply in_map_iff in Hin. destruct Hin as (x & <- & Hx).
      apply In_ids. now apply (ready_among_incl _ _ _ A). }
    destruct b; simpl.
    + rewrite String.eqb_refl. simpl. f_equal. rewrite <- IH.
      f_equal. apply filter_ext_in. intros t Ht.
      destruct (String.eqb_spec (id t) (id u)) as [Eq|Ne]; [|reflexivity].
      exfalso. apply Hnotin. rewrite <- Eq. now apply In_ids.
    + now rewrite Mu.
Qed.

Lemma in_progress_count_marked (p : string -> bool) (l : Tasks) :
  (forall t, In t l -> status t <> IN_PROGRESS) ->
  in_progress_count (map (upd_if p (with_status IN_PROGRESS)) l) =
  length (filter (fun t => p (id t)) l).
Proof.
  unfold in_progress_count. induction l as [|u l IH]; simpl; intros NI; [reflexivity|].
  assert (forall t, In t l -> status t <> IN_PROGRESS) as NI'
      by (intros t Ht; apply NI; now right).
  unfold upd_if at 1. destruct (p (id u)); simpl; [f_equal; now apply IH|].
  destruct (status_eqb (status u) IN_PROGRESS) eqn:S; [|now apply IH].
  apply status_eqb_eq in S. exfalso. apply (NI u); auto.
Qed.

(** Marking puts every ready task IN_PROGRESS at once, whatever their
    number. *)
Lemma mark_in_progress_count (a : Agent) (ready : list SubTask) :
  NoDup (ids (tasks a)) ->
  (forall t, In t (tasks a) -> status t <> IN_PROGRESS) ->
  ready_tasks (tasks a) = inr ready ->
  in_progress_count (tasks (mark_in_progress a ready)) = length ready.
Proof.
  intros ND NI R. rewrite tasks_mark_in_progress by assumption.
  rewrite <- (ready_among_count _ _ _ ND R).
  now apply in_progress_count_marked.
Qed.

(** ** C8: what the cycle error carries *)

Lemma run_cycle_error (a af : Agent) (plan : list TaskSpec) :
  tasks a = [] ->
  execute_plan llm_call json_dumps a (map SubTask_of_spec plan)
    = (af, Raised (Exception "Dependency cycle detected")) ->
  pending_ids (tasks af) <> [] /\
  ready_tasks (tasks af) = inr [] /\
  forall t, In t (tasks af) -> status t = PENDING \/ status t = COMPLETED.
Proof.
  intros E H.
  destruct (execute_plan_final _ _ _ _ E H) as (_ & a' & results & B & SC).
  destruct (stop_case_tasks_same _ _ _ _ SC) as [T _]; [auto|].
  rewrite T.
  assert (forall u, In u (tasks a') -> status u = PENDING \/ status u = COMPLETED) as St.
  { intros u Hu. apply (settled_cases results). now apply (base_settled _ _ _ _ B). }
  destruct SC as [D S|e D R Ea Eo|D R F Ea Eo|D R F P Ea Eo|D R F P S
                 |ready replies e D R NE L G Eo T' Ev' Hi W An].
  - apply synthesize_spec in S. destruct S as (_ & _ & rp & _ & O).
    destruct rp; discriminate.
  - exfalso. injection Eo as <-. unfold ready_tasks in R. clear -R.
    assert (forall l, ready_among (tasks a') l <>
                      inl (Exception "Dependency cycle detected")) as N.
    { induction l as [|u l IH]; simpl; [discriminate|].
      unfold is_ready. destruct (status_eqb (status u) PENDING).
      - assert (forall deps, all_completed (tasks a') deps <>
                             inl (Exception "Dependency cycle detected")) as N'.
        { induction deps as [|d deps IHd]; simpl; [discriminate|].
          destruct (tasks_get (tasks a') d); [|discriminate].
          destruct (status_eqb _ _); [assumption|discriminate]. }
        destruct (all_completed (tasks a') (dependencies u)) eqn:AC;
          [intros [= ->]; now apply (N' (dependencies u))|].
        destruct (ready_among (tasks a') l); [assumption|discriminate].
      - destruct (ready_among (tasks a') l); [assumption|discriminate]. }
    now apply (N (tasks a')).
  - discriminate.
  - split; [|split; assumption].
    apply existsb_exists in P. destruct P as (t & Ht & S).
    unfold pending_ids. intros N. apply map_eq_nil in N.
    assert (In t (filter pendingb (tasks a'))) as Hf by (apply filter_In; auto).
    rewrite N in Hf. contradiction.
  - apply synthesize_spec in S. destruct S as (_ & _ & rp & _ & O).
    destruct rp; discriminate.
  - exfalso. destruct (gathered_first_failure _ _ G) as (pre & Y & m & post & _ & _ & ->).
    discriminate.
Qed.

(** ** More on how a run ends *)

Lemma last_spec_None (k : string) (plan : list TaskSpec) :
  last_spec k plan = None <-> ~ In k (map spec_id plan).
Proof.
  induction plan as [|j rest IH]; simpl; [tauto|].
  destruct (last_spec k rest) as [j'|].
  - split; [discriminate|]. intros N. exfalso.
    assert (Some j' = None) as Z by (apply IH; tauto). discriminate Z.
  - destruct (String.eqb_spec (spec_id j) k) as [E|N].
    + split; [discriminate|]. tauto.
    + split; [|reflexivity]. intros _ [H|H]; [contradiction|].
      now apply (proj1 IH).
Qed.

Lemma ids_register (plan : list TaskSpec) (k : string) :
  In k (ids (register [] (map SubTask_of_spec plan))) <-> In k (map spec_id plan).
Proof.
  split.
  - intros H. destruct (in_dec string_dec k (map spec_id plan)) as [i|n]; [assumption|].
    apply last_spec_None in n.
    pose proof (tasks_get_register plan [] k) as G. rewrite n in G. simpl in G.
    apply tasks_get_None in G. contradiction.
  - intros H. destruct (tasks_get (register [] (map SubTask_of_spec plan)) k) eqn:G.
    + now apply tasks_get_Some_ids with s.
    + rewrite tasks_get_register in G.
      destruct (last_spec k plan) eqn:L; [discriminate|].
      apply last_spec_None in L. contradiction.
Qed.

(** X1.  A run from an agent with an empty task dict ends in one of five
    ways, and in no other: it returns the synthesis; the synthesis call
    raises; the readiness computation raises [KeyError] for an id that some
    planned task lists and no planned task has; the cycle check raises; or a
    worker call fails and the exception names a planned task.  The exception
    of line 123 is never raised. *)
Theorem X1_ways_a_run_ends (a af : Agent) (plan : list TaskSpec) (out : Outcome) :
  tasks a = [] ->
  execute_plan llm_call json_dumps a (map SubTask_of_spec plan) = (af, out) ->
  ((exists s, out = Returned s) \/
   (exists m, out = Raised (LLMError m)) \/
   (exists k j, out = Raised (KeyError k) /\ In j plan /\
                In k (spec_dependencies j) /\ ~ In k (map spec_id plan)) \/
   out = Raised (Exception "Dependency cycle detected") \/
   (exists j m, In j plan /\
                out = Raised (Exception ("Failed to execute task " ++ spec_id j ++ ": " ++ m))))
  /\ out <> Raised (Exception "Task execution failed").
Proof.
  intros E H.
  destruct (execute_plan_final _ _ _ _ E H) as (_ & a' & results & B & SC).
  pose proof (base_static _ _ _ _ B) as Sx.
  pose proof (base_nodup _ _ _ _ B) as ND.
  assert (forall t, In t (tasks a') -> status t = PENDING ->
            exists j, In j plan /\ t = SubTask_of_spec j) as Planned.
  { intros t Ht St.
    assert (In t (register [] (map SubTask_of_spec plan))) as H0.
    { apply (static_In (tasks a')); try assumption; [apply fresh_register|].
      destruct (base_settled _ _ _ _ B t Ht) as [[_ R]|[S' _]]; [assumption|congruence]. }
    apply register_In in H0. destruct H0 as [[]|H0].
    apply in_map_iff in H0. destruct H0 as (j & <- & Hj). now exists j. }
  destruct SC as [D S|e D R -> ->|D R F -> ->|D R F P -> ->|D R F P S
                 |ready replies e D R NE L G -> T Ev' Hi W An].
  - apply synthesize_spec in S. destruct S as (_ & _ & rp & _ & ->).
    destruct rp; (split; [|discriminate]); [left|right; left]; eauto.
  - destruct (ready_among_error _ _ _ R) as (t & k & Ht & St & Hk & Gk & ->).
    split; [|discriminate]. right. right. left.
    destruct (Planned t Ht St) as (j & Hj & ->).
    exists k, j. repeat split; auto.
    rewrite <- ids_register, <- (static_ids _ _ Sx). now apply tasks_get_None.
  - exfalso. destruct (base_no_idle _ _ _ _ B D). congruence.
  - split; [|discriminate]. tauto.
  - exfalso. destruct (base_no_idle _ _ _ _ B D). congruence.
  - destruct (gathered_first_failure _ _ G) as (pre & Y & m & post & Z & _ & ->).
    split; [|discriminate]. right. right. right. right.
    assert (In Y ready) as HY.
    { apply (In_zip_fst _ _ ready replies (Y, Raises m)). rewrite Z.
      apply in_or_app. right. now left. }
    apply (ready_tasks_spec _ _ ND R) in HY. destruct HY as (HY & SY & _).
    destruct (Planned Y HY SY) as (j & Hj & ->). now exists j, m.
Qed.

(** When the aggregator is called in a run on planned subtasks. *)
Lemma synthesis_only_when_all_completed
        (a af : Agent) (plan : list TaskSpec) (out : Outcome)
        (new : list Event) (results : Results) (reply : Reply) :
  tasks a = [] ->
  execute_plan llm_call json_dumps a (map SubTask_of_spec plan) = (af, out) ->
  events af = (new ++ events a)%list ->
  In (EvSynthesize results reply) new ->
  (forall t, In t (tasks af) ->
     status t = COMPLETED /\
     exists r, result t = Some r /\ results_get results (id t) = Some r) /\
  (forall k, In k (map fst results) <-> In k (map spec_id plan)) /\
  exists dispatches,
    new = EvSynthesize results reply :: dispatches /\
    forall e, In e dispatches -> succeeded e.
Proof.
  intros E H Ev Hin.
  destruct (execute_plan_final _ _ _ _ E H) as (_ & a' & res & B & SC).
  destruct (base_events _ _ _ _ B) as (old & En & Dn & _).
  assert (forall e, In e old -> succeeded e) as So by (intros e He; now apply Dn).
  assert (~ In (EvSynthesize results reply) old) as NS.
  { intros Hs. destruct (So _ Hs) as (t & q & r & [=]). }
  assert (forall (S : synthesize_results llm_call json_dumps a' res = (af, out)),
            all_done (tasks a') = true ->
            (forall t, In t (tasks af) ->
               status t = COMPLETED /\
               exists r, result t = Some r /\ results_get results (id t) = Some r) /\
            (forall k, In k (map fst results) <-> In k (map spec_id plan)) /\
            exists dispatches,
              new = EvSynthesize results reply :: dispatches /\
              forall e, In e dispatches -> succeeded e) as Done.
  { intros S D. apply synthesize_spec in S. destruct S as (T & _ & rp & Es & _).
    rewrite Es, En in Ev.
    change (EvSynthesize res rp :: old ++ events a)%list
      with ((EvSynthesize res rp :: old) ++ events a)%list in Ev.
    apply app_inv_tail in Ev. subst new.
    destruct Hin as [[= -> ->]|Hin]; [|contradiction].
    pose proof (all_done_true _ D) as AD. rewrite T. split; [|split].
    - intros t Ht. split; [now apply AD|].
      destruct (base_settled _ _ _ _ B t Ht) as [[S _]|(_ & r & Rt & G)];
        [rewrite (AD t Ht) in S; discriminate|eauto].
    - intros k. rewrite <- ids_register, <- (static_ids _ _ (base_static _ _ _ _ B)).
      split.
      + intros Hk. destruct (base_results _ _ _ _ B k Hk) as (t & G & _).
        now apply tasks_get_Some_ids with t.
      + intros Hk. apply in_map_iff in Hk. destruct Hk as (t & <- & Ht).
        destruct (base_settled _ _ _ _ B t Ht) as [[S _]|(_ & r & _ & G)];
          [rewrite (AD t Ht) in S; discriminate|].
        destruct (in_dec string_dec (id t) (map fst results)) as [i|n]; [assumption|].
        apply results_get_None in n. congruence.
    - exists old. auto. }
  destruct SC as [D S|e D R -> ->|D R F -> ->|D R F P -> ->|D R F P S
                 |ready replies e D R NE L G -> T Ev' Hi W An].
  - now apply Done.
  - exfalso. rewrite En in Ev. apply app_inv_tail in Ev. now subst new.
  - exfalso. rewrite En in Ev. apply app_inv_tail in Ev. now subst new.
  - exfalso. rewrite En in Ev. apply app_inv_tail in Ev. now subst new.
  - exfalso. destruct (base_no_idle _ _ _ _ B D). congruence.
  - exfalso. rewrite Ev', En, app_assoc in Ev. apply app_inv_tail in Ev. subst new.
    apply in_app_or in Hin. destruct Hin as [Hin|Hin]; [|contradiction].
    apply in_rev, in_map_iff in Hin. destruct Hin as (p & [=] & _).
Qed.

(** What a run on planned subtasks that returns says of the plan. *)
Lemma returning_run_had_a_dag (a af : Agent) (plan : list TaskSpec) (s : string) :
  tasks a = [] ->
  execute_plan llm_call json_dumps a (map SubTask_of_spec plan) = (af, Returned s) ->
  no_dangling (register [] (map SubTask_of_spec plan)) /\
  acyclic (register [] (map SubTask_of_spec plan)).
Proof.
  intros E H.
  set (ts0 := register [] (map SubTask_of_spec plan)) in *.
  destruct (execute_plan_final_with (cycles_pending ts0) a af plan (Returned s))
    as (_ & a' & results & B & Q & SC); try assumption.
  { intros x r x' r'. apply cycles_pending_keep. }
  { intros k' t' _ G. apply tasks_get_In in G. destruct G as [G _].
    now apply (fresh_register plan). }
  pose proof (base_static _ _ _ _ B) as Sx.
  assert (all_done (tasks a') = true) as D.
  { destruct SC as [D S|e D R _ [=]|D R F _ [=]|D R F P _ [=]|D R F P S
                   |ready replies e D R NE L G [=] T Ev' Hi W An]; [assumption|].
    destruct (base_no_idle _ _ _ _ B D). congruence. }
  pose proof (all_done_true _ D) as AD. split.
  - subst ts0. intros t0 d H0 Hd. rewrite <- (static_ids _ _ Sx).
    apply (in_map static) in H0. rewrite <- Sx in H0. apply in_map_iff in H0.
    destruct H0 as (t & St & Ht).
    assert (dependencies t = dependencies t0) as Ed by (unfold static in St; congruence).
    rewrite <- Ed in Hd.
    destruct (base_closed _ _ _ _ B t Ht (AD t Ht) d Hd) as (dt & G & _).
    now apply tasks_get_Some_ids with dt.
  - subst ts0. intros k C.
    destruct (cycle_successor _ _ C) as (d & (t0 & G0 & _) & _).
    destruct (static_get _ _ _ _ (eq_sym Sx) G0) as (t & G & _).
    pose proof (Q k t C G) as P. destruct (tasks_get_In _ _ _ G) as [Ht _].
    rewrite (AD t Ht) in P. discriminate.
Qed.

(** ** The fuel of the model does not matter *)

Lemma schedule_fuel_irrelevant (ts0 : Tasks) (evs0 : list Event) (f1 f2 : nat)
      (a : Agent) (results : Results) :
  fresh ts0 -> Base ts0 evs0 a results ->
  pending_count (tasks a) < f1 -> pending_count (tasks a) < f2 ->
  schedule llm_call json_dumps f1 a results = schedule llm_call json_dumps f2 a results.
Proof.
  intros F. revert f2 a results. induction f1 as [|f1 IH]; intros f2 a results B L1 L2; [lia|].
  destruct f2 as [|f2]; [lia|]. simpl.
  destruct (iteration llm_call json_dumps a results) as [a' results'|a' o] eqn:I;
    [|reflexivity].
  pose proof (iteration_decreases _ _ _ _ _ _ B I).
  apply IH; [now apply (base_keep ts0 evs0 a a' results results')|lia|lia].
Qed.

(** X4.  The loop of [execute_task] always terminates, whatever the plan and
    whatever the model answers: one pass per registered task and one more
    are enough, so that every larger bound on the number of passes gives the
    same agent and the same outcome, which is a return or an exception. *)
Theorem X4_loop_terminates (a : Agent) (plan : list TaskSpec) (fuel : nat) :
  tasks a = [] ->
  length (register [] (map SubTask_of_spec plan)) < fuel ->
  schedule llm_call json_dumps fuel
    (mkAgent (register [] (map SubTask_of_spec plan)) (llm a) (events a)
             [register [] (map SubTask_of_spec plan)]) []
  = execute_plan llm_call json_dumps a (map SubTask_of_spec plan) /\
  ((exists s, snd (execute_plan llm_call json_dumps a (map SubTask_of_spec plan))
              = Returned s) \/
   (exists e, snd (execute_plan llm_call json_dumps a (map SubTask_of_spec plan))
              = Raised e)).
Proof.
  intros E L.
  set (ts0 := register [] (map SubTask_of_spec plan)) in *.
  assert (fresh ts0) as F by apply fresh_register.
  assert (NoDup (ids ts0)) as ND by (apply NoDup_register; constructor).
  pose proof (base_init ts0 (events a) (llm a) ND F) as B.
  pose proof (pending_count_le_length ts0) as PL.
  split.
  - unfold execute_plan. rewrite E. fold ts0.
    apply (schedule_fuel_irrelevant ts0 (events a)); simpl; try assumption; lia.
  - destruct (execute_plan llm_call json_dumps a (map SubTask_of_spec plan))
      as [af out] eqn:H.
    destruct (execute_plan_final _ _ _ _ E H) as (NF & _). simpl.
    destruct out; [left|right|contradiction]; eauto.
Qed.

(** ** The log and the task dict *)

Lemma called_ids_app (l1 l2 : list Event) :
  called_ids (l1 ++ l2) = (called_ids l1 ++ called_ids l2)%list.
Proof. apply flat_map_app. Qed.

Lemma called_ids_rev (l : list Event) : called_ids (rev l) = rev (called_ids l).
Proof.
  induction l as [|e l IH]; simpl; [reflexivity|].
  rewrite called_ids_app, IH. destruct e; simpl; try apply app_nil_r. reflexivity.
Qed.

Lemma called_ids_zip (ready : list SubTask) (replies : list Reply)
      (prompt : SubTask -> string) :
  length replies = length ready ->
  called_ids (map (fun p => EvExecute (fst p) (prompt (fst p)) (snd p)) (zip ready replies))
  = ids ready.
Proof.
  revert replies. induction ready as [|t ready IH]; intros [|r replies]; simpl;
    try discriminate; [reflexivity|].
  intros [= L]. f_equal. now apply IH.
Qed.

Lemma answered_in_app (l1 l2 : list Event) (d : string) :
  answered_in l2 d -> answered_in (l1 ++ l2) d.
Proof.
  intros (t & p & r & H & E). exists t, p, r. split; [|assumption].
  apply in_or_app. now right.
Qed.

Lemma deps_first_app (batch old : list Event) :
  (forall e, In e batch -> deps_answered old e) ->
  deps_first old -> deps_first (batch ++ old).
Proof.
  intros H O. induction batch as [|e batch IH]; simpl; [assumption|]. split.
  - pose proof (H e (or_introl eq_refl)) as He.
    destruct e; simpl in *; try exact I.
    intros d Hd. apply answered_in_app. now apply He.
  - apply IH. intros e' He'. apply H. now right.
Qed.

Lemma deps_first_split (newer older : list Event) (e : Event) :
  deps_first (newer ++ e :: older) -> deps_answered older e.
Proof.
  induction newer as [|x newer IH]; simpl; intros [H1 H2]; [assumption|now apply IH].
Qed.

(** The calls of one batch, put before the log of a loop head. *)
Lemma logged_batch (ts0 : Tasks) (evs0 : list Event) (a : Agent) (results : Results)
      (new : list Event) (ready : list SubTask) (replies : list Reply) :
  Base ts0 evs0 a results ->
  events a = (new ++ evs0)%list ->
  NoDup (called_ids new) ->
  (forall k, In k (called_ids new) ->
     exists u, tasks_get (tasks a) k = Some u /\ status u = COMPLETED) ->
  deps_first new ->
  ready_tasks (tasks a) = inr ready -> length replies = length ready ->
  let batch :=
    rev (map (fun p => EvExecute (fst p) (execution_prompt (tasks a) (fst p)) (snd p))
             (zip ready replies)) in
  called_ids (batch ++ new) = (rev (ids ready) ++ called_ids new)%list /\
  NoDup (called_ids (batch ++ new)) /\
  deps_first (batch ++ new) /\
  (forall k, In k (called_ids new) -> ~ In k (ids ready)).
Proof.
  intros B Ev NDn Cn Df R L batch.
  pose proof (base_nodup _ _ _ _ B) as ND.
  destruct (ready_tasks_spec _ _ ND R) as [NR RS].
  assert (called_ids (batch ++ new) = (rev (ids ready) ++ called_ids new)%list) as Ec.
  { unfold batch. rewrite called_ids_app, called_ids_rev.
    now rewrite (called_ids_zip ready replies (execution_prompt (tasks a)) L). }
  assert (forall k, In k (called_ids new) -> ~ In k (ids ready)) as Dj.
  { intros k Hk Hr. destruct (Cn k Hk) as (u & G & Su).
    apply in_map_iff in Hr. destruct Hr as (t & <- & Ht).
    apply RS in Ht. destruct Ht as (Ht & St & _).
    rewrite (In_tasks_get _ _ ND Ht) in G. injection G as <-. congruence. }
  split; [assumption|]. split; [|split; [|assumption]].
  - rewrite Ec. apply NoDup_app; [now apply NoDup_rev|assumption|].
    intros k Hk Hn. apply in_rev in Hk. now apply (Dj k).
  - apply deps_first_app; [|assumption].
    intros e He. unfold batch in He. apply in_rev, in_map_iff in He.
    destruct He as ([t rep] & <- & Hp). simpl. intros d Hd.
    pose proof (In_zip_fst _ _ _ _ _ Hp) as Hr. simpl in Hr.
    apply RS in Hr. destruct Hr as (Ht & St & DC).
    destruct (DC d Hd) as (dt & G & Sd).
    destruct (tasks_get_In _ _ _ G) as [Hdt Ed].
    destruct (base_settled _ _ _ _ B dt Hdt) as [[Sp _]|(_ & r & Rd & _)]; [congruence|].
    destruct (base_events _ _ _ _ B) as (new' & Ev' & _ & Sd').
    rewrite Ev in Ev'. apply app_inv_tail in Ev'. subst new'.
    destruct (Sd' dt r Hdt Rd) as (t0 & p & Hin & E0).
    exists t0, p, r. split; [assumption|congruence].
Qed.

Lemma logged_init (ts0 : Tasks) (evs0 : list Event) (st : LLM) :
  Logged evs0 (mkAgent ts0 st evs0 [ts0]).
Proof.
  exists []. simpl. split; [reflexivity|]. split; [constructor|].
  split; [intros k []|exact I].
Qed.

Lemma logged_keep (ts0 : Tasks) (evs0 : list Event) (a a' : Agent)
      (results results' : Results) :
  Base ts0 evs0 a results -> Logged evs0 a ->
  iteration llm_call json_dumps a results = Continue a' results' ->
  Logged evs0 a'.
Proof.
  intros B (new & Ev & NDn & Cn & Df) H.
  pose proof (base_nodup _ _ _ _ B) as ND.
  assert (forall u, In u (tasks a) -> status u = PENDING -> result u = None) as PN.
  { intros u Hu S. destruct (base_settled _ _ _ _ B u Hu) as [[_ R]|[S' _]];
      [assumption|congruence]. }
  destruct (iteration_Continue _ _ _ _ ND (base_hist _ _ _ _ B) PN H)
    as (ready & rs & D & R & NE & L & T & RG & E & Hi & W' & An).
  destruct (ready_tasks_spec _ _ ND R) as [NR RS].
  assert (length (map Text rs) = length ready) as L' by now rewrite length_map.
  destruct (logged_batch _ _ _ _ new ready (map Text rs) B Ev NDn Cn Df R L')
    as (Ec & NDc & Dfc & Dj).
  rewrite (map_zip_Text _ (fun t rep => EvExecute t (execution_prompt (tasks a) t) rep))
    in Ec, NDc, Dfc.
  exists (rev (map (fun p => EvExecute (fst p) (execution_prompt (tasks a) (fst p))
                                       (Text (snd p))) (zip ready rs)) ++ new)%list.
  split; [now rewrite E, Ev, app_assoc|]. split; [assumption|]. split; [|assumption].
  intros k Hk. rewrite Ec in Hk. rewrite T, tasks_get_map by apply id_complete_with.
  apply in_app_or in Hk. destruct Hk as [Hk|Hk].
  - apply in_rev, in_map_iff in Hk. destruct Hk as (t & <- & Ht).
    pose proof (proj1 (RS t) Ht) as (Hin & _).
    rewrite (In_tasks_get _ _ ND Hin). simpl. eexists. split; [reflexivity|].
    pose proof (assoc_result_ready _ _ _ _ ND R L Hin) as AR. unfold complete_with.
    destruct (assoc_result (id t) (zip ready rs)); [reflexivity|contradiction].
  - destruct (Cn k Hk) as (u & -> & Su). simpl. eexists. split; [reflexivity|].
    unfold complete_with. destruct (assoc_result (id u) (zip ready rs)); [reflexivity|assumption].
Qed.

(** Where a run from an empty dict stops: a loop head satisfying both
    invariants. *)
Lemma execute_plan_logged (a af : Agent) (plan : list TaskSpec) (out : Outcome) :
  tasks a = [] ->
  execute_plan llm_call json_dumps a (map SubTask_of_spec plan) = (af, out) ->
  exists a' results',
    Base (register [] (map SubTask_of_spec plan)) (events a) a' results' /\
    Logged (events a) a' /\ stop_case a' results' af out.
Proof.
  intros E H. unfold execute_plan in H. rewrite E in H.
  set (ts0 := register [] (map SubTask_of_spec plan)) in *.
  assert (fresh ts0) as F by apply fresh_register.
  assert (NoDup (ids ts0)) as ND by (apply NoDup_register; constructor).
  pose proof (base_init ts0 (events a) (llm a) ND F) as B.
  assert (out <> OutOfFuel) as NF.
  { pose proof (schedule_total ts0 (events a) (S (length ts0)) _ [] F B) as T.
    rewrite H in T. apply T. simpl.
    pose proof (pending_count_le_length ts0). lia. }
  destruct (schedule_rule (fun x r => Base ts0 (events a) x r /\ Logged (events a) x))
    with (2 := conj B (logged_init ts0 (events a) (llm a))) (3 := H)
    as [->|(a' & results' & [B' Q'] & I)].
  - intros x r x' r' [Bx Qx] I. split.
    + now apply (base_keep ts0 (events a) x x' r r').
    + now apply (logged_keep ts0 (events a) x x' r r').
  - congruence.
  - exists a', results'. split; [assumption|]. split; [assumption|].
    apply iteration_Stop; [apply B'|apply B'|assumption].
Qed.

(** The worker calls that a run adds to the log, whatever way it ends. *)
Lemma run_log (a af : Agent) (plan : list TaskSpec) (out : Outcome) (new : list Event) :
  tasks a = [] ->
  execute_plan llm_call json_dumps a (map SubTask_of_spec plan) = (af, out) ->
  events af = (new ++ events a)%list ->
  NoDup (called_ids new) /\ deps_first new /\
  incl (called_ids new) (ids (register [] (map SubTask_of_spec plan))).
Proof.
  intros E H Ev.
  destruct (execute_plan_logged _ _ _ _ E H) as (a' & results & B & (old & Eo & NDo & Co & Do) & SC).
  pose proof (base_nodup _ _ _ _ B) as ND.
  assert (incl (called_ids old) (ids (register [] (map SubTask_of_spec plan)))) as Io.
  { intros k Hk. destruct (Co k Hk) as (u & G & _).
    rewrite <- (static_ids _ _ (base_static _ _ _ _ B)). now apply tasks_get_Some_ids with u. }
  destruct SC as [D S|e D R -> ->|D R F -> ->|D R F P -> ->|D R F P S
                 |ready replies e D R NE L G -> T Ev' Hi W An].
  1,5: apply synthesize_spec in S; destruct S as (_ & _ & rp & Es & _);
       rewrite Es, Eo in Ev;
       change (EvSynthesize results rp :: old ++ events a)%list
         with ((EvSynthesize results rp :: old) ++ events a)%list in Ev;
       apply app_inv_tail in Ev; subst new; simpl; auto.
  1-3: rewrite Eo in Ev; apply app_inv_tail in Ev; subst new; auto.
  destruct (logged_batch _ _ _ _ old ready replies B Eo NDo Co Do R L) as (Ec & NDc & Dfc & _).
  rewrite Ev', Eo, app_assoc in Ev. apply app_inv_tail in Ev. subst new.
  split; [assumption|]. split; [assumption|].
  rewrite Ec. intros k Hk. apply in_app_or in Hk. destruct Hk as [Hk|Hk]; [|now apply Io].
  apply in_rev, in_map_iff in Hk. destruct Hk as (t & <- & Ht).
  destruct (ready_tasks_spec _ _ ND R) as [_ RS]. apply RS in Ht. destruct Ht as (Ht & _).
  rewrite <- (static_ids _ _ (base_static _ _ _ _ B)). now apply In_ids.
Qed.

(** X5.  In a run from an agent with an empty task dict no task is handed to
    a worker twice: the ids of the logged worker calls are pairwise distinct
    and are ids of the plan, so that the run makes at most one worker call
    per planned subtask. *)
Theorem X5_each_task_called_at_most_once
        (a af : Agent) (plan : list TaskSpec) (out : Outcome) (new : list Event) :
  tasks a = [] ->
  execute_plan llm_call json_dumps a (map SubTask_of_spec plan) = (af, out) ->
  events af = (new ++ events a)%list ->
  NoDup (called_ids new) /\
  incl (called_ids new) (map spec_id plan) /\
  length (called_ids new) <= length plan.
Proof.
  intros E H Ev. destruct (run_log _ _ _ _ _ E H Ev) as (ND & _ & I).
  assert (incl (called_ids new) (map spec_id plan)) as I'.
  { intros k Hk. now apply ids_register, I. }
  split; [assumption|]. split; [assumption|].
  rewrite <- (length_map spec_id plan). now apply NoDup_incl_length.
Qed.

(** X6.  In a run from an agent with an empty task dict a worker is called
    for a task only after a worker call has returned text for each of the
    task's dependencies: in the log, every worker call is preceded by such a
    call for every id of its task's dependencies list. *)
Theorem X6_workers_called_after_their_dependencies
        (a af : Agent) (plan : list TaskSpec) (out : Outcome)
        (newer older : list Event) (t : SubTask) (p : string) (reply : Reply) :
  tasks a = [] ->
  execute_plan llm_call json_dumps a (map SubTask_of_spec plan) = (af, out) ->
  events af = ((newer ++ EvExecute t p reply :: older) ++ events a)%list ->
  forall d, In d (dependencies t) ->
    exists t0 p0 r0, In (EvExecute t0 p0 (Text r0)) older /\ id t0 = d.
Proof.
  intros E H Ev. destruct (run_log _ _ _ _ _ E H Ev) as (_ & Df & _).
  exact (deps_first_split _ _ _ Df).
Qed.

Lemma failed_ids_In (ready : list SubTask) (replies : list Reply) (k : string) :
  In k (failed_ids ready (map (fun p => outcome_of (fst p) (snd p)) (zip ready replies))) ->
  exists X msg, In (X, Raises msg) (zip ready replies) /\ id X = k.
Proof.
  revert replies. induction ready as [|t ready IH]; intros [|rep replies]; simpl;
    try contradiction.
  destruct rep as [r|m]; simpl.
  - intros H. destruct (IH _ H) as (X & msg & Hin & E). exists X, msg. auto.
  - intros [<-|H].
    + exists t, m. auto.
    + destruct (IH _ H) as (X & msg & Hin & E). exists X, msg. auto.
Qed.

Lemma zip_In_fst (B : Type) (l : list SubTask) (m : list B) (t : SubTask) :
  length m = length l -> In t l -> exists b, In (t, b) (zip l m).
Proof.
  revert m. induction l as [|u l IH]; intros [|b m]; simpl; try discriminate;
    try contradiction.
  intros [= L] [->|H].
  - exists b. now left.
  - destruct (IH m L H) as (b' & Hb). exists b'. now right.
Qed.

(** The status of a task and the log at the end of a run on planned
    subtasks. *)
Lemma final_status_and_log
        (a af : Agent) (plan : list TaskSpec) (out : Outcome) (new : list Event)
        (t : SubTask) :
  tasks a = [] ->
  execute_plan llm_call json_dumps a (map SubTask_of_spec plan) = (af, out) ->
  events af = (new ++ events a)%list ->
  In t (tasks af) ->
  match status t with
  | PENDING => result t = None /\ ~ In (id t) (called_ids new)
  | COMPLETED =>
      exists r, result t = Some r /\
                exists t0 p, In (EvExecute t0 p (Text r)) new /\ id t0 = id t
  | FAILED =>
      result t = None /\
      (exists t0 p m, In (EvExecute t0 p (Raises m)) new /\ id t0 = id t) /\
      exists k m, out = Raised (Exception ("Failed to execute task " ++ k ++ ": " ++ m))
  | IN_PROGRESS =>
      result t = None /\
      (exists t0 p r, In (EvExecute t0 p (Text r)) new /\ id t0 = id t) /\
      exists k m, out = Raised (Exception ("Failed to execute task " ++ k ++ ": " ++ m))
  end.
Proof.
  intros E H Ev Hin.
  destruct (execute_plan_logged _ _ _ _ E H)
    as (a' & results & B & (old & Eo & NDo & Co & Do) & SC).
  pose proof (base_nodup _ _ _ _ B) as ND.
  destruct (base_events _ _ _ _ B) as (old' & Eo' & _ & Sd).
  rewrite Eo in Eo'. apply app_inv_tail in Eo'. subst old'.
  (* a task of the loop head, seen from a log that extends the one of the
     loop head and calls no further PENDING task *)
  assert (forall u more, In u (tasks a') ->
            (status u = PENDING -> ~ In (id u) (called_ids more)) ->
            match status u with
            | PENDING => result u = None /\ ~ In (id u) (called_ids (more ++ old))
            | COMPLETED =>
                exists r, result u = Some r /\
                          exists t0 p, In (EvExecute t0 p (Text r)) (more ++ old)%list /\
                                       id t0 = id u
            | _ => False
            end) as Head.
  { intros u more Hu Hm.
    destruct (base_settled _ _ _ _ B u Hu) as [[Su Ru]|(Su & r & Ru & _)]; rewrite Su.
    - split; [assumption|]. rewrite called_ids_app. intros Hc.
      apply in_app_or in Hc. destruct Hc as [Hc|Hc]; [now apply Hm|].
      destruct (Co _ Hc) as (u' & G & S').
      rewrite (In_tasks_get _ _ ND Hu) in G. injection G as <-. congruence.
    - exists r. split; [assumption|].
      destruct (Sd u r Hu Ru) as (t0 & p & H0 & E0). exists t0, p.
      split; [|assumption]. apply in_or_app. now right. }
  destruct SC as [D S|e D R -> ->|D R F -> ->|D R F P -> ->|D R F P S
                 |ready replies e D R NE L G -> T Ev' Hi W An].
  1,5: apply synthesize_spec in S; destruct S as (Et & _ & rp & Es & _);
       rewrite Es, Eo in Ev;
       change (EvSynthesize results rp :: old ++ events a)%list
         with (([EvSynthesize results rp] ++ old) ++ events a)%list in Ev;
       apply app_inv_tail in Ev; subst new; rewrite Et in Hin;
       pose proof (Head t [EvSynthesize results rp] Hin (fun _ F => F)) as HH;
       destruct (status t); try assumption; contradiction.
  1-3: rewrite Eo in Ev; apply app_inv_tail in Ev; subst new;
       pose proof (Head t [] Hin (fun _ F => F)) as HH; simpl in HH;
       destruct (status t); try assumption; contradiction.
  destruct (ready_tasks_spec _ _ ND R) as [NR RS].
  destruct (logged_batch _ _ _ _ old ready replies B Eo NDo Co Do R L) as (Ec & _ & _ & Dj).
  rewrite Ev', Eo, app_assoc in Ev. apply app_inv_tail in Ev. subst new.
  assert (exists k m, Raised e = Raised (Exception ("Failed to execute task " ++ k ++ ": " ++ m)))
    as Fail.
  { destruct (gathered_first_failure _ _ G) as (_ & Y & m & _ & _ & _ & ->). now exists (id Y), m. }
  set (os := map (fun p => outcome_of (fst p) (snd p)) (zip ready replies)) in *.
  rewrite T in Hin. apply in_map_iff in Hin. destruct Hin as (u & <- & Hu).
  assert (forall X rep, In (X, rep) (zip ready replies) ->
            In (EvExecute X (execution_prompt (tasks a') X) rep)
               (rev (map (fun p => EvExecute (fst p) (execution_prompt (tasks a') (fst p)) (snd p))
                         (zip ready replies)) ++ old)) as InB.
  { intros X rep Hp. apply in_or_app. left. apply in_rev. rewrite rev_involutive.
    apply in_map_iff. now exists (X, rep). }
  destruct (mem (id u) (ids ready)) eqn:Mr.
  - assert (upd_if (fun k => mem k (ids ready)) (with_status IN_PROGRESS) u
            = with_status IN_PROGRESS u) as E1 by (unfold upd_if; now rewrite Mr).
    rewrite E1. apply mem_In in Mr.
    pose proof (In_ids_ready _ _ _ ND R Hu Mr) as Hr.
    destruct (proj1 (RS u) Hr) as (_ & Su & _).
    assert (result u = None) as Ru.
    { destruct (base_settled _ _ _ _ B u Hu) as [[_ Ru]|[S' _]]; [assumption|congruence]. }
    unfold upd_if. rewrite id_with_status.
    destruct (mem (id u) (failed_ids ready os)) eqn:Mf; simpl.
    + apply mem_In in Mf. destruct (failed_ids_In _ _ _ Mf) as (X & msg & Hp & EX).
      split; [assumption|]. split; [|assumption].
      exists X, (execution_prompt (tasks a') X), msg. split; [now apply InB|assumption].
    + apply mem_false in Mf.
      destruct (zip_In_fst _ _ replies u L Hr) as (rep & Hp).
      destruct rep as [r|msg].
      * split; [assumption|]. split; [|assumption].
        exists u, (execution_prompt (tasks a') u), r. split; [now apply InB|reflexivity].
      * exfalso. apply Mf. now apply (failed_ids_zip ready replies u msg).
  - assert (upd_if (fun k => mem k (ids ready)) (with_status IN_PROGRESS) u = u) as E1
      by (unfold upd_if; now rewrite Mr).
    rewrite E1. apply mem_false in Mr.
    assert (mem (id u) (failed_ids ready os) = false) as Mf.
    { apply mem_false. intros Hf. apply Mr. now apply (failed_ids_incl ready os). }
    unfold upd_if. rewrite Mf.
    assert (status u = PENDING ->
            ~ In (id u) (called_ids
                (rev (map (fun p => EvExecute (fst p) (execution_prompt (tasks a') (fst p)) (snd p))
                          (zip ready replies))))) as Hm.
    { intros _. rewrite called_ids_rev,
        (called_ids_zip ready replies (execution_prompt (tasks a')) L).
      intros Hc. apply in_rev in Hc. contradiction. }
    pose proof (Head u _ Hu Hm) as HH.
    destruct (status u); try assumption; contradiction.
Qed.

(** ** Runs on subtasks that carry the dataclass defaults *)

Lemma fresh_specs (subtasks : list SubTask) :
  (forall t, In t subtasks -> status t = PENDING /\ result t = None) ->
  map SubTask_of_spec (map spec_of subtasks) = subtasks.
Proof.
  induction subtasks as [|t l IH]; simpl; intros F; [reflexivity|]. f_equal.
  - destruct (F t (or_introl eq_refl)) as [S R]. destruct t as [i d ds st r].
    simpl in *. subst. reflexivity.
  - apply IH. intros u Hu. apply F. now right.
Qed.

Lemma ids_specs (subtasks : list SubTask) :
  map spec_id (map spec_of subtasks) = ids subtasks.
Proof. unfold ids. rewrite map_map. reflexivity. Qed.

(** X2.  Take any list of planned subtasks that all have the status PENDING
    and no result, as the dataclass defaults make them when the planning
    answer gives neither key, and a run on them from an agent with an empty
    task dict.  In it the aggregator is only ever called when every task is
    COMPLETED: the mapping it is given has an entry for every task and for
    nothing else, each entry is the result stored in the task, and the call
    comes after all worker calls, which all returned. *)
Theorem X2_synthesis_only_when_all_completed
        (a af : Agent) (subtasks : list SubTask) (out : Outcome)
        (new : list Event) (results : Results) (reply : Reply) :
  tasks a = [] ->
  (forall t, In t subtasks -> status t = PENDING /\ result t = None) ->
  execute_plan llm_call json_dumps a subtasks = (af, out) ->
  events af = (new ++ events a)%list ->
  In (EvSynthesize results reply) new ->
  (forall t, In t (tasks af) ->
     status t = COMPLETED /\
     exists r, result t = Some r /\ results_get results (id t) = Some r) /\
  (forall k, In k (map fst results) <-> In k (ids subtasks)) /\
  exists dispatches,
    new = EvSynthesize results reply :: dispatches /\
    forall e, In e dispatches -> succeeded e.
Proof.
  intros E F H Ev Hin. rewrite <- (fresh_specs subtasks F) in H.
  rewrite <- ids_specs.
  exact (synthesis_only_when_all_completed a af (map spec_of subtasks) out new results
           reply E H Ev Hin).
Qed.


(** X7.  Take any list of planned subtasks that all have the status PENDING
    and no result, as the dataclass defaults make them, and a run on them
    from an agent with an empty task dict, whatever way it ends.  At its end
    the status of a task says what happened to it.  A PENDING task was never
    handed to a worker and stores nothing.  A COMPLETED task stores the text
    that a logged worker call for it returned.  A FAILED task stores nothing
    and a logged worker call for it raised.  A task left IN_PROGRESS stores
    nothing although a logged worker call for it returned text: it was in a
    batch in which another call raised, and its answer is dropped.  Tasks
    are left FAILED or IN_PROGRESS only by a run that raises the failure of
    a worker call. *)
Theorem X7_final_status_and_log
        (a af : Agent) (subtasks : list SubTask) (out : Outcome) (new : list Event)
        (t : SubTask) :
  tasks a = [] ->
  (forall u, In u subtasks -> status u = PENDING /\ result u = None) ->
  execute_plan llm_call json_dumps a subtasks = (af, out) ->
  events af = (new ++ events a)%list ->
  In t (tasks af) ->
  match status t with
  | PENDING => result t = None /\ ~ In (id t) (called_ids new)
  | COMPLETED =>
      exists r, result t = Some r /\
                exists t0 p, In (EvExecute t0 p (Text r)) new /\ id t0 = id t
  | FAILED =>
      result t = None /\
      (exists t0 p m, In (EvExecute t0 p (Raises m)) new /\ id t0 = id t) /\
      exists k m, out = Raised (Exception ("Failed to execute task " ++ k ++ ": " ++ m))
  | IN_PROGRESS =>
      result t = None /\
      (exists t0 p r, In (EvExecute t0 p (Text r)) new /\ id t0 = id t) /\
      exists k m, out = Raised (Exception ("Failed to execute task " ++ k ++ ": " ++ m))
  end.
Proof.
  intros E F H Ev Hin. rewrite <- (fresh_specs subtasks F) in H.
  exact (final_status_and_log a af (map spec_of subtasks) out new t E H Ev Hin).
Qed.

(** ** The log is the sequence of the model calls *)

Lemma replays_app (st st1 st2 : LLM) (l1 l2 : list Event) :
  replays st l1 st1 -> replays st1 l2 st2 -> replays st (l1 ++ l2) st2.
Proof.
  revert st. induction l1 as [|e l1 IH]; simpl; intros st H1 H2.
  - now subst st1.
  - destruct H1 as (s & C & H1). exists s. split; [assumption|]. now apply IH.
Qed.

Lemma traced_same (a b : Agent) :
  events b = events a -> llm b = llm a -> traced a b [].
Proof. intros E L. split; [assumption|]. simpl. assumption. Qed.

Lemma traced_trans (a b c : Agent) (n1 n2 : list Event) :
  traced a b n1 -> traced b c n2 -> traced a c (n2 ++ n1).
Proof.
  intros [E1 R1] [E2 R2]. split.
  - now rewrite E2, E1, app_assoc.
  - rewrite rev_app_distr. now apply replays_app with (llm b).
Qed.

Lemma call_traced (a a1 : Agent) (prompt : string) (ev : Reply -> Event) (reply : Reply) :
  (forall r, event_prompt (ev r) = prompt /\ event_reply (ev r) = r) ->
  call llm_call a prompt ev = (a1, reply) -> traced a a1 [ev reply].
Proof.
  intros Hev H. unfold call in H.
  destruct (llm_call (llm a) prompt) as [st rep] eqn:C. injection H as <- <-.
  split; [reflexivity|]. simpl. exists st. destruct (Hev rep) as [-> ->]. auto.
Qed.

Lemma execute_subtask_traced (a a1 : Agent) (task : SubTask) (o : PyException + string) :
  execute_subtask llm_call a task = (a1, o) ->
  exists reply, traced a a1 [EvExecute task (execution_prompt (tasks a) task) reply].
Proof.
  unfold execute_subtask.
  destruct (call llm_call a _ _) as [a0 reply] eqn:C.
  apply call_traced in C; [|intros r; split; reflexivity].
  destruct reply as [r|msg]; intros [= <- <-]; [now exists (Text r)|].
  exists (Raises msg). destruct C as [E R]. split; assumption.
Qed.

Lemma mark_in_progress_traced (ready : list SubTask) (a : Agent) :
  traced a (mark_in_progress a ready) [].
Proof.
  destruct (events_mark_in_progress ready a) as [E L]. now apply traced_same.
Qed.

Lemma run_coroutines_traced (ready : list SubTask) (a a2 : Agent)
      (os : list (PyException + string)) :
  run_coroutines llm_call a ready = (a2, os) ->
  exists new, traced a a2 new /\ forall e, In e new -> worker_call e.
Proof.
  revert a a2 os. induction ready as [|t ready IH]; simpl; intros a a2 os H.
  - injection H as <- <-. exists []. split; [now apply traced_same|intros e []].
  - destruct (execute_subtask llm_call a t) as [a1 o] eqn:X.
    destruct (run_coroutines llm_call a1 ready) as [a2' os'] eqn:C.
    injection H as <- <-.
    destruct (execute_subtask_traced _ _ _ _ X) as (reply & T1).
    destruct (IH _ _ _ C) as (new & T2 & W).
    exists (new ++ [EvExecute t (execution_prompt (tasks a) t) reply])%list. split.
    + now apply traced_trans with a1.
    + intros e He. apply in_app_or in He. destruct He as [He|[<-|[]]]; [now apply W|].
      now exists t, (execution_prompt (tasks a) t), reply.
Qed.

Lemma store_results_traced (pairs : list (SubTask * string)) (a a3 : Agent)
      (results results' : Results) :
  store_results a pairs results = (a3, results') -> traced a a3 [].
Proof.
  revert a results. induction pairs as [|[t r] pairs IH]; simpl; intros a results H.
  - injection H as <- _. now apply traced_same.
  - apply IH in H. destruct H as [E L]. split; assumption.
Qed.

Lemma synthesize_traced (a af : Agent) (results : Results) (out : Outcome) :
  synthesize_results llm_call json_dumps a results = (af, out) ->
  exists reply, traced a af [EvSynthesize results reply].
Proof.
  unfold synthesize_results.
  destruct (call llm_call a _ _) as [a0 reply] eqn:C.
  apply call_traced in C; [|intros r; split; reflexivity].
  destruct reply; intros [= <- _]; eauto.
Qed.

Lemma iteration_traced (a : Agent) (results : Results) :
  match iteration llm_call json_dumps a results with
  | Continue a' _ => exists new, traced a a' new /\ forall e, In e new -> worker_call e
  | Stop af _ => exists new, traced a af new /\ pass_log new
  end.
Proof.
  unfold iteration.
  assert (exists new, traced a a new /\ pass_log new) as Same.
  { exists []. split; [now apply traced_same|]. left. intros e []. }
  assert (forall r, exists new,
            traced a (fst (synthesize_results llm_call json_dumps a r)) new /\ pass_log new)
    as Syn.
  { intros r. destruct (synthesize_results llm_call json_dumps a r) as [af out] eqn:S.
    destruct (synthesize_traced _ _ _ _ S) as (reply & T).
    exists [EvSynthesize r reply]. split; [assumption|]. right. eauto. }
  destruct (forallb _ (tasks a)); [apply Syn|].
  destruct (ready_tasks (tasks a)) as [e|ready]; [assumption|].
  destruct ready as [|t0 ready'].
  { destruct (existsb _ (tasks a)); [assumption|].
    destruct (existsb _ (tasks a)); [assumption|apply Syn]. }
  remember (t0 :: ready') as ready.
  destruct (run_coroutines llm_call (mark_in_progress a ready) ready) as [a2 os] eqn:C.
  destruct (run_coroutines_traced _ _ _ _ C) as (new & T & W).
  pose proof (traced_trans _ _ _ _ _ (mark_in_progress_traced ready a) T) as T'.
  rewrite app_nil_r in T'.
  destruct (gathered os) as [e|task_results].
  - exists new. split; [assumption|now left].
  - destruct (store_results a2 (zip ready task_results) results) as [a3 results'] eqn:S.
    apply store_results_traced in S.
    exists new. split; [|assumption].
    exact (traced_trans _ _ _ _ _ T' S).
Qed.

Lemma schedule_traced (fuel : nat) (a : Agent) (results : Results) :
  exists new,
    traced a (fst (schedule llm_call json_dumps fuel a results)) new /\ loop_log new.
Proof.
  revert a results. induction fuel as [|fuel IH]; simpl; intros a results.
  - exists []. split; [now apply traced_same|]. exists []. split; [now left|intros e []].
  - pose proof (iteration_traced a results) as I.
    destruct (iteration llm_call json_dumps a results) as [a' results'|af out].
    + destruct I as (n1 & T1 & W1).
      destruct (IH a' results') as (n2 & T2 & workers & Sh & W2).
      exists (n2 ++ n1)%list. split; [now apply traced_trans with a'|].
      exists (workers ++ n1)%list. split.
      * destruct Sh as [->|(r & rp & ->)]; [now left|right; now exists r, rp].
      * intros e He. apply in_app_or in He. destruct He; auto.
    + simpl. destruct I as (new & T & [W|(r & rp & ->)]).
      * exists new. split; [assumption|]. exists new. split; [now left|assumption].
      * exists [EvSynthesize r rp]. split; [assumption|].
        exists []. split; [right; now exists r, rp|intros e []].
Qed.

Lemma execute_plan_traced (a : Agent) (subtasks : list SubTask) :
  exists new,
    traced a (fst (execute_plan llm_call json_dumps a subtasks)) new /\ loop_log new.
Proof.
  unfold execute_plan.
  destruct (schedule_traced (S (length (register (tasks a) subtasks)))
              (mkAgent (register (tasks a) subtasks) (llm a) (events a)
                       [register (tasks a) subtasks]) []) as (new & [E R] & Sh).
  exists new. split; [|assumption]. split; assumption.
Qed.

(** The calls of [execute_task], from any agent. *)
Lemma execute_task_traced
        (parse_plan : string -> PyException + list TaskSpec)
        (a : Agent) (main_task : string) :
  exists reply rest,
    events (fst (execute_task llm_call json_dumps parse_plan a main_task))
    = (rest ++ EvPlan (planning_prompt main_task) reply :: events a)%list /\
    replays (llm a) (EvPlan (planning_prompt main_task) reply :: rev rest)
            (llm (fst (execute_task llm_call json_dumps parse_plan a main_task))) /\
    exists workers,
      (rest = workers \/ exists results r, rest = EvSynthesize results r :: workers) /\
      forall e, In e workers -> worker_call e.
Proof.
  unfold execute_task, plan_subtasks.
  destruct (call llm_call a _ _) as [a1 reply] eqn:C.
  apply call_traced in C; [|intros r; split; reflexivity].
  assert (exists rest,
             events a1 = (rest ++ EvPlan (planning_prompt main_task) reply :: events a)%list /\
             replays (llm a) (EvPlan (planning_prompt main_task) reply :: rev rest) (llm a1) /\
             loop_log rest) as Plan.
  { exists []. destruct C as [E R]. split; [assumption|]. split; [assumption|].
    exists []. split; [now left|intros e []]. }
  exists reply.
  destruct reply as [response|msg]; [|exact Plan].
  destruct (parse_plan response) as [e|plan]; [exact Plan|].
  destruct (execute_plan_traced a1 (map SubTask_of_spec plan)) as (rest & T & Sh).
  exists rest.
  pose proof (traced_trans _ _ _ _ _ C T) as [E R].
  split; [now rewrite E, <- app_assoc|]. split; [|assumption].
  rewrite rev_app_distr in R. exact R.
Qed.

(** X8.  Whatever the agent, the task and the answers of the model,
    [execute_task] calls the model one call after the other, each call on the
    state of the client that the call before left: first the planning call on
    the planning prompt of the task, then worker calls, and last at most one
    synthesis call.  The client ends in the state that these calls lead to,
    so that no call is made besides them. *)
Theorem X8_model_calls_of_execute_task
        (parse_plan : string -> PyException + list TaskSpec)
        (a : Agent) (main_task : string) :
  exists reply rest,
    events (fst (execute_task llm_call json_dumps parse_plan a main_task))
    = (rest ++ EvPlan (planning_prompt main_task) reply :: events a)%list /\
    replays (llm a) (EvPlan (planning_prompt main_task) reply :: rev rest)
            (llm (fst (execute_task llm_call json_dumps parse_plan a main_task))) /\
    exists workers,
      (rest = workers \/ exists results r, rest = EvSynthesize results r :: workers) /\
      forall e, In e workers -> worker_call e.
Proof. exact (execute_task_traced parse_plan a main_task). Qed.

Lemma called_ids_workers (l : list Event) :
  (forall e, In e l -> worker_call e) -> length (called_ids l) = length l.
Proof.
  induction l as [|e l IH]; simpl; intros W; [reflexivity|].
  destruct (W e (or_introl eq_refl)) as (t & p & r & ->). simpl.
  f_equal. apply IH. intros e' He'. apply W. now right.
Qed.

(** X9.  What one [execute_task] on an agent with an empty task dict costs.
    When the planning call raises, or its answer cannot be turned into
    subtasks, that is the only model call, the exception is the one of the
    call or of the parser, and the task dict stays empty.  Otherwise the
    planning call is followed by at most one worker call per planned subtask
    and at most one synthesis call: at most [n + 2] model calls for [n]
    planned subtasks. *)
Theorem X9_call_budget_of_execute_task
        (parse_plan : string -> PyException + list TaskSpec)
        (a af : Agent) (main_task : string) (out : Outcome) :
  tasks a = [] ->
  execute_task llm_call json_dumps parse_plan a main_task = (af, out) ->
  exists reply rest,
    events af = (rest ++ EvPlan (planning_prompt main_task) reply :: events a)%list /\
    match reply with
    | Raises msg => rest = [] /\ out = Raised (LLMError msg) /\ tasks af = []
    | Text response =>
        match parse_plan response with
        | inl e => rest = [] /\ out = Raised e /\ tasks af = []
        | inr plan => length rest <= S (length plan)
        end
    end.
Proof.
  intros E. unfold execute_task, plan_subtasks.
  destruct (call llm_call a _ _) as [a1 reply] eqn:C.
  destruct (call_spec _ _ _ _ _ C) as (T1 & _ & E1).
  intros H. exists reply. destruct reply as [response|msg].
  2:{ injection H as <- <-. exists []. rewrite T1. auto. }
  destruct (parse_plan response) as [e|plan].
  { injection H as <- <-. exists []. rewrite T1. auto. }
  rewrite E in T1.
  destruct (execute_plan_traced a1 (map SubTask_of_spec plan))
    as (rest & [Er _] & workers & Sh & W).
  rewrite H in Er. simpl in Er.
  destruct (run_log _ _ _ _ _ T1 H Er) as (ND & _ & I).
  exists rest. split; [now rewrite Er, E1|].
  assert (length (called_ids rest) <= length plan) as Lc.
  { rewrite <- (length_map spec_id plan). apply NoDup_incl_length; [assumption|].
    intros k Hk. now apply ids_register, I. }
  pose proof (called_ids_workers _ W) as Lw.
  destruct Sh as [->|(r & rp & ->)]; simpl in *; lia.
Qed.

(** ** An agent that is used again *)

Lemma tasks_set_keeps (ts : Tasks) (u t : SubTask) :
  In t ts -> id u <> id t -> In t (tasks_set ts u).
Proof.
  induction ts as [|v ts IH]; simpl; [contradiction|]. intros [->|H] N.
  - destruct (String.eqb_spec (id t) (id u)) as [E|_]; [congruence|now left].
  - destruct (String.eqb (id v) (id u)); right; auto.
Qed.

Lemma register_keeps (subtasks : list SubTask) (ts : Tasks) (t : SubTask) :
  In t ts -> ~ In (id t) (ids subtasks) -> In t (register ts subtasks).
Proof.
  revert ts. induction subtasks as [|u rest IH]; simpl; intros ts H N; [assumption|].
  apply IH; [|tauto]. apply tasks_set_keeps; [assumption|]. intros E. apply N. now left.
Qed.

Lemma sound_keep (a a' : Agent) (results results' : Results) :
  Sound a ->
  iteration llm_call json_dumps a results = Continue a' results' ->
  Sound a' /\
  pending_count (tasks a') < pending_count (tasks a) /\
  forall t, In t (tasks a) -> status t = FAILED -> In t (tasks a').
Proof.
  intros (ND & W & PN) H.
  destruct (iteration_Continue _ _ _ _ ND W PN H)
    as (ready & rs & D & R & NE & L & T & _ & _ & _ & W' & _).
  destruct (ready_tasks_spec _ _ ND R) as [NR RS].
  split; [split; [|split]|split].
  - rewrite T, ids_map; [assumption|]. apply id_complete_with.
  - assumption.
  - rewrite T. intros u' Hu'. apply in_map_iff in Hu'. destruct Hu' as (u & <- & Hu).
    unfold complete_with. destruct (assoc_result (id u) (zip ready rs)); simpl;
      [discriminate|now apply PN].
  - destruct ready as [|t0 ready']; [congruence|].
    assert (In t0 (t0 :: ready')) as H0 by now left.
    pose proof H0 as H1. apply RS in H1. destruct H1 as (Ht0 & S0 & _).
    rewrite T. apply pending_count_map_lt with t0; try assumption.
    + intros t Ht. unfold complete_with, pendingb.
      now destruct (assoc_result (id t) (zip (t0 :: ready') rs)).
    + unfold pendingb. rewrite S0. reflexivity.
    + pose proof (assoc_result_ready _ _ _ _ ND R L Ht0) as AR.
      unfold complete_with, pendingb.
      destruct (assoc_result (id t0) (zip (t0 :: ready') rs)); [reflexivity|contradiction].
  - intros t Ht St. rewrite T. apply in_map_iff. exists t. split; [|assumption].
    pose proof (assoc_result_ready _ _ _ _ ND R L Ht) as AR. unfold complete_with.
    destruct (assoc_result (id t) (zip ready rs)); [|reflexivity].
    apply RS in AR. destruct AR as (_ & Sp & _). congruence.
Qed.

Lemma schedule_sound (fuel : nat) (a af : Agent) (results : Results) (out : Outcome)
      (t : SubTask) :
  Sound a -> In t (tasks a) -> status t = FAILED ->
  pending_count (tasks a) < fuel ->
  schedule llm_call json_dumps fuel a results = (af, out) ->
  exists a' results',
    Sound a' /\ In t (tasks a') /\ stop_case a' results' af out.
Proof.
  revert a results. induction fuel as [|fuel IH]; intros a results S Ht St Lt; [lia|].
  simpl. destruct (iteration llm_call json_dumps a results) as [a' results'|a' o] eqn:I.
  - destruct (sound_keep _ _ _ _ S I) as (S' & Dc & K).
    apply IH; [assumption|now apply K|assumption|lia].
  - intros [= <- <-]. exists a, results. split; [assumption|]. split; [assumption|].
    apply iteration_Stop; [apply S|apply S|assumption].
Qed.

(** X10.  An agent is not fit for a second [execute_task] once a task of its
    dict is FAILED.  If the dict holds a FAILED task whose id is not planned
    again, the run on the new plan may still call workers, but it never
    reaches the synthesis and never returns: it ends with the [KeyError] of
    the readiness computation, with the failure of a worker call, or with
    the exception of line 123; the FAILED task is still in the dict. *)
Theorem X10_failed_task_blocks_later_runs
        (a af : Agent) (plan : list TaskSpec) (out : Outcome) (t : SubTask) :
  NoDup (ids (tasks a)) ->
  (forall u, In u (tasks a) -> status u = PENDING -> result u = None) ->
  In t (tasks a) -> status t = FAILED -> ~ In (id t) (map spec_id plan) ->
  execute_plan llm_call json_dumps a (map SubTask_of_spec plan) = (af, out) ->
  In t (tasks af) /\
  ((exists k, out = Raised (KeyError k)) \/
   out = Raised (Exception "Task execution failed") \/
   exists k m, out = Raised (Exception ("Failed to execute task " ++ k ++ ": " ++ m))).
Proof.
  intros ND PN Ht St Np H. unfold execute_plan in H.
  set (ts := register (tasks a) (map SubTask_of_spec plan)) in *.
  assert (In t ts) as Ht'.
  { apply register_keeps; [assumption|]. unfold ids. rewrite map_map. exact Np. }
  assert (Sound (mkAgent ts (llm a) (events a) [ts])) as Sd.
  { split; [|split]; simpl.
    - now apply NoDup_register.
    - split; [constructor|reflexivity].
    - intros u Hu Su. apply register_In in Hu. destruct Hu as [Hu|Hu]; [now apply PN|].
      apply in_map_iff in Hu. now destruct Hu as (j & <- & _). }
  assert (pending_count ts < Datatypes.S (length ts)) as Lt.
  { pose proof (pending_count_le_length ts). lia. }
  destruct (schedule_sound _ _ _ _ _ t Sd Ht' St Lt H)
    as (a' & results & (ND' & W' & PN') & Ha' & SC).
  assert (any_status FAILED (tasks a') = true) as AF.
  { apply existsb_exists. exists t. split; [assumption|]. now apply status_eqb_eq. }
  destruct SC as [D S'|e D R -> ->|D R F -> ->|D R F P -> ->|D R F P S'
                 |ready replies e D R NE L G -> T Ev' Hi W An].
  - pose proof (all_done_true _ D t Ha'). congruence.
  - split; [assumption|]. left.
    destruct (ready_among_error _ _ _ R) as (_ & k & _ & _ & _ & _ & ->). now exists k.
  - split; [assumption|]. right. now left.
  - congruence.
  - congruence.
  - split.
    + rewrite T. apply in_map_iff. exists t. split; [|assumption].
      assert (~ In (id t) (ids ready)) as Nr.
      { intros Hr. apply (In_ids_ready _ _ _ ND' R Ha') in Hr.
        apply (ready_tasks_spec _ _ ND' R) in Hr. destruct Hr as (_ & Sp & _). congruence. }
      apply mem_false in Nr. unfold upd_if at 2. rewrite Nr.
      assert (mem (id t) (failed_ids ready
                (map (fun p => outcome_of (fst p) (snd p)) (zip ready replies))) = false) as Mf.
      { apply mem_false. intros Hf. apply mem_false in Nr. apply Nr.
        exact (failed_ids_incl ready _ _ Hf). }
      unfold upd_if. now rewrite Mf.
    + right. right.
      destruct (gathered_first_failure _ _ G) as (_ & Y & m & _ & _ & _ & ->).
      now exists (id Y), m.
Qed.

End RunProperties.

Arguments executor_succeeds {LLM} _.

(** * Properties of the client, alone and under the orchestrator *)

Section AugmentedRun.

Import AugmentedLLM.

Variable Params : Type.
Variable repr_params : Params -> string.
Variable repr_str : string -> string.
Variable Client : Type.
Variable messages_create : Client -> string -> nat -> string -> Client * Reply.
Variable json_dumps : Results -> string.

Local Notation "'acall'" := (call repr_params repr_str messages_create).

Lemma concat_snoc (sep x : string) (l : list string) :
  String.concat sep (l ++ [x]) =
  match l with
  | [] => x
  | _ :: _ => (String.concat sep l ++ sep ++ x)%string
  end.
Proof.
  induction l as [|y l IH]; [reflexivity|].
  destruct l as [|z l]; [reflexivity|].
  change (String.concat sep ((y :: z :: l) ++ [x]))
    with (y ++ sep ++ String.concat sep ((z :: l) ++ [x]))%string.
  rewrite IH.
  change (String.concat sep (y :: z :: l))
    with (y ++ sep ++ String.concat sep (z :: l))%string.
  now rewrite !string_app_assoc.
Qed.

Lemma last5_app (older recent : list Exchange) :
  5 <= length recent -> last5 (older ++ recent) = last5 recent.
Proof.
  intros L. unfold last5. rewrite length_app, skipn_app.
  replace (length older + length recent - 5 - length older) with (length recent - 5) by lia.
  rewrite skipn_all2 by lia. reflexivity.
Qed.

Lemma replays_memory (st st' : AugmentedLLM Params Client) (log : list Event) :
  replays _ acall json_dumps st log st' ->
  memory st' = (memory st ++ exchanges json_dumps log)%list /\ tools st' = tools st.
Proof.
  revert st. induction log as [|e log IH]; simpl; intros st.
  - intros ->. now rewrite app_nil_r.
  - intros (st1 & C & R). apply IH in R. destruct R as [M T].
    unfold call in C.
    destruct (messages_create _ _ _ _) as [c reply].
    destruct reply as [text|msg]; injection C as <- <-; simpl in M, T.
    + split; [|assumption]. now rewrite M, <- app_assoc.
    + split; assumption.
Qed.

(** X11.  The prompt that [call] sends shows the last five exchanges of the
    memory and nothing of the older ones: with five or more exchanges in
    the memory, whatever was stored before them does not change the context
    put before the prompt. *)
Theorem X11_context_shows_last_five_exchanges
        (c : Client) (ts : list (Tool Params)) (older recent : list Exchange) :
  5 <= length recent ->
  context repr_params repr_str (mkAugmentedLLM c ts (older ++ recent)) =
  context repr_params repr_str (mkAugmentedLLM c ts recent).
Proof.
  intros L. unfold context, get_tool_descriptions. simpl.
  rewrite (last5_app older recent L).
  destruct recent as [|r recent]; [simpl in L; lia|].
  destruct older; reflexivity.
Qed.

(** X12.  What [execute_task] leaves in the memory of the [AugmentedLLM] it
    is given: the exchanges of the calls it has made, in the order of the
    calls, one for every call that returned and none for a call that
    raised, each with the prompt as the orchestrator passed it; the memory
    that was there is kept before them, and the tools are not changed. *)
Theorem X12_client_memory_after_execute_task
        (parse_plan : string -> PyException + list TaskSpec)
        (a : Agent (AugmentedLLM Params Client)) (main_task : string) :
  exists new,
    events (fst (execute_task acall json_dumps parse_plan a main_task))
    = (new ++ events a)%list /\
    memory (llm (fst (execute_task acall json_dumps parse_plan a main_task)))
    = (memory (llm a) ++ exchanges json_dumps (rev new))%list /\
    tools (llm (fst (execute_task acall json_dumps parse_plan a main_task)))
    = tools (llm a).
Proof.
  destruct (execute_task_traced _ acall json_dumps parse_plan a main_task)
    as (reply & rest & E & R & _).
  exists (rest ++ [EvPlan (planning_prompt main_task) reply])%list.
  split; [now rewrite E, <- app_assoc|].
  replace (rev (rest ++ [EvPlan (planning_prompt main_task) reply]))
    with (EvPlan (planning_prompt main_task) reply :: rev rest)
    by now rewrite rev_app_distr.
  exact (replays_memory _ _ _ R).
Qed.

(** X13.  [get_tool_descriptions] after [add_tool]: the description of the
    new tool comes last, alone when it is the first tool and after a newline
    otherwise, and the descriptions of the tools registered before are as
    they were. *)
Theorem X13_add_tool_appends_description
        (l : AugmentedLLM Params Client) (tool : Tool Params) :
  get_tool_descriptions repr_params (add_tool l tool) =
  match tools l with
  | [] => desc repr_params tool
  | _ :: _ => (get_tool_descriptions repr_params l ++ nl ++ desc repr_params tool)%string
  end.
Proof.
  unfold get_tool_descriptions, add_tool. simpl. rewrite map_app. simpl.
  rewrite concat_snoc. now destruct (tools l).
Qed.

Lemma replays_split (st st' : AugmentedLLM Params Client) (before after : list Event)
      (e : Event) :
  replays _ acall json_dumps st (before ++ e :: after) st' ->
  exists st1 st2,
    replays _ acall json_dumps st before st1 /\
    acall st1 (event_prompt json_dumps e) = (st2, event_reply e).
Proof.
  revert st. induction before as [|x before IH]; simpl; intros st.
  - intros (st2 & C & _). exists st, st2. auto.
  - intros (s & C & R). destruct (IH _ R) as (st1 & st2 & R1 & C1).
    exists st1, st2. split; [|assumption]. exists s. auto.
Qed.


End AugmentedRun.

(** * Properties of the concrete runs *)

Example diamond_runs :
  snd (run ok_llm diamond) = Returned "ok" /\
  statuses (tasks (fst (run ok_llm diamond))) =
    [("A", COMPLETED, Some "ok"); ("B", COMPLETED, Some "ok"); ("C", COMPLETED, Some "ok")].
Proof. split; reflexivity. Qed.

Example chain2_fails :
  snd (run failing_llm chain2) = Raised (Exception "Failed to execute task A: boom") /\
  statuses (tasks (fst (run failing_llm chain2))) =
    [("A", FAILED, None); ("B", PENDING, None)].
Proof. split; reflexivity. Qed.

(** ** Facts about the graphs of the scenarios *)

Lemma acyclic_by_rank (ts : Tasks) (rank : string -> nat) :
  (forall a b, depends_on ts a b -> rank b < rank a) -> acyclic ts.
Proof.
  intros H.
  assert (forall a b, clos_trans string (depends_on ts) a b -> rank b < rank a) as T.
  { intros a b C. induction C as [a b E|a b c _ IH1 _ IH2]; [now apply H|lia]. }
  intros k C. apply T in C. lia.
Qed.

(** The task behind an edge of a registered plan is one of the planned
    tasks. *)
Lemma edge_source (plan : list TaskSpec) (a b : string) :
  depends_on (register [] (map SubTask_of_spec plan)) a b ->
  exists j, In j plan /\ spec_id j = a /\ In b (spec_dependencies j) /\
            In b (ids (register [] (map SubTask_of_spec plan))).
Proof.
  intros (t & G & Hb & Hi). destruct (tasks_get_In _ _ _ G) as [Hin <-].
  apply register_In in Hin. destruct Hin as [[]|Hin].
  apply in_map_iff in Hin. destruct Hin as (j & <- & Hj). now exists j.
Qed.

Lemma diamond_acyclic : acyclic (register [] (map SubTask_of_spec diamond)).
Proof.
  apply acyclic_by_rank with (rank := fun k => if String.eqb k "C" then 1 else 0).
  intros a b E. destruct (edge_source _ _ _ E) as (j & Hj & <- & Hb & _).
  destruct Hj as [<-|[<-|[<-|[]]]]; simpl in Hb; try contradiction.
  destruct Hb as [<-|[<-|[]]]; simpl; lia.
Qed.

Lemma diamond_no_dangling : no_dangling (register [] (map SubTask_of_spec diamond)).
Proof.
  intros t d [<-|[<-|[<-|[]]]]; simpl; tauto.
Qed.

Lemma ghost_acyclic : acyclic (register [] (map SubTask_of_spec ghost)).
Proof.
  apply acyclic_by_rank with (rank := fun _ => 0).
  intros a b E. destruct (edge_source _ _ _ E) as (j & Hj & <- & Hb & Hi).
  destruct Hj as [<-|[]]. simpl in Hb, Hi.
  destruct Hb as [<-|[]]. destruct Hi as [Hi|[]]. discriminate.
Qed.

Lemma ok_llm_succeeds : executor_succeeds ok_llm.
Proof. intros st ts t. now exists (S st), "ok". Qed.

Lemma silent_llm_succeeds : executor_succeeds silent_llm.
Proof. intros st ts t. now exists (S st), "". Qed.

Lemma two_cycle_has_cycle : has_cycle (register [] (map SubTask_of_spec two_cycle)).
Proof.
  exists "A". apply t_trans with "B"; apply t_step.
  - exists (SubTask_of_spec (spec "A" ["B"])). simpl. tauto.
  - exists (SubTask_of_spec (spec "B" ["A"])). simpl. tauto.
Qed.

Lemma self_loop_has_cycle : has_cycle (register [] (map SubTask_of_spec self_loop)).
Proof.
  exists "B". apply t_step.
  exists (SubTask_of_spec (spec "B" ["B"])). simpl. tauto.
Qed.

Lemma run_eq (llm_call : nat -> string -> nat * Reply) (plan : list TaskSpec) :
  execute_plan llm_call plain_dumps (new_agent 0) (map SubTask_of_spec plan) =
  (fst (run llm_call plan), snd (run llm_call plan)).
Proof. apply surjective_pairing. Qed.

(** ** C1 *)



(** ** C2 *)

(** The claim as stated fails on a plan with an absent dependency id: its
    dependency relation over existing ids is empty, hence acyclic, and the
    executor succeeds, yet the run raises [KeyError], the task stays PENDING
    and nothing is logged.  And with an executor that returns the empty
    string the stored result is empty. *)
Lemma C2_counterexample :
  (acyclic (register [] (map SubTask_of_spec ghost)) /\
   executor_succeeds ok_llm /\
   snd (run ok_llm ghost) = Raised (KeyError "ghost") /\
   statuses (tasks (fst (run ok_llm ghost))) = [("A", PENDING, None)] /\
   events (fst (run ok_llm ghost)) = []) /\
  (executor_succeeds silent_llm /\
   statuses (tasks (fst (run silent_llm [spec "A" []]))) = [("A", COMPLETED, Some "")]).
Proof.
  split.
  - split; [exact ghost_acyclic|]. split; [exact ok_llm_succeeds|].
    repeat split; reflexivity.
  - split; [exact silent_llm_succeeds|reflexivity].
Qed.

Lemma C2_witness :
  ids (tasks (fst (run ok_llm diamond))) = ["A"; "B"; "C"] /\
  forall t, In t (tasks (fst (run ok_llm diamond))) -> status t = COMPLETED.
Proof.
  destruct (C2_dag_run_completes nat ok_llm plain_dumps (new_agent 0)
              (fst (run ok_llm diamond)) diamond (snd (run ok_llm diamond))
              eq_refl diamond_no_dangling diamond_acyclic ok_llm_succeeds
              (run_eq ok_llm diamond)) as (I & C & _).
  split; [exact I|]. intros t Ht. exact (proj1 (C t Ht)).
Defined.

(** ** C3 *)

(** The claim as stated fails when the executor fails on a task outside the
    cycle, and when a task on the cycle lists an absent id first. *)
Lemma C3_counterexample :
  (has_cycle (register [] (map SubTask_of_spec self_loop)) /\
   snd (run failing_llm self_loop) =
     Raised (Exception "Failed to execute task A: boom")) /\
  (has_cycle (register [] (map SubTask_of_spec [spec "A" ["ghost"; "A"]])) /\
   snd (run ok_llm [spec "A" ["ghost"; "A"]]) = Raised (KeyError "ghost")).
Proof.
  split; (split; [|reflexivity]).
  - exact self_loop_has_cycle.
  - exists "A". apply t_step.
    exists (SubTask_of_spec (spec "A" ["ghost"; "A"])). simpl. tauto.
Qed.

Lemma C3_witness :
  snd (run ok_llm two_cycle) = Raised (Exception "Dependency cycle detected").
Proof.
  apply (C3_cycle_run_raises nat ok_llm plain_dumps (new_agent 0)
           (fst (run ok_llm two_cycle)) two_cycle (snd (run ok_llm two_cycle))
           eq_refl two_cycle_has_cycle (run_eq ok_llm two_cycle)).
  - intros t d [<-|[<-|[]]]; simpl; intros [<-|[]]; simpl; tauto.
  - exact ok_llm_succeeds.
Defined.

(** ** C4 *)

(** The claim as stated fails for the second of two tasks that fail in one
    batch: the executor fails on B, and the error names A. *)
Lemma C4_counterexample :
  In (EvExecute (SubTask_of_spec (spec "B" []))
                (execution_prompt [] (SubTask_of_spec (spec "B" [])))
                (Raises "boom"))
     (events (fst (run failing_llm pair))) /\
  statuses (tasks (fst (run failing_llm pair))) =
    [("A", FAILED, None); ("B", FAILED, None)] /\
  snd (run failing_llm pair) = Raised (Exception "Failed to execute task A: boom") /\
  snd (run failing_llm pair) <> Raised (Exception "Failed to execute task B: boom").
Proof.
  split; [left; reflexivity|]. split; [reflexivity|].
  split; [reflexivity|discriminate].
Qed.

Lemma C4_witness :
  exists t, tasks_get (tasks (fst (run failing_llm chain2))) "A" = Some t /\
            status t = FAILED /\ result t = None.
Proof.
  apply (C4_failure_is_fatal nat failing_llm plain_dumps (new_agent 0)
           (fst (run failing_llm chain2)) chain2 (snd (run failing_llm chain2))
           (events (fst (run failing_llm chain2)))
           (SubTask_of_spec (spec "A" []))
           (execution_prompt [] (SubTask_of_spec (spec "A" []))) "boom"
           eq_refl (run_eq failing_llm chain2)).
  - symmetry. apply app_nil_r.
  - left. reflexivity.
Defined.

(** ** C5 *)

(** C5.  On a plan whose only task lists an absent id, a run from a fresh
    agent ends in the first readiness computation with the [KeyError] of the
    lookup [self.tasks[dep_id]], whatever the model does; and when a
    completed dependency precedes the absent id in the list, the same
    [KeyError] comes in the second round, after the first task has run. *)
Theorem C5_dangling_dependency_raises_KeyError
        (LLM : Type) (llm_call : LLM -> string -> LLM * Reply)
        (json_dumps : Results -> string) (st : LLM) :
  snd (execute_plan llm_call json_dumps (new_agent st) (map SubTask_of_spec ghost))
    = Raised (KeyError "ghost") /\
  snd (run ok_llm late_ghost) = Raised (KeyError "ghost") /\
  statuses (tasks (fst (run ok_llm late_ghost))) =
    [("A", COMPLETED, Some "ok"); ("B", PENDING, None)].
Proof. repeat split; reflexivity. Qed.

(** ** C6 *)

(** The claim as stated fails when a dependency's stored result is the empty
    string: B is dispatched while its dependency A is COMPLETED with the
    stored result [""], and the view in B's prompt has no entry for A, where
    the claim wants the entry of A. *)
Lemma C6_counterexample :
  In (EvExecute B_waiting (execution_prompt [A_silent; B_waiting] B_waiting) (Text ""))
     (events (fst (run silent_llm chain2))) /\
  In [A_silent; B_waiting] (history (fst (run silent_llm chain2))) /\
  dependency_results [A_silent; B_waiting] (dependencies B_waiting) = [] /\
  spec_view [A_silent; B_waiting] (dependencies B_waiting) = ["A: "] /\
  execution_prompt [A_silent; B_waiting] B_waiting = worker_prompt "do B" [] /\
  worker_prompt "do B" [] <> worker_prompt "do B" ["A: "].
Proof.
  split; [right; left; reflexivity|].
  split; [right; right; left; reflexivity|].
  split; [reflexivity|]. split; [reflexivity|]. split; [reflexivity|].
  discriminate.
Qed.

Lemma C6_witness :
  exists snap,
    In snap (history (fst (run ok_llm chain2))) /\
    execution_prompt
      [mkSubTask "A" "do A" [] COMPLETED (Some "ok"); SubTask_of_spec (spec "B" ["A"])]
      (SubTask_of_spec (spec "B" ["A"]))
    = worker_prompt "do B" (map (entry snap) (filter (has_text snap) ["A"])).
Proof.
  destruct (C6_dependency_results_view nat ok_llm plain_dumps (new_agent 0)
              (fst (run ok_llm chain2)) chain2 (snd (run ok_llm chain2))
              (events (fst (run ok_llm chain2)))
              (SubTask_of_spec (spec "B" ["A"]))
              (execution_prompt
                 [mkSubTask "A" "do A" [] COMPLETED (Some "ok");
                  SubTask_of_spec (spec "B" ["A"])]
                 (SubTask_of_spec (spec "B" ["A"])))
              (Text "ok")
              eq_refl (run_eq ok_llm chain2) (eq_sym (app_nil_r _))
              (or_intror (or_introl eq_refl)))
    as (snap & Hs & _ & _ & V & _).
  exists snap. split; [exact Hs|exact V].
Defined.

(** ** C7 *)




(** ** C8 *)

(** The claim as stated fails: the exception of the cycle check is one fixed
    value, the same for the two-task cycle, whose PENDING ids are A and B,
    and for a self-dependent task C, so nothing can read the PENDING ids off
    the error. *)
Lemma C8_counterexample :
  ~ exists pending_of : PyException -> list string,
      forall plan e,
        snd (run ok_llm plan) = Raised e ->
        e = Exception "Dependency cycle detected" ->
        pending_of e = pending_ids (tasks (fst (run ok_llm plan))).
Proof.
  intros (pending_of & H).
  pose proof (H two_cycle _ eq_refl eq_refl) as H1.
  pose proof (H [spec "C" ["C"]] _ eq_refl eq_refl) as H2.
  rewrite H1 in H2. discriminate H2.
Qed.

(** C8, amended.  Whenever a run ends with the exception of the cycle check,
    that exception is the fixed [Exception("Dependency cycle detected")] and
    carries no task id; the tasks still PENDING are to be read from the
    agent's task dict, where at least one task is PENDING, no task is ready
    and every task is PENDING or COMPLETED.  For the two-task cycle the run
    ends so whatever the model does, and the PENDING ids in the dict are
    exactly A and B. *)
Theorem C8_cycle_error_and_pending_tasks
        (LLM : Type) (llm_call : LLM -> string -> LLM * Reply)
        (json_dumps : Results -> string) :
  (forall (a af : Agent LLM) (plan : list TaskSpec),
      tasks a = [] ->
      execute_plan llm_call json_dumps a (map SubTask_of_spec plan)
        = (af, Raised (Exception "Dependency cycle detected")) ->
      pending_ids (tasks af) <> [] /\
      ready_tasks (tasks af) = inr [] /\
      forall t, In t (tasks af) -> status t = PENDING \/ status t = COMPLETED) /\
  (forall st : LLM,
      snd (execute_plan llm_call json_dumps (new_agent st) (map SubTask_of_spec two_cycle))
        = Raised (Exception "Dependency cycle detected") /\
      pending_ids
        (tasks (fst (execute_plan llm_call json_dumps (new_agent st)
                       (map SubTask_of_spec two_cycle)))) = ["A"; "B"]).
Proof.
  split.
  - intros a af plan. apply run_cycle_error.
  - intros st. split; reflexivity.
Qed.

Lemma C8_witness :
  pending_ids (tasks (fst (run ok_llm [spec "C" ["C"]]))) <> [].
Proof.
  apply (proj1 (C8_cycle_error_and_pending_tasks nat ok_llm plain_dumps)
           (new_agent 0) (fst (run ok_llm [spec "C" ["C"]])) [spec "C" ["C"]]
           eq_refl).
  reflexivity.
Defined.

(** ** C9 *)

Lemma C9_witness :
  Forall2 legal_move
    [mkSubTask "A" "do A" [] COMPLETED (Some "ok");
     mkSubTask "B" "do B" ["A"] IN_PROGRESS None]
    [mkSubTask "A" "do A" [] COMPLETED (Some "ok");
     mkSubTask "B" "do B" ["A"] COMPLETED (Some "ok")].
Proof.
  apply (C9_status_transitions nat ok_llm plain_dumps (new_agent 0)
           (fst (run ok_llm chain2)) chain2 (snd (run ok_llm chain2))
           []
           [[mkSubTask "A" "do A" [] COMPLETED (Some "ok");
             mkSubTask "B" "do B" ["A"] PENDING None];
            [mkSubTask "A" "do A" [] IN_PROGRESS None;
             mkSubTask "B" "do B" ["A"] PENDING None];
            [mkSubTask "A" "do A" [] PENDING None;
             mkSubTask "B" "do B" ["A"] PENDING None]]
           _ _ eq_refl (run_eq ok_llm chain2)).
  reflexivity.
Defined.

(** ** C10 *)

Lemma C10_witness :
  tasks_get (register [] (map SubTask_of_spec twice)) "A" =
    Some (mkSubTask "A" "second" [] PENDING None) /\
  (exists t, tasks_get (tasks (fst (run ok_llm twice))) "A" = Some t /\
             description t = "second" /\ dependencies t = []) /\
  ~ In (EvExecute (SubTask_of_spec (mkTaskSpec "A" "first" []))
                  (execution_prompt [] (SubTask_of_spec (mkTaskSpec "A" "first" [])))
                  (Text "ok"))
       (events (fst (run ok_llm twice))) /\
  exists results reply workers,
    events (fst (run ok_llm twice)) = EvSynthesize results reply :: workers /\
    exists p r t,
      In (EvExecute (SubTask_of_spec (mkTaskSpec "A" "second" [])) p (Text r)) workers /\
      results_get results "A" = Some r /\
      tasks_get (tasks (fst (run ok_llm twice))) "A" = Some t /\
      status t = COMPLETED /\ result t = Some r.
Proof.
  destruct (C10_last_write_wins nat ok_llm plain_dumps (new_agent 0)
              (fst (run ok_llm twice)) twice (snd (run ok_llm twice))
              (events (fst (run ok_llm twice)))
              eq_refl (run_eq ok_llm twice) (eq_sym (app_nil_r _)))
    as (R & _ & _ & _ & K & _ & _ & N & _ & Ret).
  split; [exact (R "A")|].
  split; [exact (K "A" (mkTaskSpec "A" "second" []) eq_refl)|].
  split.
  - apply (N (mkTaskSpec "A" "first" []) (mkTaskSpec "A" "second" [])).
    + left. reflexivity.
    + reflexivity.
    + discriminate.
  - destruct (Ret "ok" eq_refl) as (results & reply & workers & En & All).
    exists results, reply, workers. split; [exact En|].
    exact (All "A" (mkTaskSpec "A" "second" []) eq_refl).
Defined.

(** ** Instances of the further properties *)

Lemma run_returns_ok (plan : list TaskSpec) (s : string) :
  snd (run ok_llm plan) = Returned s ->
  execute_plan ok_llm plain_dumps (new_agent 0) (map SubTask_of_spec plan) =
  (fst (run ok_llm plan), Returned s).
Proof. intros <-. apply run_eq. Qed.

Lemma events_new (a : Agent nat) : events a = (events a ++ events (new_agent 0))%list.
Proof. symmetry. apply app_nil_r. Qed.

Lemma X1_witness :
  snd (run failing_llm chain2) <> Raised (Exception "Task execution failed").
Proof.
  exact (proj2 (X1_ways_a_run_ends nat failing_llm plain_dumps (new_agent 0)
                  (fst (run failing_llm chain2)) chain2 (snd (run failing_llm chain2))
                  eq_refl (run_eq failing_llm chain2))).
Defined.

Lemma planned_fresh (plan : list TaskSpec) (t : SubTask) :
  In t (map SubTask_of_spec plan) -> status t = PENDING /\ result t = None.
Proof. intros H. apply in_map_iff in H. now destruct H as (j & <- & _). Qed.

Lemma X2_witness :
  In "C" ["A"; "B"; "C"] <-> In "C" (ids (map SubTask_of_spec diamond)).
Proof.
  apply (X2_synthesis_only_when_all_completed nat ok_llm plain_dumps (new_agent 0)
           (fst (run ok_llm diamond)) (map SubTask_of_spec diamond)
           (snd (run ok_llm diamond))
           (events (fst (run ok_llm diamond)))
           [("A", "ok"); ("B", "ok"); ("C", "ok")] (Text "ok")
           eq_refl (planned_fresh diamond) (run_eq ok_llm diamond) (events_new _)).
  left. reflexivity.
Defined.


Lemma X4_witness :
  schedule ok_llm plain_dumps 10
    (mkAgent (register [] (map SubTask_of_spec diamond)) 0 []
             [register [] (map SubTask_of_spec diamond)]) []
  = run ok_llm diamond.
Proof.
  apply (X4_loop_terminates nat ok_llm plain_dumps (new_agent 0) diamond 10 eq_refl).
  simpl. lia.
Defined.

Lemma X5_witness :
  NoDup (called_ids (events (fst (run ok_llm diamond)))) /\
  length (called_ids (events (fst (run ok_llm diamond)))) <= 3.
Proof.
  destruct (X5_each_task_called_at_most_once nat ok_llm plain_dumps (new_agent 0)
              (fst (run ok_llm diamond)) diamond (snd (run ok_llm diamond))
              (events (fst (run ok_llm diamond)))
              eq_refl (run_eq ok_llm diamond) (events_new _)) as (N & _ & L).
  split; [exact N|exact L].
Defined.

Lemma X6_witness :
  exists t0 p0 r0,
    In (EvExecute t0 p0 (Text r0)) (skipn 2 (events (fst (run ok_llm diamond)))) /\
    id t0 = "A".
Proof.
  apply (X6_workers_called_after_their_dependencies nat ok_llm plain_dumps (new_agent 0)
           (fst (run ok_llm diamond)) diamond (snd (run ok_llm diamond))
           (firstn 1 (events (fst (run ok_llm diamond))))
           (skipn 2 (events (fst (run ok_llm diamond))))
           (SubTask_of_spec (spec "C" ["A"; "B"]))
           (execution_prompt (tasks (fst (run ok_llm diamond)))
                             (SubTask_of_spec (spec "C" ["A"; "B"])))
           (Text "ok")
           eq_refl (run_eq ok_llm diamond)).
  - reflexivity.
  - left. reflexivity.
Defined.

Lemma X7_witness :
  snd (run flaky_llm pair) = Raised (Exception "Failed to execute task B: boom") /\
  (exists t0 p r,
     In (EvExecute t0 p (Text r)) (events (fst (run flaky_llm pair))) /\ id t0 = "A") /\
  exists k m,
    snd (run flaky_llm pair) =
    Raised (Exception ("Failed to execute task " ++ k ++ ": " ++ m)).
Proof.
  split; [reflexivity|].
  apply (X7_final_status_and_log nat flaky_llm plain_dumps (new_agent 0)
           (fst (run flaky_llm pair)) (map SubTask_of_spec pair)
           (snd (run flaky_llm pair))
           (events (fst (run flaky_llm pair)))
           (mkSubTask "A" "do A" [] IN_PROGRESS None)
           eq_refl (planned_fresh pair) (run_eq flaky_llm pair) (events_new _)).
  left. reflexivity.
Defined.

Lemma X9_witness :
  exists reply rest,
    events (fst (execute_task ok_llm plain_dumps (plan_of diamond) (new_agent 0) "build"))
    = (rest ++ EvPlan (planning_prompt "build") reply :: [])%list /\
    match reply with
    | Raises msg =>
        rest = [] /\
        snd (execute_task ok_llm plain_dumps (plan_of diamond) (new_agent 0) "build")
        = Raised (LLMError msg) /\
        tasks (fst (execute_task ok_llm plain_dumps (plan_of diamond) (new_agent 0) "build"))
        = []
    | Text response => length rest <= 4
    end.
Proof.
  exact (X9_call_budget_of_execute_task nat ok_llm plain_dumps (plan_of diamond)
           (new_agent 0)
           (fst (execute_task ok_llm plain_dumps (plan_of diamond) (new_agent 0) "build"))
           "build"
           (snd (execute_task ok_llm plain_dumps (plan_of diamond) (new_agent 0) "build"))
           eq_refl (surjective_pairing _)).
Defined.

Lemma X10_witness :
  snd (execute_plan ok_llm plain_dumps after_failure (map SubTask_of_spec [spec "C" []]))
  = Raised (Exception "Task execution failed") /\
  In (mkSubTask "A" "do A" [] FAILED None)
     (tasks (fst (execute_plan ok_llm plain_dumps after_failure
                    (map SubTask_of_spec [spec "C" []])))).
Proof.
  split; [reflexivity|].
  apply (X10_failed_task_blocks_later_runs nat ok_llm plain_dumps after_failure
           (fst (execute_plan ok_llm plain_dumps after_failure
                   (map SubTask_of_spec [spec "C" []])))
           [spec "C" []]
           (snd (execute_plan ok_llm plain_dumps after_failure
                   (map SubTask_of_spec [spec "C" []])))
           (mkSubTask "A" "do A" [] FAILED None)).
  - repeat constructor; simpl; intuition discriminate.
  - intros u [<-|[<-|[]]]; [discriminate|reflexivity].
  - left. reflexivity.
  - reflexivity.
  - simpl. intuition discriminate.
  - apply surjective_pairing.
Defined.

Lemma X11_witness :
  AugmentedLLM.context (fun _ : unit => "{}") quoted
    (AugmentedLLM.mkAugmentedLLM 0 []
       (AugmentedLLM.mkExchange "p0" "r0" ::
        map (fun s => AugmentedLLM.mkExchange s "ok") ["p1"; "p2"; "p3"; "p4"; "p5"]))
  = AugmentedLLM.context (fun _ : unit => "{}") quoted
      (AugmentedLLM.mkAugmentedLLM 0 []
         (map (fun s => AugmentedLLM.mkExchange s "ok") ["p1"; "p2"; "p3"; "p4"; "p5"])).
Proof.
  apply (X11_context_shows_last_five_exchanges unit (fun _ => "{}") quoted nat 0 []
           [AugmentedLLM.mkExchange "p0" "r0"]
           (map (fun s => AugmentedLLM.mkExchange s "ok") ["p1"; "p2"; "p3"; "p4"; "p5"])).
  simpl. lia.
Defined.


End Orchestrator.
